(** * vpServo: the visual servoing control law of ViSP (src/servo/vpServo.cpp)

    A shallow embedding of the task class [vpServo], the properties its
    specification states about it (Part III), and further properties of the
    code: of its calls in sequence, of the cycle and its inputs, of
    registration and release, of the assembly and of printing (Part IV).

    Conventions of the embedding.
    - A C++ [int] is a [Z]; matrix and vector sizes are list lengths.  Signed
      overflow has no defined behaviour in C++ and is outside the model.
    - A [double] is an element of an abstract type [R]; the linear algebra
      library (vpMatrix, vpColVector, vpTwistMatrix, vpAdaptativeGain) and the
      visual features (vpBasicFeature) are consumed interfaces, given as type
      classes.
    - A method is a function of the task state that returns an [outcome] and
      the state it leaves: a C++ exception keeps the assignments made before
      the throw.
    - [vpList] is a [list]; its cursor walk ([front], [outside], [value],
      [next]) is structural recursion, several lists walked in lockstep are
      matched together. *)

From Stdlib Require Import ZArith List Lia Bool QArith Qabs.
From Stdlib Require Strings.String.
From stdpp Require Import base list.
From coqutil Require Import Datatypes.RecordSetters.
Import TriangleBracketNotations.
Import String.StringSyntax.
Delimit Scope string_scope with string.

Open Scope Z_scope.

(* ===================================================================== *)
(** * Part I: definitions                                                 *)
(* ===================================================================== *)

(** ** Exceptions and outcomes *)

(** The exceptions the file throws (vpServoException codes) and the size
    error of the matrix library (vpMatrixException). *)
Inductive vpException : Type :=
| noFeatureError
| servoError
| noDofFree
| notKilledProperly
| matrixError.

(** What a call does: return, throw, or have no defined result (an access
    outside an array or past the end of a vpList, a loop that does not end). *)
Inductive outcome (A : Type) : Type :=
| Ret (a : A)
| Throw (e : vpException)
| Undefined.
Arguments Ret {A} a.
Arguments Throw {A} e.
Arguments Undefined {A}.

Global Instance outcome_ret : MRet outcome := @Ret.
Global Instance outcome_bind : MBind outcome := fun A B f m =>
  match m with
  | Ret a => f a
  | Throw e => Throw e
  | Undefined => Undefined
  end.

(** A method of an object of state [S]: the state persists through a throw. *)
Definition M (S A : Type) : Type := S -> outcome A * S.

Global Instance M_ret {S} : MRet (M S) := fun A a s => (Ret a, s).
Global Instance M_bind {S} : MBind (M S) := fun A B f m s =>
  match m s with
  | (Ret a, s') => f a s'
  | (Throw e, s') => (Throw e, s')
  | (Undefined, s') => (Undefined, s')
  end.

Definition throw {S A} (e : vpException) : M S A := fun s => (Throw e, s).
Definition gets {S A} (f : S -> A) : M S A := fun s => (Ret (f s), s).
Definition modify {S} (f : S -> S) : M S unit := fun s => (Ret tt, f s).
(** A call that reads the state and leaves it as it is. *)
Definition lift {S A} (c : S -> outcome A) : M S A := fun s => (c s, s).
(** A call of a function of this file on values. *)
Definition call {S A} (c : outcome A) : M S A := fun s => (c, s).
(** A call of the matrix library on values: it returns, or throws its size
    error (a vpMatrixException). *)
Definition of_lib {A} (c : option A) : outcome A :=
  match c with
  | Some a => Ret a
  | None => Throw matrixError
  end.
Definition lib {S A} (c : option A) : M S A := fun s => (of_lib c, s).

(** ** Matrices and vectors *)

(** vpColVector: the stored doubles. *)
Definition vpColVector (R : Type) : Type := list R.

(** vpMatrix: [colNum] and the rows (each of [colNum] doubles); [rowNum] is
    the number of rows stored. *)
Record vpMatrix (R : Type) : Type := mkMatrix {
  colNum : Z;
  rowData : list (list R)
}.
Arguments mkMatrix {R} colNum rowData.
Arguments colNum {R} _.
Arguments rowData {R} _.

Definition len {A} (l : list A) : Z := Z.of_nat (length l).

Definition getRows {R} (m : vpMatrix R) : Z := len (rowData m).
Definition getCols {R} (m : vpMatrix R) : Z := colNum m.

(** A matrix is an array of [getRows] x [getCols] doubles. *)
Definition wf_matrix {R} (m : vpMatrix R) : Prop :=
  Forall (fun r => len r = colNum m) (rowData m).

(** The linear algebra library as the file consumes it.  Products, sums and
    the pseudo-inverse check sizes at run time and may throw a
    vpMatrixException ([None]); the file catches and rethrows it. *)
Class LinearAlgebra (R : Type) : Type := {
  R0 : R;                          (* 0.0 *)
  R2 : R;                          (* 2.0, from the int 2 of (L+Lstar)/2 *)
  radd : R -> R -> R;              (* double + double *)
  rdiv : R -> R -> R;              (* double / double *)
  ropp : R -> R;                   (* - double *)
  (* what a cell added by realloc holds: indeterminate in C++ *)
  junk : R;
  (* vpMatrix * vpMatrix *)
  mmul : vpMatrix R -> vpMatrix R -> option (vpMatrix R);
  (* vpTwistMatrix * vpTwistMatrix, always 6 x 6 *)
  twist_mul : vpMatrix R -> vpMatrix R -> vpMatrix R;
  (* vpMatrix *= int *)
  mscale : vpMatrix R -> Z -> vpMatrix R;
  (* vpMatrix::t() *)
  transpose : vpMatrix R -> vpMatrix R;
  (* J.pseudoInverse(Jp, sv, 1e-6, imJ, imJt): rank, Jp, imJ, imJt *)
  pseudoInverse : vpMatrix R -> option (Z * vpMatrix R * vpMatrix R * vpMatrix R);
  (* vpMatrix * vpColVector *)
  mvmul : vpMatrix R -> vpColVector R -> option (vpColVector R);
  (* double * vpColVector *)
  svmul : R -> vpColVector R -> vpColVector R;
  (* double * vpMatrix *)
  smmul : R -> vpMatrix R -> vpMatrix R;
  (* vpMatrix - vpMatrix *)
  msub : vpMatrix R -> vpMatrix R -> option (vpMatrix R);
  (* vpColVector + vpColVector *)
  vadd : vpColVector R -> vpColVector R -> option (vpColVector R);
  (* resize(n, n) then setIdentity() *)
  identity : Z -> vpMatrix R
}.

(** Modelled from the spec: the resize of the linear algebra library, which
    is not in this file ("dynamic resize preserving existing contents,
    fixed-size resize").  The first [n] cells are kept, the cells added hold
    [fill]. *)
Definition resize_list {A} (fill : A) (n : Z) (l : list A) : list A :=
  take (Z.to_nat n) l ++ replicate (Z.to_nat n - length l) fill.

Section Algebra.
Context {R : Type} {LA : LinearAlgebra R}.

(** Modelled from the spec: vpColVector::resize(n, flagNullify), not in this
    file.  With the flag (the default) the vector is n zeros; without it
    the contents are kept and the added cells are indeterminate. *)
Definition resizeV (n : Z) (flagNullify : bool) (v : vpColVector R) : vpColVector R :=
  if flagNullify then replicate (Z.to_nat n) R0 else resize_list junk n v.

(** Modelled from the spec: vpMatrix::resize(nrows, ncols, flagNullify), not
    in this file; as [resizeV], row by row. *)
Definition resize (nrows ncols : Z) (flagNullify : bool) (m : vpMatrix R) : vpMatrix R :=
  if flagNullify
  then mkMatrix ncols (replicate (Z.to_nat nrows) (replicate (Z.to_nat ncols) R0))
  else mkMatrix ncols
         (resize_list (replicate (Z.to_nat ncols) junk) nrows
            (map (resize_list junk ncols) (rowData m))).

(** Modelled from the spec: the constructor vpMatrix(r, c), not in this
    file; r x c zeros. *)
Definition newMatrix (r c : Z) : vpMatrix R :=
  mkMatrix c (replicate (Z.to_nat r) (replicate (Z.to_nat c) R0)).

(** Modelled from the spec: vpMatrix + vpMatrix, "elementwise add", not in
    this file.  The spec leaves operands of different sizes open; they are
    given the library's size error here. *)
Definition madd (a b : vpMatrix R) : option (vpMatrix R) :=
  if (getRows a =? getRows b) && (getCols a =? getCols b)
  then Some (mkMatrix (colNum a) (zip_with (zip_with radd) (rowData a) (rowData b)))
  else None.

(** Modelled from the spec: vpMatrix / double, "elementwise scale", not in
    this file. *)
Definition mdiv (a : vpMatrix R) (x : R) : vpMatrix R :=
  mkMatrix (colNum a) (map (map (fun v => rdiv v x)) (rowData a)).
End Algebra.

(** ** The stacked assembly loop

    The block the file writes four times: once for the rows of L in
    computeInteractionMatrixFromList (lines 450-457), three times for s, sStar
    and error in vpServo::computeError (lines 612-633).

      while (dimTmp + cursor > dim) { dim *= 2; buf.resize(dim, false); }
      for (k = 0; k < dimTmp; ++k) { buf[cursor++] = tmp[k]; }

    [T] is the buffer (a vpColVector, a vpMatrix), [A] one of its cells (a
    double, a row), [B] a cell of the contribution. *)
Section Stacked.
Context {T A B : Type}.
Variable cells : T -> list A.
(** The buffer with its cells overwritten, its shape kept. *)
Variable with_cells : list A -> T -> T.
(** buf.resize(dim, false) *)
Variable resizeTo : Z -> T -> T.
(** buf[cursor] = tmp[k], for a cell of the buffer and one of the
    contribution. *)
Variable put : B -> A -> outcome A.

(** The while loop.  It doubles [dim] until the contribution fits; [fuel]
    bounds the number of turns, and a loop that has not ended by then has no
    result. *)
Fixpoint grow (fuel : nat) (need dim : Z) (buf : T) : outcome (Z * T) :=
  if need >? dim then
    match fuel with
    | O => Undefined
    | S fuel' => grow fuel' need (dim * 2) (resizeTo (dim * 2) buf)
    end
  else Ret (dim, buf).

Definition cell_at (i : Z) (l : list A) : option A :=
  if 0 <=? i then l !! Z.to_nat i else None.

(** The for loop. *)
Fixpoint copy (tmp : list B) (cursor : Z) (buf : T) : outcome (Z * T) :=
  match tmp with
  | [] => Ret (cursor, buf)
  | x :: tmp' =>
      match cell_at cursor (cells buf) with
      | None => Undefined
      | Some d =>
          d' ← put x d;
          copy tmp' (cursor + 1)
               (with_cells (<[Z.to_nat cursor := d']> (cells buf)) buf)
      end
  end.

(** One contribution: state (dim, cursor, buf). *)
Definition stack (tmp : list B) (st : Z * Z * T) : outcome (Z * Z * T) :=
  let '(dim, cursor, buf) := st in
  let need := len tmp + cursor in
  '(dim', buf') ← grow (Z.to_nat need) need dim buf;
  '(cursor', buf'') ← copy tmp cursor buf';
  Ret (dim', cursor', buf'').
End Stacked.

(** for (j = 0; j < colMatrixTmp; ++j) L[cursorL][j] = matrixTmp[k][j]:
    [src] is row k of matrixTmp from column j on, [dst] is row cursorL of L. *)
Fixpoint copy_cells {R} (j : nat) (src dst : list R) : outcome (list R) :=
  match src with
  | [] => Ret dst
  | x :: src' =>
      if decide (j < length dst)%nat
      then copy_cells (S j) src' (<[j := x]> dst)
      else Undefined
  end.

(** ** Visual features *)

(** vpBasicFeature::vpBasicFeatureDeallocatorType: who frees the feature. *)
Inductive vpBasicFeatureDeallocatorType : Type :=
| dealloc_user
| dealloc_vpServo.

Module vpBasicFeature.
(** The virtual interface of vpBasicFeature as the file calls it, for
    features of type [F].  A feature's answers are functions of the
    feature. *)
Class ops (R F : Type) : Type := {
  getDimension : F -> Z -> Z;               (* s->getDimension(select) *)
  interaction : F -> Z -> vpMatrix R;       (* s->interaction(select) *)
  get_s : F -> vpColVector R;               (* s->get_s() *)
  error : F -> F -> Z -> vpColVector R;     (* s->error(desired, select) *)
  getDeallocate : F -> vpBasicFeatureDeallocatorType;
  setDeallocate : vpBasicFeatureDeallocatorType -> F -> F;
  duplicate : F -> F;
  init : F -> F
}.
End vpBasicFeature.

(** ** The task *)

Inductive servoEnum : Type :=
| NONE
| EYEINHAND_CAMERA
| EYEINHAND_L_cVe_eJe
| EYETOHAND_L_cVe_eJe
| EYETOHAND_L_cVf_fVe_eJe
| EYETOHAND_L_cVf_fJe.

(** Modelled from the spec: the constants of the int field
    interactionMatrixType, declared in vpServo.h ("interaction-matrix mode
    {use-current, use-desired, average-of-both}"). *)
Inductive interactionMatrixEnum : Type :=
| CURRENT
| DESIRED
| MEAN.

(** Modelled from the spec: the constants of the int field inversionType,
    declared in vpServo.h ("inversion mode {pseudo-inverse, transpose}"). *)
Inductive inversionEnum : Type :=
| PSEUDO_INVERSE
| TRANSPOSE.

(** What kill() does to the heap and to the output, in order. *)
Inductive event (F : Type) : Type :=
| Delete (f : F)      (* delete s_ptr *)
| Print (f : F).      (* s_ptr->print() *)
Arguments Delete {F} f.
Arguments Print {F} f.

(** The members of vpServo the file reads or writes. *)
Record vpServo (R F : Type) : Type := mkServo {
  servoType : servoEnum;
  (* twist transformation matrices and Jacobians, with their flags *)
  cVe : vpMatrix R;  init_cVe : bool;
  cVf : vpMatrix R;  init_cVf : bool;
  fVe : vpMatrix R;  init_fVe : bool;
  eJe : vpMatrix R;  init_eJe : bool;
  fJe : vpMatrix R;  init_fJe : bool;
  dim_task : Z;
  featureList : list F;
  desiredFeatureList : list F;
  featureSelectionList : list Z;
  signInteractionMatrix : Z;
  interactionMatrixType : interactionMatrixEnum;
  inversionType : inversionEnum;
  interactionMatrixComputed : bool;
  errorComputed : bool;
  taskWasKilled : bool;
  L : vpMatrix R;
  error : vpColVector R;
  s : vpColVector R;
  sStar : vpColVector R;
  J1 : vpMatrix R;
  J1p : vpMatrix R;
  rankJ1 : Z;
  e1 : vpColVector R;
  e : vpColVector R;
  WpW : vpMatrix R;
  I_WpW : vpMatrix R;
  (* vpAdaptativeGain, applied to a vector *)
  lambda : vpColVector R -> R
}.
Arguments mkServo {R F}.
Arguments servoType {R F} _.
Arguments cVe {R F} _.
Arguments init_cVe {R F} _.
Arguments cVf {R F} _.
Arguments init_cVf {R F} _.
Arguments fVe {R F} _.
Arguments init_fVe {R F} _.
Arguments eJe {R F} _.
Arguments init_eJe {R F} _.
Arguments fJe {R F} _.
Arguments init_fJe {R F} _.
Arguments dim_task {R F} _.
Arguments featureList {R F} _.
Arguments desiredFeatureList {R F} _.
Arguments featureSelectionList {R F} _.
Arguments signInteractionMatrix {R F} _.
Arguments interactionMatrixType {R F} _.
Arguments inversionType {R F} _.
Arguments interactionMatrixComputed {R F} _.
Arguments errorComputed {R F} _.
Arguments taskWasKilled {R F} _.
Arguments L {R F} _.
Arguments error {R F} _.
Arguments s {R F} _.
Arguments sStar {R F} _.
Arguments J1 {R F} _.
Arguments J1p {R F} _.
Arguments rankJ1 {R F} _.
Arguments e1 {R F} _.
Arguments e {R F} _.
Arguments WpW {R F} _.
Arguments I_WpW {R F} _.
Arguments lambda {R F} _.

Section Servo.
Context {R : Type} {LA : LinearAlgebra R}.
Context {F : Type} {BF : vpBasicFeature.ops R F}.

Local Abbreviation servo := (vpServo R F).

(** vpServo::init, lines 86-114. *)
Definition init : M servo unit :=
  modify (fun t : servo =>
    t<|servoType := NONE|>
     <|init_cVe := false|><|init_cVf := false|><|init_fVe := false|>
     <|init_eJe := false|><|init_fJe := false|>
     <|dim_task := 0|>
     <|featureList := []|><|desiredFeatureList := []|>
     <|signInteractionMatrix := 1|>
     <|interactionMatrixType := DESIRED|><|inversionType := PSEUDO_INVERSE|>
     <|interactionMatrixComputed := false|><|errorComputed := false|>
     <|taskWasKilled := false|>).

(** The while loop of vpServo::kill, lines 140-162: the two lists walked in
    lockstep, the effects in order.  A feature is a value and a delete an
    effect in the result: the objects themselves are not followed. *)
Fixpoint kill_loop (fl dl : list F) : outcome (list (event F)) :=
  match fl with
  | [] => Ret []
  | s_ptr :: fl' =>
      match dl with
      | [] => Undefined
      | d_ptr :: dl' =>
          let cur :=
            match vpBasicFeature.getDeallocate s_ptr with
            | dealloc_vpServo => [Delete s_ptr]
            | dealloc_user => []
            end in
          let des :=
            match vpBasicFeature.getDeallocate d_ptr with
            | dealloc_vpServo => [Print d_ptr; Delete d_ptr]
            | dealloc_user => []
            end in
          rest ← kill_loop fl' dl';
          Ret (cur ++ des ++ rest)
      end
  end.

(** vpServo::kill, lines 132-167.  The result lists what was printed and
    deleted. *)
Definition kill : M servo (list (event F)) := fun t =>
  if taskWasKilled t then (Ret [], t)
  else
    match kill_loop (featureList t) (desiredFeatureList t) with
    | Ret evs =>
        (Ret evs,
         t<|featureList := []|><|desiredFeatureList := []|><|taskWasKilled := true|>)
    | Throw ex => (Throw ex, t)
    | Undefined => (Undefined, t)
    end.

(** Modelled from the spec: set_cVe, declared in vpServo.h and not in this
    file ("supply any of: cameraToEndEffectorTwist, ... (each marks its
    freshness flag)"). *)
Definition set_cVe (m : vpMatrix R) : M servo unit :=
  modify (fun t : servo => t<|cVe := m|><|init_cVe := true|>).

(** Modelled from the spec: set_cVf, as set_cVe. *)
Definition set_cVf (m : vpMatrix R) : M servo unit :=
  modify (fun t : servo => t<|cVf := m|><|init_cVf := true|>).

(** Modelled from the spec: set_fVe, as set_cVe. *)
Definition set_fVe (m : vpMatrix R) : M servo unit :=
  modify (fun t : servo => t<|fVe := m|><|init_fVe := true|>).

(** Modelled from the spec: set_eJe, as set_cVe. *)
Definition set_eJe (m : vpMatrix R) : M servo unit :=
  modify (fun t : servo => t<|eJe := m|><|init_eJe := true|>).

(** Modelled from the spec: set_fJe, as set_cVe. *)
Definition set_fJe (m : vpMatrix R) : M servo unit :=
  modify (fun t : servo => t<|fJe := m|><|init_fJe := true|>).

(** vpServo::setServo, lines 169-193.  The default vpTwistMatrix and
    eye(6) are the 6 x 6 identity. *)
Definition setServo (_servoType : servoEnum) : M servo unit :=
  modify (fun t : servo => t<|servoType := _servoType|>);;
  modify (fun t : servo =>
    match servoType t with
    | EYEINHAND_CAMERA | EYEINHAND_L_cVe_eJe => t<|signInteractionMatrix := 1|>
    | _ => t<|signInteractionMatrix := -1|>
    end);;
  st ← gets servoType;
  match st with
  | EYEINHAND_CAMERA => set_cVe (identity 6);; set_eJe (identity 6)
  | _ => mret tt
  end.

(** vpServo::addFeature(s, s_star, select), lines 327-333. *)
Definition addFeature (s_cur s_star : F) (select : Z) : M servo unit :=
  modify (fun t : servo =>
    t<|featureList ::= fun l => l ++ [s_cur]|>
     <|desiredFeatureList ::= fun l => l ++ [s_star]|>
     <|featureSelectionList ::= fun l => l ++ [select]|>).

(** vpServo::addFeature(s, select), lines 339-366. *)
Definition addFeature1 (s_cur : F) (select : Z) : M servo unit :=
  let s_star :=
    vpBasicFeature.setDeallocate dealloc_vpServo
      (vpBasicFeature.init (vpBasicFeature.duplicate s_cur)) in
  modify (fun t : servo =>
    t<|featureList ::= fun l => l ++ [s_cur]|>
     <|desiredFeatureList ::= fun l => l ++ [s_star]|>
     <|featureSelectionList ::= fun l => l ++ [select]|>).

(** The while loop of vpServo::getDimension, lines 377-387. *)
Fixpoint getDimension_loop (fl : list F) (sl : list Z) (dim : Z) : outcome Z :=
  match fl with
  | [] => Ret dim
  | s_ptr :: fl' =>
      match sl with
      | [] => Undefined
      | select :: sl' =>
          getDimension_loop fl' sl' (dim + vpBasicFeature.getDimension s_ptr select)
      end
  end.

(** vpServo::getDimension, lines 369-390. *)
Definition getDimension : M servo Z := fun t =>
  match getDimension_loop (featureList t) (featureSelectionList t) 0 with
  | Ret d => (Ret d, t<|dim_task := d|>)
  | Throw ex => (Throw ex, t)
  | Undefined => (Undefined, t)
  end.

(** vpServo::setInteractionMatrixType, lines 392-397. *)
Definition setInteractionMatrixType
    (_interactionMatrixType : interactionMatrixEnum)
    (_interactionMatrixInversion : inversionEnum) : M servo unit :=
  modify (fun t : servo =>
    t<|interactionMatrixType := _interactionMatrixType|>
     <|inversionType := _interactionMatrixInversion|>).

(** The column count of L in computeInteractionMatrixFromList. *)
Definition colL : Z := 6.

(** The block of lines 450-457 on the rows of L. *)
Definition stack_rows (matrixTmp : vpMatrix R) (st : Z * Z * vpMatrix R)
  : outcome (Z * Z * vpMatrix R) :=
  stack rowData (fun rows m => mkMatrix (colNum m) rows)
        (fun n m => resize n colL false m) (copy_cells 0)
        (rowData matrixTmp) st.

(** The for loop of computeInteractionMatrixFromList, lines 438-459; the
    state is (rowL, cursorL, L). *)
Fixpoint interaction_loop (fl : list F) (sl : list Z) (st : Z * Z * vpMatrix R)
  : outcome (Z * Z * vpMatrix R) :=
  match fl with
  | [] => Ret st
  | sPTR :: fl' =>
      match sl with
      | [] => Undefined
      | select :: sl' =>
          st' ← stack_rows (vpBasicFeature.interaction sPTR select) st;
          interaction_loop fl' sl' st'
      end
  end.

(** computeInteractionMatrixFromList, lines 400-464.  [L0] is the matrix
    passed by reference, the result is what it holds at the return. *)
Definition computeInteractionMatrixFromList
    (featureList : list F) (featureSelectionList : list Z) (L0 : vpMatrix R)
  : outcome (vpMatrix R) :=
  match featureList with
  | [] => Throw noFeatureError
  | _ :: _ =>
      let rowL := getRows L0 in
      let '(rowL, L1) :=
        if 0 =? rowL then (1, resize 1 colL true L0) else (rowL, L0) in
      '(_, cursorL, L2) ← interaction_loop featureList featureSelectionList (rowL, 0, L1);
      Ret (resize cursorL colL false L2)
  end.

(** The part of vpServo::computeInteractionMatrix that runs after the
    switch, lines 525-533. *)
Definition interactionMatrixDone : M servo (vpMatrix R) :=
  modify (fun t : servo => t<|dim_task := getRows (L t)|>);;
  modify (fun t : servo => t<|interactionMatrixComputed := true|>);;
  gets L.

(** computeInteractionMatrixFromList(list, this->featureSelectionList, L)
    on the member L. *)
Definition assemble_L (list_of : servo -> list F) : M servo unit := fun t =>
  match computeInteractionMatrixFromList (list_of t) (featureSelectionList t) (L t) with
  | Ret L' => (Ret tt, t<|L := L'|>)
  | Throw ex => (Throw ex, t)
  | Undefined => (Undefined, t)
  end.

(** vpServo::computeInteractionMatrix, lines 473-534. *)
Definition computeInteractionMatrix : M servo (vpMatrix R) :=
  ty ← gets interactionMatrixType;
  match ty with
  | CURRENT => assemble_L featureList
  | DESIRED => assemble_L desiredFeatureList
  | MEAN =>
      L0 ← gets L;
      let Lstar0 := newMatrix (getRows L0) (getCols L0) in
      assemble_L featureList;;
      fl ← gets desiredFeatureList;
      sl ← gets featureSelectionList;
      Lstar ← call (computeInteractionMatrixFromList fl sl Lstar0);
      L1 ← gets L;
      sum ← lib (madd L1 Lstar);
      modify (fun t : servo => t<|L := mdiv sum R2|>)
  end;;
  interactionMatrixDone.

(** The block of lines 612-633 on s, sStar or error. *)
Definition stack_vec (vectTmp : vpColVector R) (st : Z * Z * vpColVector R)
  : outcome (Z * Z * vpColVector R) :=
  stack (fun v => v) (fun cells _ => cells)
        (fun n v => resizeV n false v) (fun x _ => Ret x)
        vectTmp st.

(** The for loop of vpServo::computeError, lines 598-634; the states are
    (dimS, cursorS, s), (dimSStar, cursorSStar, sStar) and
    (dimError, cursorError, error). *)
Fixpoint error_loop (fl dl : list F) (sl : list Z)
    (stS stSStar stError : Z * Z * vpColVector R)
  : outcome ((Z * Z * vpColVector R) * (Z * Z * vpColVector R) * (Z * Z * vpColVector R)) :=
  match fl with
  | [] => Ret (stS, stSStar, stError)
  | current_s :: fl' =>
      match dl, sl with
      | desired_s :: dl', select :: sl' =>
          stS' ← stack_vec (vpBasicFeature.get_s current_s) stS;
          stSStar' ← stack_vec (vpBasicFeature.get_s desired_s) stSStar;
          stError' ← stack_vec (vpBasicFeature.error current_s desired_s select) stError;
          error_loop fl' dl' sl' stS' stSStar' stError'
      | _, _ => Undefined
      end
  end.

(** Lines 578-583: the size a buffer is taken to have, 1 if it is empty. *)
Definition first_assumption (v : vpColVector R) : Z * Z * vpColVector R :=
  if 0 =? len v then (1, 0, resizeV 1 true v) else (len v, 0, v).

(** vpServo::computeError, lines 544-655.  Nothing throws after the two
    tests, so the members are written at the end. *)
Definition computeError : M servo (vpColVector R) := fun t =>
  match featureList t, desiredFeatureList t with
  | [], _ => (Throw noFeatureError, t)
  | _ :: _, [] => (Throw noFeatureError, t)
  | _ :: _, _ :: _ =>
      match error_loop (featureList t) (desiredFeatureList t) (featureSelectionList t)
              (first_assumption (s t)) (first_assumption (sStar t))
              (first_assumption (error t)) with
      | Ret ((_, cursorS, s'), (_, cursorSStar, sStar'), (_, cursorError, error')) =>
          let t' :=
            t<|s := resizeV cursorS false s'|>
             <|sStar := resizeV cursorSStar false sStar'|>
             <|error := resizeV cursorError false error'|> in
          let t'' := t'<|dim_task := len (error t')|><|errorComputed := true|> in
          (Ret (error t''), t'')
      | Throw ex => (Throw ex, t)
      | Undefined => (Undefined, t)
      end
  end.

(** vpServo::testInitialization, lines 657-691. *)
Definition testInitialization (t : servo) : outcome bool :=
  match servoType t with
  | NONE => Throw servoError
  | EYEINHAND_CAMERA => Ret true
  | EYEINHAND_L_cVe_eJe | EYETOHAND_L_cVe_eJe => Ret (init_cVe t && init_eJe t)
  | EYETOHAND_L_cVf_fVe_eJe => Ret (init_cVf t && init_fVe t && init_eJe t)
  | EYETOHAND_L_cVf_fJe => Ret (init_cVf t && init_fJe t)
  end.

(** vpServo::testUpdated, lines 692-726. *)
Definition testUpdated (t : servo) : outcome bool :=
  match servoType t with
  | NONE => Throw servoError
  | EYEINHAND_CAMERA => Ret true
  | EYEINHAND_L_cVe_eJe => Ret (init_eJe t)
  | EYETOHAND_L_cVe_eJe => Ret (init_cVe t && init_eJe t)
  | EYETOHAND_L_cVf_fVe_eJe => Ret (init_fVe t && init_eJe t)
  | EYETOHAND_L_cVf_fJe => Ret (init_fJe t)
  end.

(** The switch of vpServo::computeControlLaw, lines 778-806: the locals
    (cVa, aJe). *)
Definition select_cVa_aJe : M servo (vpMatrix R * vpMatrix R) :=
  st ← gets servoType;
  match st with
  | NONE => throw servoError
  | EYEINHAND_CAMERA | EYEINHAND_L_cVe_eJe | EYETOHAND_L_cVe_eJe =>
      cVa ← gets cVe;
      aJe ← gets eJe;
      modify (fun t : servo => t<|init_cVe := false|>);;
      modify (fun t : servo => t<|init_eJe := false|>);;
      mret (cVa, aJe)
  | EYETOHAND_L_cVf_fVe_eJe =>
      cVa ← gets (fun t : servo => twist_mul (cVf t) (fVe t));
      aJe ← gets eJe;
      modify (fun t : servo => t<|init_fVe := false|>);;
      modify (fun t : servo => t<|init_eJe := false|>);;
      mret (cVa, aJe)
  | EYETOHAND_L_cVf_fJe =>
      cVa ← gets cVf;
      aJe ← gets fJe;
      modify (fun t : servo => t<|init_fJe := false|>);;
      mret (cVa, aJe)
  end.

(** Lines 812-865 of vpServo::computeControlLaw: the task Jacobian, its
    pseudo-inverse and rank, the primary task. *)
Definition primary_task (cVa aJe : vpMatrix R) : M servo unit :=
  (* J1 = L*cVa*aJe ; J1 *= signInteractionMatrix *)
  L_ ← gets L;
  LcVa ← lib (mmul L_ cVa);
  J ← lib (mmul LcVa aJe);
  modify (fun t : servo => t<|J1 := J|>);;
  modify (fun t : servo => t<|J1 := mscale (J1 t) (signInteractionMatrix t)|>);;
  (* vpMatrix imJ1t, imJ1 ; bool imageComputed = false ; *)
  inv ← gets inversionType;
  '(imJ1t, imageComputed) ←
    match inv return M servo (vpMatrix R * bool) with
    | PSEUDO_INVERSE =>
        J ← gets J1;
        '(rank, Jp, imJ1, imJ1t) ← lib (pseudoInverse J);
        modify (fun t : servo => t<|J1p := Jp|><|rankJ1 := rank|>);;
        mret (imJ1t, true)
    | TRANSPOSE =>
        modify (fun t : servo => t<|J1p := transpose (J1 t)|>);;
        mret (mkMatrix 0 [], false)
    end;
  rank ← gets rankJ1;
  L_ ← gets L;
  (if rank =? getCols L_ then
     Jp ← gets J1p;
     err ← gets error;
     v ← lib (mvmul Jp err);
     modify (fun t : servo => t<|e1 := v|>)
   else
     imJ1t ←
       (if (imageComputed : bool) then mret imJ1t
        else
          J ← gets J1;
          '(rank, Jtmp, imJ1, imJ1t) ← lib (pseudoInverse J);
          modify (fun t : servo => t<|rankJ1 := rank|>);;
          mret imJ1t) : M servo (vpMatrix R);
     W ← lib (mmul imJ1t (transpose imJ1t));
     modify (fun t : servo => t<|WpW := W|>);;
     Jp ← gets J1p;
     WJp ← lib (mmul W Jp);
     err ← gets error;
     v ← lib (mvmul WJp err);
     modify (fun t : servo => t<|e1 := v|>));;
  (* e = - lambda(e1) * e1 *)
  modify (fun t : servo => t<|e := svmul (ropp (lambda t (e1 t))) (e1 t)|>).

(** Lines 756-766 of vpServo::computeControlLaw: the test of the first
    cycle. *)
Definition first_cycle_test : M servo unit :=
  ok ← lift testInitialization;
  if (ok : bool) then mret tt else throw servoError.

(** Lines 768-865 of vpServo::computeControlLaw: what every cycle does.
    testUpdated only traces when it returns false. *)
Definition cycle : M servo unit :=
  lift testUpdated;;
  '(cVa, aJe) ← select_cVa_aJe;
  computeInteractionMatrix;;
  computeError;;
  primary_task cVa aJe.

(** The try block of vpServo::computeControlLaw, lines 749-867, for a value
    of the static [iteration]. *)
Definition computeControlLaw_try (iteration : Z) : M servo unit :=
  (if iteration =? 0 then first_cycle_test else mret tt);;
  cycle.

(** vpServo::computeControlLaw, lines 744-883.  [iteration] is the static
    local of the function: one counter for the process, read at the call
    and incremented when the try block has not thrown. *)
Definition computeControlLaw (iteration : Z) (t : servo)
  : outcome (vpColVector R) * Z * servo :=
  match computeControlLaw_try iteration t with
  | (Ret _, t') => (Ret (e t'), iteration + 1, t')
  | (Throw ex, t') => (Throw ex, iteration, t')
  | (Undefined, t') => (Undefined, iteration, t')
  end.

(** vpServo::secondaryTask(de2dt), lines 906-929. *)
Definition secondaryTask (de2dt : vpColVector R) : M servo (vpColVector R) :=
  rank ← gets rankJ1;
  L_ ← gets L;
  if rank =? getCols L_ then throw noDofFree
  else
    I ← gets (fun t : servo => identity (getCols (J1 t)));
    W ← gets WpW;
    P ← lib (msub I W);
    modify (fun t : servo => t<|I_WpW := P|>);;
    lib (mvmul P de2dt).

(** vpServo::secondaryTask(e2, de2dt), lines 950-973; the operands of the
    sum are taken left to right. *)
Definition secondaryTask2 (e2 de2dt : vpColVector R) : M servo (vpColVector R) :=
  rank ← gets rankJ1;
  L_ ← gets L;
  if rank =? getCols L_ then throw noDofFree
  else
    I ← gets (fun t : servo => identity (getCols (J1 t)));
    W ← gets WpW;
    P ← lib (msub I W);
    modify (fun t : servo => t<|I_WpW := P|>);;
    lam ← gets lambda;
    a ← lib (mvmul (smmul (ropp (lam e2)) P) e2);
    b ← lib (mvmul P de2dt);
    lib (vadd a b).
End Servo.

Arguments stack_vec : simpl never.
Arguments stack_rows : simpl never.

(** ** Construction, destruction, printing and traces *)

(** The levels the switch of vpServo::print names. *)
Inductive printEnum : Type :=
| ALL
| MINIMUM.

(** What vpServo::print writes, in order: to [os], and to the standard
    output for the features. *)
Inductive output (R F : Type) : Type :=
| Text (msg : String.string)            (* os << "..." *)
| Endl                                  (* os << std::endl *)
| PrintFeature (f : F) (select : Z)     (* s->print(select) *)
| PrintMatrix (m : vpMatrix R)          (* os << L *)
| PrintRowVector (v : vpColVector R)    (* os << error.t() *)
| PrintGain (gain : vpColVector R -> R).  (* os << lambda *)
Arguments Text {R F} msg%_string.
Arguments Endl {R F}.
Arguments PrintFeature {R F} f select.
Arguments PrintMatrix {R F} m.
Arguments PrintRowVector {R F} v.
Arguments PrintGain {R F} gain.

Section Glue.
Context {R : Type} {LA : LinearAlgebra R}.
Context {F : Type} {BF : vpBasicFeature.ops R F}.

Local Abbreviation servo := (vpServo R F).

(** vpServo::~vpServo, lines 205-214; the three lines it traces before the
    throw are left out. *)
Definition vpServo_destructor (t : servo) : outcome unit :=
  if taskWasKilled t then Ret tt else Throw notKilledProperly.

(** vpServo::vpServo(servoEnum), lines 216-219.  The body is the call of
    setServo: it runs on the members as their own constructors and the
    storage left them, init() is not called. *)
Definition vpServo_constructor (_servoType : servoEnum) : M servo unit :=
  setServo _servoType.

(** os << "..." << std::endl *)
Definition line (msg : String.string) : list (output R F) := [Text msg; Endl].
Arguments line msg%_string.

(** The two for loops of vpServo::print, lines 262-286: a list of features
    walked in lockstep with the selections. *)
Fixpoint print_features (fl : list F) (sl : list Z) : outcome (list (output R F)) :=
  match fl with
  | [] => Ret []
  | s_ptr :: fl' =>
      match sl with
      | [] => Undefined
      | select :: sl' =>
          rest ← print_features fl' sl';
          Ret (Text String.EmptyString :: PrintFeature s_ptr select :: rest)
      end
  end.

(** Lines 234-259 of vpServo::print. *)
Definition print_servoType (st : servoEnum) : list (output R F) :=
  match st with
  | NONE => line "Type of task have not been chosen yet ! "
  | EYEINHAND_CAMERA =>
      line "Eye-in-hand configuration " ++ line "Control in the camera frame "
  | EYEINHAND_L_cVe_eJe =>
      line "Eye-in-hand configuration " ++ line "Control in the articular frame "
  | EYETOHAND_L_cVe_eJe =>
      line "Eye-to-hand configuration " ++ line "s_dot = _L_cVe_eJe q_dot "
  | EYETOHAND_L_cVf_fVe_eJe =>
      line "Eye-to-hand configuration " ++ line "s_dot = _L_cVe_fVe_eJe q_dot "
  | EYETOHAND_L_cVf_fJe =>
      line "Eye-to-hand configuration " ++ line "s_dot = _L_cVf_fJe q_dot "
  end.

(** The error as vpServo::print writes it, lines 297-302 and 313-316. *)
Definition print_error (t : servo) : list (output R F) :=
  if errorComputed t then [PrintRowVector (error t)] else line "not yet computed ".

(** vpServo::print, lines 221-324. *)
Definition print (displayLevel : printEnum) (t : servo) : outcome (list (output R F)) :=
  match displayLevel with
  | ALL =>
      cur ← print_features (featureList t) (featureSelectionList t);
      des ← print_features (desiredFeatureList t) (featureSelectionList t);
      Ret (line "Visual servoing task: " ++
           line "Type of control law " ++
           print_servoType (servoType t) ++
           line "List of visual features : s" ++
           cur ++
           line "List of desired visual features : s*" ++
           des ++
           line "Interaction Matrix Ls " ++
           (if interactionMatrixComputed t then [PrintMatrix (L t)]
            else line "not yet computed ") ++
           line "Error vector (s-s*) " ++
           print_error t ++
           [Text "Gain : "; PrintGain (lambda t); Endl])
  | MINIMUM =>
      Ret (Text "Err (s-s*):  " :: print_error t)
  end.

(** The message an absent input gets from vpERROR_TRACE. *)
Definition trace_unless (flag : bool) (msg : String.string) : list String.string :=
  if flag then [] else [msg].
Arguments trace_unless flag msg%_string.

(** The messages vpServo::testInitialization hands to vpERROR_TRACE, lines
    660-688, in order. *)
Definition testInitialization_traces (t : servo) : list String.string :=
  match servoType t with
  | NONE => ["No control law have been yet defined"%string]
  | EYEINHAND_CAMERA => []
  | EYEINHAND_L_cVe_eJe | EYETOHAND_L_cVe_eJe =>
      trace_unless (init_cVe t) "cVe not initialized" ++
      trace_unless (init_eJe t) "eJe not initialized"
  | EYETOHAND_L_cVf_fVe_eJe =>
      trace_unless (init_cVf t) "cVf not initialized" ++
      trace_unless (init_fJe t) "fVe not initialized" ++
      trace_unless (init_eJe t) "eJe not initialized"
  | EYETOHAND_L_cVf_fJe =>
      trace_unless (init_cVf t) "cVf not initialized" ++
      trace_unless (init_fJe t) "fJe not initialized"
  end.

(** The messages vpServo::testUpdated hands to vpERROR_TRACE, lines
    695-723, in order. *)
Definition testUpdated_traces (t : servo) : list String.string :=
  match servoType t with
  | NONE => ["No control law have been yet defined"%string]
  | EYEINHAND_CAMERA => []
  | EYEINHAND_L_cVe_eJe => trace_unless (init_eJe t) "eJe not updated"
  | EYETOHAND_L_cVe_eJe =>
      trace_unless (init_cVe t) "cVe not updated" ++
      trace_unless (init_eJe t) "eJe not updated"
  | EYETOHAND_L_cVf_fVe_eJe =>
      trace_unless (init_fVe t) "fVe not updated" ++
      trace_unless (init_eJe t) "eJe not updated"
  | EYETOHAND_L_cVf_fJe => trace_unless (init_fJe t) "fJe not updated"
  end.
End Glue.

(** ** Notions the statements use *)

(** The invariant of the stacked assembly loop on its state
    (dim, cursor, buf): [dim] is the size of the buffer and is at least 1,
    the cursor is inside, every cell has the shape [okd]. *)
Definition stack_inv {T A} (cells : T -> list A) (okd : A -> Prop)
    (st : Z * Z * T) : Prop :=
  let '(dim, cursor, buf) := st in
  1 <= dim /\ len (cells buf) = dim /\ 0 <= cursor <= dim /\ Forall okd (cells buf).

(** Every run of [m] relates the state it starts from to the state it
    leaves, whatever its outcome. *)
Definition preserves {S A} (P : S -> S -> Prop) (m : M S A) : Prop :=
  forall st r st', m st = (r, st') -> P st st'.

(** The part [proj] of the state is left as it was. *)
Definition unchanged {S X} (proj : S -> X) : S -> S -> Prop :=
  fun st st' => proj st' = proj st.

(** A row of L: [colL] doubles. *)
Definition row6 {R} (r : list R) : Prop := len r = 6.

Section Notions.
Context {R : Type} {LA : LinearAlgebra R}.
Context {F : Type} {BF : vpBasicFeature.ops R F}.

(** The lists of the task as addFeature, kill and init leave them: a
    desired feature and a selection for every feature (the selection list
    is not emptied by kill and may be longer). *)
Definition aligned (t : vpServo R F) : Prop :=
  length (featureList t) = length (desiredFeatureList t) /\
  (length (featureList t) <= length (featureSelectionList t))%nat.

(** The three lists of the task. *)
Definition registry (t : vpServo R F) := 
  (featureList t, desiredFeatureList t, featureSelectionList t).

(** The rows of the interaction matrices of the features in [fl] are rows
    of 6 doubles, under the selections [sl] (the interface of
    vpBasicFeature::interaction). *)
Definition interaction_rows6 (fl : list F) (sl : list Z) : Prop :=
  Forall (fun m : vpMatrix R => Forall row6 (rowData m))
         (zip_with vpBasicFeature.interaction fl sl).

(** The contributions of the features, one after the other. *)
Definition stacked_rows (fl : list F) (sl : list Z) : list (list R) :=
  concat (map rowData (zip_with vpBasicFeature.interaction fl sl)).

Definition stacked_s (fl : list F) : vpColVector R :=
  concat (map vpBasicFeature.get_s fl).

Fixpoint error_contributions (fl dl : list F) (sl : list Z) : list (vpColVector R) :=
  match fl, dl, sl with
  | f :: fl', d :: dl', select :: sl' =>
      vpBasicFeature.error f d select :: error_contributions fl' dl' sl'
  | _, _, _ => []
  end.

Definition stacked_error (fl dl : list F) (sl : list Z) : vpColVector R :=
  concat (error_contributions fl dl sl).

(** The sum of the row counts of a list of contributions. *)
Definition sum_len {X} (l : list (list X)) : Z := foldr (fun c acc => len c + acc) 0 l.

(** The sum of the dimensions of the features under their selections. *)
Definition sum_dimension (fl : list F) (sl : list Z) : Z :=
  foldr Z.add 0 (zip_with vpBasicFeature.getDimension fl sl).

(** The members the switch of computeControlLaw does not write. *)
Definition kept_by_select (t : vpServo R F) :=
  (servoType t, cVe t, cVf t, init_cVf t, fVe t, eJe t, fJe t, dim_task t,
   featureList t, desiredFeatureList t, featureSelectionList t,
   signInteractionMatrix t, interactionMatrixType t, inversionType t,
   interactionMatrixComputed t, errorComputed t, taskWasKilled t, L t,
   error t, s t, sStar t, J1 t, J1p t, rankJ1 t, e1 t, e t, WpW t, I_WpW t,
   lambda t).

(** The members computeInteractionMatrix does not write. *)
Definition kept_by_interaction (t : vpServo R F) :=
  (servoType t, cVe t, init_cVe t, cVf t, init_cVf t, fVe t, init_fVe t,
   eJe t, init_eJe t, fJe t, init_fJe t, featureList t, desiredFeatureList t,
   featureSelectionList t, signInteractionMatrix t, interactionMatrixType t,
   inversionType t, errorComputed t, taskWasKilled t, error t, s t, sStar t,
   J1 t, J1p t, rankJ1 t, e1 t, e t, WpW t, I_WpW t, lambda t).

(** The members computeError does not write. *)
Definition kept_by_error (t : vpServo R F) :=
  (servoType t, cVe t, init_cVe t, cVf t, init_cVf t, fVe t, init_fVe t,
   eJe t, init_eJe t, fJe t, init_fJe t, featureList t, desiredFeatureList t,
   featureSelectionList t, signInteractionMatrix t, interactionMatrixType t,
   inversionType t, interactionMatrixComputed t, taskWasKilled t, L t, J1 t,
   J1p t, rankJ1 t, e1 t, e t, WpW t, I_WpW t, lambda t).

(** The members the primary task of computeControlLaw does not write. *)
Definition kept_by_primary (t : vpServo R F) :=
  (servoType t, cVe t, init_cVe t, cVf t, init_cVf t, fVe t, init_fVe t,
   eJe t, init_eJe t, fJe t, init_fJe t, dim_task t, featureList t,
   desiredFeatureList t, featureSelectionList t, signInteractionMatrix t,
   interactionMatrixType t, inversionType t, interactionMatrixComputed t,
   errorComputed t, taskWasKilled t, L t, error t, s t, sStar t, I_WpW t,
   lambda t).

(** A matrix that L can hold between two calls: an array of rows of 6
    doubles, or no row at all. *)
Definition L_ok (m : vpMatrix R) : Prop :=
  wf_matrix m /\ Forall row6 (rowData m).

(** The task with other contents in the three vectors computeError
    assembles, and the task in another interaction matrix mode. *)
Definition with_buffers (bS bSS bE : vpColVector R) (t : vpServo R F) : vpServo R F :=
  t<|s := bS|><|sStar := bSS|><|error := bE|>.

Definition with_mode (ty : interactionMatrixEnum) (t : vpServo R F) : vpServo R F :=
  t<|interactionMatrixType := ty|>.

(** The elementwise average of two matrices. *)
Definition average (a b : vpMatrix R) : vpMatrix R :=
  mkMatrix (colNum a)
    (zip_with (zip_with (fun x y => rdiv (radd x y) R2)) (rowData a) (rowData b)).
End Notions.

(** ** Sequences of calls

    What a program does with a task between its construction and its
    destruction: the methods of the file, in any order, with any arguments.
    The setters are those modelled above. *)
Inductive method (R F : Type) : Type :=
| call_init
| call_kill
| call_setServo (_servoType : servoEnum)
| call_set_cVe (m : vpMatrix R)
| call_set_cVf (m : vpMatrix R)
| call_set_fVe (m : vpMatrix R)
| call_set_eJe (m : vpMatrix R)
| call_set_fJe (m : vpMatrix R)
| call_addFeature (s_cur s_star : F) (select : Z)
| call_addFeature1 (s_cur : F) (select : Z)
| call_getDimension
| call_setInteractionMatrixType (ty : interactionMatrixEnum) (inv : inversionEnum)
| call_computeInteractionMatrix
| call_computeError
| call_computeControlLaw
| call_secondaryTask (de2dt : vpColVector R)
| call_secondaryTask2 (e2 de2dt : vpColVector R)
| call_print (displayLevel : printEnum).
Arguments call_init {R F}.
Arguments call_kill {R F}.
Arguments call_setServo {R F} _servoType.
Arguments call_set_cVe {R F} m.
Arguments call_set_cVf {R F} m.
Arguments call_set_fVe {R F} m.
Arguments call_set_eJe {R F} m.
Arguments call_set_fJe {R F} m.
Arguments call_addFeature {R F} s_cur s_star select.
Arguments call_addFeature1 {R F} s_cur select.
Arguments call_getDimension {R F}.
Arguments call_setInteractionMatrixType {R F} ty inv.
Arguments call_computeInteractionMatrix {R F}.
Arguments call_computeError {R F}.
Arguments call_computeControlLaw {R F}.
Arguments call_secondaryTask {R F} de2dt.
Arguments call_secondaryTask2 {R F} e2 de2dt.
Arguments call_print {R F} displayLevel.

(** The outcome of a call whose value the caller drops. *)
Definition void {A} (o : outcome A) : outcome unit :=
  match o with
  | Ret _ => Ret tt
  | Throw ex => Throw ex
  | Undefined => Undefined
  end.

(** A run of [m] from a state in [I] returns or throws an exception in [E],
    and leaves a state in [I] either way: it has a defined outcome. *)
Definition safe {S A} (E : vpException -> Prop) (I : S -> Prop) (m : M S A) : Prop :=
  forall st, I st ->
    match fst (m st) with
    | Ret _ => True
    | Throw ex => E ex
    | Undefined => False
    end /\ I (snd (m st)).

(** The exceptions of the assembly and of the matrix library. *)
Definition assembly_error (ex : vpException) : Prop :=
  ex = noFeatureError \/ ex = matrixError.

(** The exceptions of a cycle of computeControlLaw. *)
Definition cycle_error (ex : vpException) : Prop :=
  ex = servoError \/ ex = noFeatureError \/ ex = matrixError.

(** [m] reads nothing of what [g] changes and writes nothing of it: run
    after [g], it does what it does without [g], and [g] is still there. *)
Definition blind_to {S A} (g : S -> S) (m : M S A) : Prop :=
  forall st, m (g st) = (fst (m st), g (snd (m st))).

Section Protocol.
Context {R : Type} {LA : LinearAlgebra R}.
Context {F : Type} {BF : vpBasicFeature.ops R F}.

Local Abbreviation servo := (vpServo R F).

(** A method of the task as a call that drops the value. *)
Definition dropped {A} (m : M servo A) (t : servo) : outcome unit * servo :=
  (void (fst (m t)), snd (m t)).

(** One call on the process: the static counter of computeControlLaw and
    the task.  The caller catches what the call throws and goes on with the
    task as the call left it. *)
Definition exec (c : method R F) (st : Z * servo) : outcome unit * (Z * servo) :=
  let '(iteration, t) := st in
  let on_task (r : outcome unit * servo) := (fst r, (iteration, snd r)) in
  match c with
  | call_init => on_task (dropped init t)
  | call_kill => on_task (dropped kill t)
  | call_setServo ty => on_task (dropped (setServo ty) t)
  | call_set_cVe m => on_task (dropped (set_cVe m) t)
  | call_set_cVf m => on_task (dropped (set_cVf m) t)
  | call_set_fVe m => on_task (dropped (set_fVe m) t)
  | call_set_eJe m => on_task (dropped (set_eJe m) t)
  | call_set_fJe m => on_task (dropped (set_fJe m) t)
  | call_addFeature s_cur s_star select =>
      on_task (dropped (addFeature s_cur s_star select) t)
  | call_addFeature1 s_cur select => on_task (dropped (addFeature1 s_cur select) t)
  | call_getDimension => on_task (dropped getDimension t)
  | call_setInteractionMatrixType ty inv =>
      on_task (dropped (setInteractionMatrixType ty inv) t)
  | call_computeInteractionMatrix => on_task (dropped computeInteractionMatrix t)
  | call_computeError => on_task (dropped computeError t)
  | call_computeControlLaw =>
      let r := computeControlLaw iteration t in
      (void (fst (fst r)), (snd (fst r), snd r))
  | call_secondaryTask de2dt => on_task (dropped (secondaryTask de2dt) t)
  | call_secondaryTask2 e2 de2dt => on_task (dropped (secondaryTask2 e2 de2dt) t)
  | call_print displayLevel => (void (print displayLevel t), (iteration, t))
  end.

(** A sequence of calls: the outcomes in order and the state at the end. *)
Fixpoint run (calls : list (method R F)) (st : Z * servo)
  : list (outcome unit) * (Z * servo) :=
  match calls with
  | [] => ([], st)
  | c :: calls' =>
      let r := exec c st in
      let rs := run calls' (snd r) in
      (fst r :: fst rs, snd rs)
  end.

(** The desired feature addFeature(s, select) makes: a duplicate of s,
    initialised and marked as the task's to delete (lines 358-362). *)
Definition synthesized (s_cur : F) : F :=
  vpBasicFeature.setDeallocate dealloc_vpServo
    (vpBasicFeature.init (vpBasicFeature.duplicate s_cur)).

(** The features vpServo::print prints, with the selections it prints them
    under, in order. *)
Definition printed_features (out : list (output R F)) : list (F * Z) :=
  flat_map (fun o => match o with
                     | PrintFeature f select => [(f, select)]
                     | _ => []
                     end) out.

(** The interface of vpBasicFeature::interaction for one feature: rows of 6
    doubles under every selection. *)
Definition feature_ok (f : F) : Prop :=
  forall select, Forall row6 (rowData (vpBasicFeature.interaction f select)).

(** The features a call registers keep that interface, the desired feature
    that addFeature(s, select) makes included. *)
Definition method_ok (c : method R F) : Prop :=
  match c with
  | call_addFeature s_cur s_star _ => feature_ok s_cur /\ feature_ok s_star
  | call_addFeature1 s_cur _ => feature_ok s_cur /\ feature_ok (synthesized s_cur)
  | _ => True
  end.

(** What the calls keep of a task: the lists aligned, L an array of rows of
    6 doubles, the registered features within their interface. *)
Definition task_inv (t : servo) : Prop :=
  aligned t /\ L_ok (L t) /\
  Forall feature_ok (featureList t) /\ Forall feature_ok (desiredFeatureList t).

(** A task with the invariant and at least one feature. *)
Definition loaded (t : servo) : Prop := task_inv t /\ featureList t <> [].

(** The sign setServo gives the interaction matrix of a configuration. *)
Definition sign_of (st : servoEnum) : Z :=
  match st with
  | EYEINHAND_CAMERA | EYEINHAND_L_cVe_eJe => 1
  | _ => -1
  end.

(** No exception. *)
Definition no_error (ex : vpException) : Prop := False.

(** What only init(), kill(), setServo() and addFeature() write: the three
    lists, the flag of kill(), the configuration and its sign. *)
Definition steady (t : servo) :=
  (registry t, taskWasKilled t, servoType t, signInteractionMatrix t).

(** The sign agrees with the configuration, when there is one. *)
Definition sign_inv (t : servo) : Prop :=
  servoType t = NONE \/ signInteractionMatrix t = sign_of (servoType t).

(** Lines 808-865 of vpServo::computeControlLaw: what the cycle does after
    the switch. *)
Definition cycle_rest (cVa aJe : vpMatrix R) : M servo unit :=
  computeInteractionMatrix;; computeError;; primary_task cVa aJe.

(** Whether kill() is the last of the calls init() and kill() in a sequence,
    [b] standing for what came before. *)
Fixpoint killed_last (calls : list (method R F)) (b : bool) : bool :=
  match calls with
  | [] => b
  | call_init :: calls' => killed_last calls' false
  | call_kill :: calls' => killed_last calls' true
  | _ :: calls' => killed_last calls' b
  end.

(** The task with other values of the five freshness flags. *)
Definition with_flags (b_cVe b_cVf b_fVe b_eJe b_fJe : bool) (t : servo) : servo :=
  t<|init_cVe := b_cVe|><|init_cVf := b_cVf|><|init_fVe := b_fVe|>
   <|init_eJe := b_eJe|><|init_fJe := b_fJe|>.

(** What kill() prints and deletes for a desired feature. *)
Definition released (d_ptr : F) : list (event F) :=
  match vpBasicFeature.getDeallocate d_ptr with
  | dealloc_vpServo => [Print d_ptr; Delete d_ptr]
  | dealloc_user => []
  end.





End Protocol.

(** ** A concrete library and a concrete feature, for examples

    Doubles are rationals in lowest terms.  The pseudo-inverse is the one of
    a singular value decomposition cut at the tolerance, on the matrices the
    examples use: at most one entry that is not 0 in a row and in a column.
    The singular values of such a matrix are the absolute values of its
    entries; the pseudo-inverse inverts the entries it keeps at the transposed
    place, the rank is their number, and the columns of imJt are the unit
    vectors of their columns.  On any other matrix it reports an error. *)
Module Rat.
Definition qadd (a b : Q) : Q := Qred (a + b)%Q.
Definition qsub (a b : Q) : Q := Qred (a - b)%Q.
Definition qmul (a b : Q) : Q := Qred (a * b)%Q.
Definition qdiv (a b : Q) : Q := Qred (a / b)%Q.
Definition qopp (a : Q) : Q := Qred (- a)%Q.
Definition qeqb (a b : Q) : bool := Qeq_bool a b.
Definition q0 : Q := 0%Q.
Definition q1 : Q := 1%Q.

Definition dot (u v : list Q) : Q := foldr qadd q0 (zip_with qmul u v).

(** The columns of an array of [c] columns, as rows. *)
Definition columns (c : Z) (rows : list (list Q)) : list (list Q) :=
  map (fun j => map (fun r => nth j r q0) rows) (seq 0 (Z.to_nat c)).

Definition transposeQ (a : vpMatrix Q) : vpMatrix Q :=
  mkMatrix (getRows a) (columns (colNum a) (rowData a)).

Definition mmulQ (a b : vpMatrix Q) : option (vpMatrix Q) :=
  if getCols a =? getRows b
  then Some (mkMatrix (colNum b)
              (map (fun r => map (dot r) (columns (colNum b) (rowData b))) (rowData a)))
  else None.

Definition mvmulQ (a : vpMatrix Q) (v : vpColVector Q) : option (vpColVector Q) :=
  if getCols a =? len v
  then Some (map (fun r => dot r v) (rowData a))
  else None.

Definition smmulQ (x : Q) (a : vpMatrix Q) : vpMatrix Q :=
  mkMatrix (colNum a) (map (map (qmul x)) (rowData a)).

Definition mscaleQ (a : vpMatrix Q) (n : Z) : vpMatrix Q := smmulQ (inject_Z n) a.

Definition svmulQ (x : Q) (v : vpColVector Q) : vpColVector Q := map (qmul x) v.

Definition msubQ (a b : vpMatrix Q) : option (vpMatrix Q) :=
  if (getRows a =? getRows b) && (getCols a =? getCols b)
  then Some (mkMatrix (colNum a) (zip_with (zip_with qsub) (rowData a) (rowData b)))
  else None.

Definition vaddQ (u v : vpColVector Q) : option (vpColVector Q) :=
  if len u =? len v then Some (zip_with qadd u v) else None.

Definition identityQ (n : Z) : vpMatrix Q :=
  mkMatrix n
    (map (fun i => map (fun j => if Nat.eqb i j then q1 else q0) (seq 0 (Z.to_nat n)))
         (seq 0 (Z.to_nat n))).

Definition twist_mulQ (a b : vpMatrix Q) : vpMatrix Q :=
  match mmulQ a b with
  | Some c => c
  | None => identityQ 6
  end.

Definition qabs (x : Q) : Q := Qred (Qabs x).
Definition is_zero (x : Q) : bool := qeqb x q0.
Definition count_nonzero (r : list Q) : nat := length (filter (fun x => negb (is_zero x)) r).

(** At most one entry that is not 0 in a row. *)
Definition sparse_rows (rows : list (list Q)) : bool :=
  forallb (fun r => Nat.leb (count_nonzero r) 1) rows.

Definition exact_class (a : vpMatrix Q) : bool :=
  forallb (fun r => len r =? colNum a) (rowData a)
  && sparse_rows (rowData a)
  && sparse_rows (columns (colNum a) (rowData a)).

Definition unit_vector (n : nat) (i : nat) : list Q :=
  map (fun j => if Nat.eqb i j then q1 else q0) (seq 0 n).

(** The tolerance 1e-6 of the call, and the singular values it keeps:
    those above the tolerance times the largest one. *)
Definition svThreshold : Q := (1 # 1000000)%Q.
Definition maxsv (a : vpMatrix Q) : Q :=
  foldr (fun x m => if Qle_bool m x then x else m) q0
        (map qabs (concat (rowData a))).
Definition kept (a : vpMatrix Q) (x : Q) : bool :=
  negb (Qle_bool (qabs x) (qmul (maxsv a) svThreshold)).

Definition pseudoInverseQ (a : vpMatrix Q)
  : option (Z * vpMatrix Q * vpMatrix Q * vpMatrix Q) :=
  if exact_class a then
    let used := filter (fun ir => existsb (kept a) (snd ir))
                       (zip (seq 0 (length (rowData a))) (rowData a)) in
    let Jp := transposeQ (mkMatrix (colNum a)
                 (map (map (fun x => if kept a x then qdiv q1 x else q0)) (rowData a))) in
    let imJ := transposeQ (mkMatrix (getRows a)
                 (map (fun ir => unit_vector (length (rowData a)) (fst ir)) used)) in
    let imJt := transposeQ (mkMatrix (colNum a)
                 (map (fun ir => map (fun x => if kept a x then q1 else q0) (snd ir)) used)) in
    Some (len used, Jp, imJ, imJt)
  else None.

Global Instance algebra : LinearAlgebra Q := {|
  R0 := q0;
  R2 := 2%Q;
  radd := qadd;
  rdiv := qdiv;
  ropp := qopp;
  junk := (-7 # 1)%Q;
  mmul := mmulQ;
  twist_mul := twist_mulQ;
  mscale := mscaleQ;
  transpose := transposeQ;
  pseudoInverse := pseudoInverseQ;
  mvmul := mvmulQ;
  svmul := svmulQ;
  smmul := smmulQ;
  msub := msubQ;
  vadd := vaddQ;
  identity := identityQ
|}.

(** A feature that holds its value, its interaction matrix (rows of 6) and
    its deallocation flag; bit i of [select] selects component i. *)
Record feature : Type := mkFeature {
  value : list Q;
  matrix : list (list Q);
  deallocate : vpBasicFeatureDeallocatorType
}.

Definition selected {A} (select : Z) (l : list A) : list A :=
  map snd (filter (fun ix => Z.testbit select (Z.of_nat (fst ix)))
                  (zip (seq 0 (length l)) l)).

Global Instance feature_ops : vpBasicFeature.ops Q feature := {|
  vpBasicFeature.getDimension f select := len (selected select (value f));
  vpBasicFeature.interaction f select := mkMatrix 6 (selected select (matrix f));
  vpBasicFeature.get_s f := value f;
  vpBasicFeature.error f f_star select :=
    selected select (zip_with qsub (value f) (value f_star));
  vpBasicFeature.getDeallocate f := deallocate f;
  vpBasicFeature.setDeallocate d f := mkFeature (value f) (matrix f) d;
  vpBasicFeature.duplicate f := f;
  vpBasicFeature.init f :=
    mkFeature (map (fun _ => q0) (value f)) (matrix f) (deallocate f)
|}.

(** The members before any call: empty lists and matrices, identity twist
    matrices (the default vpTwistMatrix), every flag false, the settings of
    init(), gain 1. *)
Definition empty_matrix : vpMatrix Q := mkMatrix 0 [].

Definition blank : vpServo Q feature := {|
  servoType := NONE;
  cVe := identityQ 6; init_cVe := false;
  cVf := identityQ 6; init_cVf := false;
  fVe := identityQ 6; init_fVe := false;
  eJe := empty_matrix; init_eJe := false;
  fJe := empty_matrix; init_fJe := false;
  dim_task := 0;
  featureList := [];
  desiredFeatureList := [];
  featureSelectionList := [];
  signInteractionMatrix := 1;
  interactionMatrixType := DESIRED;
  inversionType := PSEUDO_INVERSE;
  interactionMatrixComputed := false;
  errorComputed := false;
  taskWasKilled := false;
  L := empty_matrix;
  error := [];
  s := [];
  sStar := [];
  J1 := empty_matrix;
  J1p := empty_matrix;
  rankJ1 := 0;
  e1 := [];
  e := [];
  WpW := empty_matrix;
  I_WpW := empty_matrix;
  lambda := fun _ => q1
|}.

(** The state a sequence of calls that return leaves. *)
Definition after {A} (m : M (vpServo Q feature) A) (t : vpServo Q feature)
  : vpServo Q feature := snd (m t).

(** A feature x of value 1 with the first unit row as interaction matrix,
    and its desired value 0. *)
Definition fx : feature := mkFeature [1%Q] [[1; 0; 0; 0; 0; 0]%Q] dealloc_user.
Definition fx_star : feature := mkFeature [0%Q] [[1; 0; 0; 0; 0; 0]%Q] dealloc_user.
(** A feature of two components on the second and third axes. *)
Definition fyz : feature :=
  mkFeature [2; 4]%Q [[0; 1; 0; 0; 0; 0]; [0; 0; 1; 0; 0; 0]]%Q dealloc_user.
Definition fyz_star : feature :=
  mkFeature [1; 1]%Q [[0; 1; 0; 0; 0; 0]; [0; 0; -1; 0; 0; 0]]%Q dealloc_user.

(** Eye-in-hand camera task on x. *)
Definition task_x : vpServo Q feature :=
  after (setServo EYEINHAND_CAMERA;; addFeature fx fx_star 1) blank.

(** Eye-in-hand camera task on x, then on the two components of yz. *)
Definition task_xyz : vpServo Q feature :=
  after (addFeature fyz fyz_star 3) task_x.

(** Eye-in-hand camera task on x with a desired feature made by the task. *)
Definition task_owned : vpServo Q feature :=
  after (setServo EYEINHAND_CAMERA;; addFeature1 fx 1) blank.

(** The state a cycle of computeControlLaw leaves, for a value of the static
    counter. *)
Definition after_cycle (iteration : Z) (t : vpServo Q feature) : vpServo Q feature :=
  snd (computeControlLaw iteration t).

(** task_x after a first cycle and kill(). *)
Definition task_killed : vpServo Q feature :=
  after kill (after_cycle 0 task_x).

(** A feature of two components whose second row is below the tolerance of
    the pseudo-inverse, and its desired value. *)
Definition tiny : Q := (1 # 10000000)%Q.
Definition fw : feature :=
  mkFeature [1; 1]%Q [[1; 0; 0; 0; 0; 0]; [0; tiny; 0; 0; 0; 0]]%Q dealloc_user.
Definition fw_star : feature :=
  mkFeature [0; 0]%Q [[1; 0; 0; 0; 0; 0]; [0; tiny; 0; 0; 0; 0]]%Q dealloc_user.

(** Eye-in-hand camera task on fw: a first cycle with the default
    pseudo-inverse, then setInteractionMatrixType(DESIRED, TRANSPOSE). *)
Definition task_w : vpServo Q feature :=
  after (setServo EYEINHAND_CAMERA;; addFeature fw fw_star 3) blank.
Definition task_w_transpose : vpServo Q feature :=
  after (setInteractionMatrixType DESIRED TRANSPOSE) (after_cycle 0 task_w).

(** Eye-to-hand task on x with cVf and fJe supplied. *)
Definition task_cVf : vpServo Q feature :=
  after (setServo EYETOHAND_L_cVf_fJe;; set_cVf (identityQ 6);;
         set_fJe (identityQ 6);; addFeature fx fx_star 1) blank.

(** Eye-to-hand task on x with eJe supplied and cVe never supplied. *)
Definition task_no_cVe : vpServo Q feature :=
  after (setServo EYETOHAND_L_cVe_eJe;; set_eJe (identityQ 6);;
         addFeature fx fx_star 1) blank.

(** Eye-to-hand task with no feature and no input. *)
Definition task_empty : vpServo Q feature :=
  after (setServo EYETOHAND_L_cVe_eJe) blank.

(** A program on a task: a configuration, two features (the desired
    feature of the second made by the task), a cycle, the secondary task,
    a print, kill(), a feature registered after it, a cycle, init() and
    computeError(). *)
Definition script : list (method Q feature) :=
  [call_setServo EYEINHAND_CAMERA;
   call_addFeature fx fx_star 1;
   call_addFeature1 fyz 3;
   call_computeControlLaw;
   call_secondaryTask [1; 2; 3; 4; 5; 6]%Q;
   call_print ALL;
   call_kill;
   call_addFeature fx fx_star 1;
   call_computeControlLaw;
   call_init;
   call_computeError].

(** The Jacobian of a robot of 4 joints: 6 rows, 4 columns. *)
Definition eJe_4 : vpMatrix Q :=
  mkMatrix 4 [[1; 0; 0; 0]; [0; 1; 0; 0]; [0; 0; 1; 0]; [0; 0; 0; 1];
              [0; 0; 0; 0]; [0; 0; 0; 0]]%Q.

(** Eye-in-hand task on x for that robot. *)
Definition task_4 : vpServo Q feature :=
  after (setServo EYEINHAND_L_cVe_eJe;; set_cVe (identityQ 6);; set_eJe eJe_4;;
         addFeature fx fx_star 1) blank.

(** Eye-in-hand camera task on x registered under the selection 0. *)
Definition task_unselected : vpServo Q feature :=
  after (setServo EYEINHAND_CAMERA;; addFeature fx fx_star 0) blank.

(** Eye-to-hand task with its inputs supplied and no feature. *)
Definition task_supplied : vpServo Q feature :=
  after (setServo EYETOHAND_L_cVe_eJe;; set_cVe (identityQ 6);;
         set_eJe (identityQ 6)) blank.

(** task_xyz set up again: init(), the configuration, and the feature yz
    alone, registered under the selection 3. *)
Definition task_reset : vpServo Q feature :=
  after (init;; setServo EYEINHAND_CAMERA;; addFeature fyz fyz_star 3) task_xyz.

(** task_xyz after kill(), then the feature yz registered under the
    selection 3. *)
Definition task_rekilled : vpServo Q feature :=
  after (kill;; addFeature fyz fyz_star 3) task_xyz.
End Rat.

(* ===================================================================== *)
(** * Part II: facts                                                      *)
(* ===================================================================== *)

(** ** Lists resized *)

Section ResizeFacts.
Context {A : Type} (fill : A).

Lemma len_nonneg (l : list A) : 0 <= len l.
Proof. unfold len. lia. Qed.

Lemma resize_list_len n (l : list A) : 0 <= n -> len (resize_list fill n l) = n.
Proof.
  intros Hn. unfold len, resize_list.
  rewrite length_app, length_take, length_replicate. lia.
Qed.

Lemma resize_list_shrink n (l : list A) :
  0 <= n <= len l -> resize_list fill n l = take (Z.to_nat n) l.
Proof.
  unfold len, resize_list. intros Hn.
  replace (Z.to_nat n - length l)%nat with 0%nat by lia.
  simpl. apply app_nil_r.
Qed.

Lemma resize_list_extend n (l : list A) :
  len l <= n -> resize_list fill n l = l ++ replicate (Z.to_nat n - length l) fill.
Proof.
  unfold len, resize_list. intros Hn.
  rewrite take_ge by lia. reflexivity.
Qed.

Lemma resize_list_id n (l : list A) : len l = n -> resize_list fill n l = l.
Proof.
  intros Hn. rewrite resize_list_extend by lia. unfold len in Hn.
  replace (Z.to_nat n - length l)%nat with 0%nat by lia.
  apply app_nil_r.
Qed.

Lemma resize_list_Forall (P : A -> Prop) n (l : list A) :
  P fill -> Forall P l -> Forall P (resize_list fill n l).
Proof.
  intros Hf Hl. unfold resize_list. apply Forall_app. split.
  - by apply Forall_take.
  - by apply Forall_replicate.
Qed.

(** Growing keeps what the buffer held. *)
Lemma resize_list_prefix n (l : list A) c :
  len l <= n -> (c <= length l)%nat ->
  take c (resize_list fill n l) = take c l.
Proof.
  intros Hn Hc. rewrite resize_list_extend by done.
  by apply take_app_le.
Qed.
End ResizeFacts.

(** ** The stacked assembly loop *)

Section StackedFacts.
Context {T A B : Type}.
Variable cells : T -> list A.
Variable with_cells : list A -> T -> T.
Variable resizeTo : Z -> T -> T.
Variable put : B -> A -> outcome A.
(** What resize adds, the shape of a cell of the buffer, the contributions
    that fit that shape, and the cell a contribution leaves. *)
Variable fill : A.
Variable okd : A -> Prop.
Variable good : B -> Prop.
Variable conv : B -> A.
Hypothesis cells_with_cells : forall l b, cells (with_cells l b) = l.
Hypothesis cells_resizeTo : forall n b,
  Forall okd (cells b) -> cells (resizeTo n b) = resize_list fill n (cells b).
Hypothesis okd_fill : okd fill.
Hypothesis put_good : forall x d, good x -> okd d -> put x d = Ret (conv x).
Hypothesis okd_conv : forall x, good x -> okd (conv x).

(** The while loop ends, with a buffer large enough that still holds what
    it held. *)
Lemma grow_spec fuel need dim buf :
  1 <= dim -> len (cells buf) = dim -> Forall okd (cells buf) ->
  (Z.to_nat (need - dim) <= fuel)%nat ->
  exists dim' buf',
    grow resizeTo fuel need dim buf = Ret (dim', buf') /\
    dim <= dim' /\ need <= dim' /\ len (cells buf') = dim' /\
    Forall okd (cells buf') /\
    take (length (cells buf)) (cells buf') = cells buf.
Proof.
  revert dim buf. induction fuel as [|fuel IH]; intros dim buf Hdim Hlen Hok Hfuel.
  - simpl. destruct (need >? dim) eqn:Hcmp; [lia|].
    exists dim, buf. repeat split; try done; try lia.
    by apply take_ge.
  - simpl. destruct (need >? dim) eqn:Hcmp.
    + assert (Hcells := cells_resizeTo (dim * 2) buf Hok).
      destruct (IH (dim * 2) (resizeTo (dim * 2) buf)) as (dim' & buf' & Hg & H1 & H2 & H3 & H4 & H5).
      * lia.
      * rewrite Hcells. apply resize_list_len. lia.
      * rewrite Hcells. by apply resize_list_Forall.
      * lia.
      * exists dim', buf'. repeat split; try done; try lia.
        assert (Hle : (length (cells buf) <= length (cells (resizeTo (dim * 2) buf)))%nat).
        { rewrite Hcells. pose proof (resize_list_len fill (dim * 2) (cells buf)) as Hl.
          unfold len in *. lia. }
        replace (take (length (cells buf)) (cells buf'))
          with (take (length (cells buf))
                  (take (length (cells (resizeTo (dim * 2) buf))) (cells buf')))
          by (rewrite take_take; f_equal; lia).
        rewrite H5, Hcells.
        rewrite resize_list_prefix; [by apply take_ge | lia | done].
    + exists dim, buf. repeat split; try done; try lia.
      by apply take_ge.
Qed.

(** The for loop writes the contribution at the cursor and nothing else. *)
Lemma copy_spec tmp cursor buf :
  Forall good tmp -> Forall okd (cells buf) ->
  0 <= cursor -> cursor + len tmp <= len (cells buf) ->
  exists buf',
    copy cells with_cells put tmp cursor buf = Ret (cursor + len tmp, buf') /\
    cells buf' =
      take (Z.to_nat cursor) (cells buf) ++ map conv tmp
        ++ drop (Z.to_nat (cursor + len tmp)) (cells buf).
Proof.
  revert cursor buf. induction tmp as [|x tmp IH]; intros cursor buf Hgood Hok Hc Hfit.
  - simpl. exists buf. unfold len. simpl. rewrite Z.add_0_r. split; [done|].
    by rewrite take_drop.
  - inversion Hgood as [|? ? Hx Htmp]; subst.
    unfold len in Hfit. simpl length in Hfit.
    simpl. unfold cell_at.
    destruct (0 <=? cursor) eqn:H0; [|lia].
    destruct (lookup_lt_is_Some_2 (cells buf) (Z.to_nat cursor)) as [d Hd]; [lia|].
    rewrite Hd. rewrite (put_good x d Hx) by (eapply Forall_lookup_1; eauto).
    simpl.
    set (buf1 := with_cells (<[Z.to_nat cursor:=conv x]> (cells buf)) buf).
    assert (Hcells1 : cells buf1 = <[Z.to_nat cursor:=conv x]> (cells buf))
      by apply cells_with_cells.
    destruct (IH (cursor + 1) buf1) as (buf' & Hcopy & Hres).
    + done.
    + rewrite Hcells1. apply Forall_insert; [done | by apply okd_conv].
    + lia.
    + rewrite Hcells1. unfold len. rewrite length_insert. lia.
    + exists buf'. split.
      * rewrite Hcopy. unfold len. simpl length.
        replace (cursor + 1 + Z.of_nat (length tmp))
          with (cursor + Z.of_nat (S (length tmp))) by lia.
        done.
      * rewrite Hres, Hcells1.
        replace (Z.to_nat (cursor + 1)) with (S (Z.to_nat cursor)) by lia.
        rewrite (take_S_r _ _ (conv x)) by (apply list_lookup_insert_eq; lia).
        rewrite take_insert_ge by lia.
        rewrite drop_insert_lt by (unfold len; lia).
        rewrite <- app_assoc. simpl.
        replace (cursor + len (x :: tmp)) with (cursor + 1 + len tmp)
          by (unfold len; simpl length; lia).
        done.
Qed.

(** One contribution: the loop returns, its invariant holds again, and the
    buffer up to the cursor is what it was followed by the contribution. *)
Lemma stack_spec tmp dim cursor buf :
  stack_inv cells okd (dim, cursor, buf) -> Forall good tmp ->
  exists dim' buf',
    stack cells with_cells resizeTo put tmp (dim, cursor, buf)
      = Ret (dim', cursor + len tmp, buf') /\
    stack_inv cells okd (dim', cursor + len tmp, buf') /\
    take (Z.to_nat (cursor + len tmp)) (cells buf')
      = take (Z.to_nat cursor) (cells buf) ++ map conv tmp.
Proof.
  intros (Hdim & Hlen & Hcur & Hok) Hgood.
  pose proof (len_nonneg tmp) as Htmp.
  destruct (grow_spec (Z.to_nat (len tmp + cursor)) (len tmp + cursor) dim buf)
    as (dim' & buf1 & Hg & H1 & H2 & H3 & H4 & H5); try done; [lia|].
  destruct (copy_spec tmp cursor buf1) as (buf2 & Hc & Hres); try done; try lia.
  exists dim', buf2. unfold stack. rewrite Hg. simpl. rewrite Hc. simpl.
  assert (Hpre : take (Z.to_nat cursor) (cells buf1) = take (Z.to_nat cursor) (cells buf)).
  { transitivity (take (Z.to_nat cursor) (take (length (cells buf)) (cells buf1))).
    - rewrite take_take. f_equal. unfold len in *. lia.
    - by rewrite H5. }
  assert (Hl2 : length (cells buf2) = length (cells buf1)).
  { rewrite Hres. rewrite !length_app, length_take, length_map, length_drop.
    unfold len in *. lia. }
  split; [done|]. split.
  - repeat split; try lia.
    + unfold len in *. lia.
    + rewrite Hres. repeat apply Forall_app_2.
      * by apply Forall_take.
      * apply Forall_map. eapply Forall_impl; [exact Hgood|]. intros; by apply okd_conv.
      * by apply Forall_drop.
  - rewrite Hres, app_assoc, take_app_length'; [by rewrite Hpre|].
    rewrite length_app, length_take, length_map. unfold len in *. lia.
Qed.
End StackedFacts.

(** ** The assembly of s, sStar, error and L *)

Section AssemblyFacts.
Context {R : Type} {LA : LinearAlgebra R}.
Context {F : Type} {BF : vpBasicFeature.ops R F}.

Local Abbreviation servo := (vpServo R F).
Local Abbreviation vec_inv := (stack_inv (fun v : vpColVector R => v) (fun _ => True)).
Local Abbreviation mat_inv := (stack_inv (@rowData R) row6).

Lemma sum_len_concat {X} (l : list (list X)) : len (concat l) = sum_len l.
Proof.
  induction l as [|c l IH]; [done|].
  simpl. unfold len in *. rewrite length_app. lia.
Qed.

(** The inner loop on a row overwrites the cells from column j on. *)
Lemma copy_cells_spec (src : list R) : forall j dst,
  (j + length src <= length dst)%nat ->
  copy_cells j src dst = Ret (take j dst ++ src ++ drop (j + length src) dst).
Proof.
  induction src as [|x src IH]; intros j dst Hfit; simpl in *.
  - by rewrite Nat.add_0_r, take_drop.
  - destruct (decide (j < length dst)%nat) as [Hj|]; [|lia].
    rewrite IH by (rewrite length_insert; lia).
    rewrite (take_S_r _ _ x) by (by apply list_lookup_insert_eq).
    rewrite take_insert_ge by lia.
    rewrite drop_insert_lt by lia.
    rewrite <- app_assoc. simpl.
    by replace (S (j + length src)) with (j + S (length src))%nat by lia.
Qed.

Lemma copy_cells_row (r d : list R) : row6 r -> row6 d -> copy_cells 0 r d = Ret r.
Proof.
  unfold row6, len. intros Hr Hd.
  rewrite copy_cells_spec by lia.
  rewrite drop_ge by lia. simpl. by rewrite app_nil_r.
Qed.

Lemma resize_row6 (rows : list (list R)) n :
  Forall row6 rows ->
  rowData (resize n colL false (mkMatrix 6 rows))
    = resize_list (replicate 6 junk) n rows.
Proof.
  intros Hrows. unfold resize. simpl. f_equal.
  induction Hrows as [|r rows Hr _ IH]; [done|].
  simpl. rewrite IH. f_equal. apply resize_list_id. exact Hr.
Qed.

Lemma rowData_resize (m : vpMatrix R) n :
  Forall row6 (rowData m) ->
  rowData (resize n colL false m) = resize_list (replicate 6 junk) n (rowData m).
Proof. intros H. rewrite <- (resize_row6 _ _ H). by destruct m. Qed.

(** One contribution to a vector. *)
Lemma stack_vec_spec (tmp : vpColVector R) dim cursor buf :
  vec_inv (dim, cursor, buf) ->
  exists dim' buf',
    stack_vec tmp (dim, cursor, buf) = Ret (dim', cursor + len tmp, buf') /\
    vec_inv (dim', cursor + len tmp, buf') /\
    take (Z.to_nat (cursor + len tmp)) buf' = take (Z.to_nat cursor) buf ++ tmp.
Proof.
  intros Hinv. unfold stack_vec.
  destruct (stack_spec (fun v : vpColVector R => v) (fun cells _ => cells)
              (fun n v => resizeV n false v) (fun x _ => Ret x)
              junk (fun _ => True) (fun _ => True) (fun x => x))
    with (tmp := tmp) (dim := dim) (cursor := cursor) (buf := buf)
    as (dim' & buf' & Hs & Hi & Ht); try done.
  - by apply Forall_true.
  - exists dim', buf'. split; [exact Hs|]. split; [exact Hi|].
    by rewrite Ht, map_id.
Qed.

(** One contribution to L. *)
Lemma stack_rows_spec (matrixTmp : vpMatrix R) dim cursor buf :
  mat_inv (dim, cursor, buf) -> Forall row6 (rowData matrixTmp) ->
  exists dim' buf',
    stack_rows matrixTmp (dim, cursor, buf)
      = Ret (dim', cursor + getRows matrixTmp, buf') /\
    mat_inv (dim', cursor + getRows matrixTmp, buf') /\
    take (Z.to_nat (cursor + getRows matrixTmp)) (rowData buf')
      = take (Z.to_nat cursor) (rowData buf) ++ rowData matrixTmp.
Proof.
  intros Hinv Hrows. unfold stack_rows, getRows.
  destruct (stack_spec (@rowData R) (fun rows m => mkMatrix (colNum m) rows)
              (fun n m => resize n colL false m) (copy_cells 0)
              (replicate 6 junk) row6 row6 (fun x => x))
    with (tmp := rowData matrixTmp) (dim := dim) (cursor := cursor) (buf := buf)
    as (dim' & buf' & Hs & Hi & Ht); try done.
  - intros n b Hb. by apply rowData_resize.
  - intros x d Hx Hd. by apply copy_cells_row.
  - exists dim', buf'. split; [exact Hs|]. split; [exact Hi|].
    by rewrite Ht, map_id.
Qed.

Lemma first_assumption_inv (v : vpColVector R) :
  exists dim buf, first_assumption v = (dim, 0, buf) /\ vec_inv (dim, 0, buf).
Proof.
  unfold first_assumption. pose proof (len_nonneg v).
  destruct (0 =? len v) eqn:H0.
  - exists 1, (resizeV 1 true v). split; [done|]. simpl.
    repeat split; try lia. by apply Forall_true.
  - exists (len v), v. split; [done|]. simpl.
    repeat split; try lia. by apply Forall_true.
Qed.

(** The loop of computeError returns; each buffer holds, up to its cursor,
    what it held followed by the contributions in the order of the list. *)
Lemma error_loop_spec (fl : list F) : forall dl sl dS cS bS dSS cSS bSS dE cE bE,
  length fl = length dl -> (length fl <= length sl)%nat ->
  vec_inv (dS, cS, bS) -> vec_inv (dSS, cSS, bSS) -> vec_inv (dE, cE, bE) ->
  exists dS' bS' dSS' bSS' dE' bE',
    error_loop fl dl sl (dS, cS, bS) (dSS, cSS, bSS) (dE, cE, bE)
      = Ret ((dS', cS + len (stacked_s fl), bS'),
             (dSS', cSS + len (stacked_s dl), bSS'),
             (dE', cE + len (stacked_error fl dl sl), bE')) /\
    vec_inv (dS', cS + len (stacked_s fl), bS') /\
    vec_inv (dSS', cSS + len (stacked_s dl), bSS') /\
    vec_inv (dE', cE + len (stacked_error fl dl sl), bE') /\
    take (Z.to_nat (cS + len (stacked_s fl))) bS'
      = take (Z.to_nat cS) bS ++ stacked_s fl /\
    take (Z.to_nat (cSS + len (stacked_s dl))) bSS'
      = take (Z.to_nat cSS) bSS ++ stacked_s dl /\
    take (Z.to_nat (cE + len (stacked_error fl dl sl))) bE'
      = take (Z.to_nat cE) bE ++ stacked_error fl dl sl.
Proof.
  induction fl as [|f fl IH]; intros dl sl dS cS bS dSS cSS bSS dE cE bE Hdl Hsl HS HSS HE.
  - destruct dl; [|done]. simpl. unfold stacked_s, stacked_error, len. simpl.
    rewrite !Z.add_0_r, !app_nil_r.
    by exists dS, bS, dSS, bSS, dE, bE.
  - destruct dl as [|d dl]; [done|]. destruct sl as [|select sl]; [simpl in Hsl; lia|].
    simpl in Hdl, Hsl.
    destruct (stack_vec_spec (vpBasicFeature.get_s f) _ _ _ HS)
      as (dS1 & bS1 & E1 & I1 & T1).
    destruct (stack_vec_spec (vpBasicFeature.get_s d) _ _ _ HSS)
      as (dSS1 & bSS1 & E2 & I2 & T2).
    destruct (stack_vec_spec (vpBasicFeature.error f d select) _ _ _ HE)
      as (dE1 & bE1 & E3 & I3 & T3).
    destruct (IH dl sl _ _ _ _ _ _ _ _ _ ltac:(lia) ltac:(lia) I1 I2 I3)
      as (dS' & bS' & dSS' & bSS' & dE' & bE' & Hloop & J1' & J2' & J3' & U1 & U2 & U3).
    exists dS', bS', dSS', bSS', dE', bE'.
    assert (A1 : cS + len (stacked_s (f :: fl))
                 = cS + len (vpBasicFeature.get_s f) + len (stacked_s fl)).
    { unfold stacked_s, len. simpl. rewrite length_app. lia. }
    assert (A2 : cSS + len (stacked_s (d :: dl))
                 = cSS + len (vpBasicFeature.get_s d) + len (stacked_s dl)).
    { unfold stacked_s, len. simpl. rewrite length_app. lia. }
    assert (A3 : cE + len (stacked_error (f :: fl) (d :: dl) (select :: sl))
                 = cE + len (vpBasicFeature.error f d select)
                   + len (stacked_error fl dl sl)).
    { unfold stacked_error, len. simpl. rewrite length_app. lia. }
    rewrite A1, A2, A3.
    simpl error_loop. rewrite E1. simpl. rewrite E2. simpl. rewrite E3. simpl.
    refine (conj Hloop (conj J1' (conj J2' (conj J3' (conj _ (conj _ _)))))).
    + rewrite U1, T1. unfold stacked_s. simpl. by rewrite app_assoc.
    + rewrite U2, T2. unfold stacked_s. simpl. by rewrite app_assoc.
    + rewrite U3, T3. unfold stacked_error. simpl. by rewrite app_assoc.
Qed.

(** The loop of computeInteractionMatrixFromList, likewise. *)
Lemma interaction_loop_spec (fl : list F) : forall sl dim cursor buf,
  (length fl <= length sl)%nat -> interaction_rows6 fl sl ->
  mat_inv (dim, cursor, buf) ->
  exists dim' buf',
    interaction_loop fl sl (dim, cursor, buf)
      = Ret (dim', cursor + len (stacked_rows fl sl), buf') /\
    mat_inv (dim', cursor + len (stacked_rows fl sl), buf') /\
    take (Z.to_nat (cursor + len (stacked_rows fl sl))) (rowData buf')
      = take (Z.to_nat cursor) (rowData buf) ++ stacked_rows fl sl.
Proof.
  induction fl as [|f fl IH]; intros sl dim cursor buf Hsl Hrows Hinv.
  - simpl. unfold stacked_rows, len. simpl. rewrite Z.add_0_r, app_nil_r.
    by exists dim, buf.
  - destruct sl as [|select sl]; [simpl in Hsl; lia|].
    simpl in Hsl. unfold interaction_rows6 in Hrows. simpl in Hrows.
    inversion Hrows as [|? ? Hf Hrest]; subst.
    destruct (stack_rows_spec (vpBasicFeature.interaction f select) _ _ _ Hinv Hf)
      as (dim1 & buf1 & E1 & I1 & T1).
    destruct (IH sl _ _ _ ltac:(lia) Hrest I1) as (dim' & buf' & Hloop & I2 & T2).
    exists dim', buf'.
    assert (A : cursor + len (stacked_rows (f :: fl) (select :: sl))
                = cursor + getRows (vpBasicFeature.interaction f select)
                  + len (stacked_rows fl sl)).
    { unfold stacked_rows, getRows, len. simpl. rewrite length_app. lia. }
    rewrite A. simpl interaction_loop. rewrite E1. simpl.
    refine (conj Hloop (conj I2 _)).
    rewrite T2, T1. unfold stacked_rows. simpl. by rewrite app_assoc.
Qed.
End AssemblyFacts.

(** ** Sequences of calls *)

Section Sequences.
Context {S : Type}.

(** A sequence that returns: its first part returned. *)
Lemma bind_ret {A B} (m : M S A) (f : A -> M S B) (st st' : S) (b : B) :
  (m ≫= f) st = (Ret b, st') ->
  exists a st1, m st = (Ret a, st1) /\ f a st1 = (Ret b, st').
Proof.
  unfold mbind, M_bind. destruct (m st) as [[a| |] st1]; [eauto|done|done].
Qed.

Lemma lib_ret {A} (c : option A) (st st' : S) (a : A) :
  lib c st = (Ret a, st') -> c = Some a /\ st' = st.
Proof. unfold lib, of_lib. destruct c; intros [= <- <-]; done. Qed.

Lemma gets_ret {A} (f : S -> A) (st st' : S) (a : A) :
  gets f st = (Ret a, st') -> a = f st /\ st' = st.
Proof. unfold gets. by intros [= <- <-]. Qed.

Lemma modify_ret (f : S -> S) (st st' : S) u :
  modify f st = (Ret u, st') -> st' = f st.
Proof. unfold modify. by intros [= <-]. Qed.

(** A sequence whose first part returns goes on with what it returned. *)
Lemma bind_run {A B} (m : M S A) (f : A -> M S B) (st st1 : S) (a : A) :
  m st = (Ret a, st1) -> (m ≫= f) st = f a st1.
Proof. intros H. unfold mbind, M_bind. by rewrite H. Qed.

Lemma bind_throw {A B} (m : M S A) (f : A -> M S B) (st st1 : S) ex :
  m st = (Throw ex, st1) -> (m ≫= f) st = (Throw ex, st1).
Proof. intros H. unfold mbind, M_bind. by rewrite H. Qed.

Context {X : Type} (proj : S -> X).

Lemma keep_ret {A} (a : A) : preserves (unchanged proj) (mret a : M S A).
Proof. by intros st r st' [= <- <-]. Qed.

Lemma keep_throw {A} ex : preserves (unchanged proj) (throw ex : M S A).
Proof. by intros st r st' [= <- <-]. Qed.

Lemma keep_gets {A} (f : S -> A) : preserves (unchanged proj) (gets f).
Proof. by intros st r st' [= <- <-]. Qed.

Lemma keep_lift {A} (c : S -> outcome A) : preserves (unchanged proj) (lift c).
Proof. by intros st r st' [= <- <-]. Qed.

Lemma keep_call {A} (c : outcome A) : preserves (unchanged proj) (call c : M S A).
Proof. by intros st r st' [= <- <-]. Qed.

Lemma keep_lib {A} (c : option A) : preserves (unchanged proj) (lib c : M S A).
Proof. by intros st r st' [= <- <-]. Qed.

Lemma keep_modify (f : S -> S) :
  (forall st, proj (f st) = proj st) -> preserves (unchanged proj) (modify f).
Proof. intros Hf st r st' [= <- <-]. apply Hf. Qed.

Lemma keep_bind {A B} (m : M S A) (f : A -> M S B) :
  preserves (unchanged proj) m -> (forall a, preserves (unchanged proj) (f a)) ->
  preserves (unchanged proj) (m ≫= f).
Proof.
  intros Hm Hf st r st'. unfold mbind, M_bind.
  destruct (m st) as [[a| |] st1] eqn:E.
  - intros H. unfold unchanged. rewrite (Hf a _ _ _ H). exact (Hm _ _ _ E).
  - intros [= <- <-]. exact (Hm _ _ _ E).
  - intros [= <- <-]. exact (Hm _ _ _ E).
Qed.
End Sequences.

(** What a sequence of calls leaves as it was, step by step. *)
Ltac keep_step :=
  match goal with
  | |- preserves _ (_ ≫= _) => apply keep_bind; [|intros ?]
  | |- preserves _ (mret _) => apply keep_ret
  | |- preserves _ (throw _) => apply keep_throw
  | |- preserves _ (gets _) => apply keep_gets
  | |- preserves _ (lift _) => apply keep_lift
  | |- preserves _ (call _) => apply keep_call
  | |- preserves _ (lib _) => apply keep_lib
  | |- preserves _ (modify _) =>
      apply keep_modify; intros ?; repeat case_match; reflexivity
  | |- preserves _ (match ?x with _ => _ end) => destruct x
  | H : preserves ?P ?m |- preserves ?P ?m => exact H
  | H : forall _, preserves _ _ |- preserves _ _ => apply H
  end.
Ltac keep := repeat keep_step.

(** An equation between tuples of members, member by member. *)
Ltac members H :=
  unfold unchanged in H;
  repeat (let H' := fresh H in apply pair_equal_spec in H; destruct H as [H H']).

(** A run unfolded in a hypothesis: the calls are replaced by what they do,
    and the cases of the innermost test are taken apart. *)
Ltac run_in H :=
  cbv beta iota delta
    [mbind M_bind mret M_ret gets modify lift call lib of_lib throw] in H;
  cbn in H.
Ltac case_in H :=
  match type of H with
  | context [match ?x with _ => _ end] =>
      lazymatch x with
      | context [match _ with _ => _ end] => fail
      | _ => let E := fresh "E" in destruct x eqn:E; cbn in H
      end
  end.

(** ** The methods that assemble *)

Section MethodFacts.
Context {R : Type} {LA : LinearAlgebra R}.
Context {F : Type} {BF : vpBasicFeature.ops R F}.

Local Abbreviation servo := (vpServo R F).

(** computeInteractionMatrixFromList returns the contributions stacked, in
    a matrix of 6 columns, whatever its argument held. *)
Lemma computeInteractionMatrixFromList_spec (fl : list F) (sl : list Z) (L0 : vpMatrix R) :
  fl <> [] -> (length fl <= length sl)%nat -> interaction_rows6 fl sl ->
  Forall row6 (rowData L0) ->
  computeInteractionMatrixFromList fl sl L0 = Ret (mkMatrix 6 (stacked_rows fl sl)).
Proof.
  intros Hne Hsl Hrows HL0.
  assert (Hstart : exists dim L1,
             (if 0 =? getRows L0 then (1, resize 1 colL true L0) else (getRows L0, L0))
               = (dim, L1) /\
             stack_inv (@rowData R) row6 (dim, 0, L1)).
  { unfold getRows. pose proof (len_nonneg (rowData L0)).
    destruct (0 =? len (rowData L0)) eqn:H0.
    - exists 1, (resize 1 colL true L0). split; [done|]. simpl.
      repeat split; try lia. by repeat constructor.
    - exists (len (rowData L0)), L0. split; [done|]. simpl.
      repeat split; try lia. done. }
  destruct Hstart as (dim & L1 & Hst & Hinv).
  destruct (interaction_loop_spec fl sl dim 0 L1 Hsl Hrows Hinv)
    as (dim' & L2 & Hloop & Hinv' & Htake).
  unfold computeInteractionMatrixFromList.
  destruct fl as [|f fl']; [done|].
  rewrite Hst, Hloop. simpl.
  destruct Hinv' as (_ & Hlen & Hcur & Hok).
  unfold resize. simpl. do 2 f_equal.
  change (rowData (resize (0 + len (stacked_rows (f :: fl') sl)) colL false L2)
          = stacked_rows (f :: fl') sl).
  rewrite rowData_resize by done.
  rewrite resize_list_shrink by lia.
  by rewrite Htake.
Qed.

(** computeError returns the error contributions stacked and leaves the
    three vectors stacked, whatever they held. *)
Lemma computeError_spec (t : servo) :
  featureList t <> [] -> aligned t ->
  computeError t =
    (Ret (stacked_error (featureList t) (desiredFeatureList t) (featureSelectionList t)),
     t<|s := stacked_s (featureList t)|>
      <|sStar := stacked_s (desiredFeatureList t)|>
      <|error := stacked_error (featureList t) (desiredFeatureList t)
                   (featureSelectionList t)|>
      <|dim_task := len (stacked_error (featureList t) (desiredFeatureList t)
                           (featureSelectionList t))|>
      <|errorComputed := true|>).
Proof.
  intros Hne (Hdl & Hsl).
  destruct (first_assumption_inv (s t)) as (dS & bS & FS & IS).
  destruct (first_assumption_inv (sStar t)) as (dSS & bSS & FSS & ISS).
  destruct (first_assumption_inv (error t)) as (dE & bE & FE & IE).
  destruct (error_loop_spec (featureList t) (desiredFeatureList t)
              (featureSelectionList t) _ _ _ _ _ _ _ _ _ Hdl Hsl IS ISS IE)
    as (dS' & bS' & dSS' & bSS' & dE' & bE' & Hloop & JS & JSS & JE & TS & TSS & TE).
  unfold computeError.
  destruct (featureList t) as [|f fl] eqn:Hfl; [done|].
  destruct (desiredFeatureList t) as [|d dl] eqn:Hd; [done|].
  rewrite FS, FSS, FE, Hloop.
  destruct JS as (_ & ? & ? & _), JSS as (_ & ? & ? & _), JE as (_ & ? & ? & _).
  unfold resizeV.
  rewrite !resize_list_shrink by lia.
  rewrite TS, TSS, TE. simpl.
  reflexivity.
Qed.

(** The loop of getDimension adds the dimensions to what dim_task holds. *)
Lemma getDimension_loop_spec (fl : list F) : forall sl dim,
  (length fl <= length sl)%nat ->
  getDimension_loop fl sl dim = Ret (dim + sum_dimension fl sl).
Proof.
  induction fl as [|f fl IH]; intros sl dim Hsl.
  - simpl. unfold sum_dimension. simpl. f_equal. lia.
  - destruct sl as [|select sl]; [simpl in Hsl; lia|].
    simpl in *. rewrite IH by lia. unfold sum_dimension. simpl. f_equal. lia.
Qed.

(** With no feature the assembly throws before it writes anything. *)
Lemma computeInteractionMatrix_empty (t : servo) :
  featureList t = [] -> desiredFeatureList t = [] ->
  computeInteractionMatrix t = (Throw noFeatureError, t).
Proof.
  intros Hf Hd. unfold computeInteractionMatrix, assemble_L, gets.
  simpl. unfold mbind, M_bind. simpl.
  destruct (interactionMatrixType t); simpl; unfold assemble_L;
    rewrite ?Hf, ?Hd; reflexivity.
Qed.

Lemma computeError_empty (t : servo) :
  featureList t = [] -> computeError t = (Throw noFeatureError, t).
Proof. intros Hf. unfold computeError. by rewrite Hf. Qed.

(** The switch of computeControlLaw writes the flags only. *)
Lemma select_cVa_aJe_keeps : preserves (unchanged (@kept_by_select R F)) select_cVa_aJe.
Proof. unfold select_cVa_aJe. keep. Qed.

Lemma computeInteractionMatrixFromList_cols (fl : list F) sl (L0 L' : vpMatrix R) :
  computeInteractionMatrixFromList fl sl L0 = Ret L' -> getCols L' = 6.
Proof.
  unfold computeInteractionMatrixFromList. destruct fl; [done|].
  destruct (if 0 =? getRows L0 then _ else _) as [rowL L1].
  destruct (interaction_loop _ _ _) as [[[? cursorL] L2]| |]; [|done|done].
  simpl. by intros [= <-].
Qed.

Lemma assemble_L_keeps (list_of : servo -> list F) :
  preserves (unchanged (@kept_by_interaction R F)) (assemble_L list_of).
Proof.
  intros st r st'. unfold assemble_L.
  destruct (computeInteractionMatrixFromList _ _ _); by intros [= <- <-].
Qed.

(** computeInteractionMatrix writes L, dim_task and its flag only. *)
Lemma computeInteractionMatrix_keeps :
  preserves (unchanged (@kept_by_interaction R F)) computeInteractionMatrix.
Proof.
  pose proof assemble_L_keeps.
  unfold computeInteractionMatrix, interactionMatrixDone. keep.
Qed.

(** computeError writes s, sStar, error, dim_task and its flag only. *)
Lemma computeError_keeps : preserves (unchanged (@kept_by_error R F)) computeError.
Proof.
  intros st r st'. unfold computeError.
  repeat case_match; by intros [= <- <-].
Qed.

(** The primary task writes J1, J1p, rankJ1, WpW, e1 and e only. *)
Lemma primary_task_keeps (cVa aJe : vpMatrix R) :
  preserves (unchanged (@kept_by_primary R F)) (primary_task cVa aJe).
Proof. unfold primary_task. keep. Qed.

(** The primary task in transpose mode: the pseudo-inverse is the transpose,
    and the rank left by an earlier computation chooses between the plain
    product and the product with the projector, for which the rank and the
    image of J1 are computed. *)
Lemma primary_task_transpose (cVa aJe : vpMatrix R) (t t' : servo) :
  inversionType t = TRANSPOSE ->
  primary_task cVa aJe t = (Ret tt, t') ->
  J1p t' = transpose (J1 t') /\
  (rankJ1 t = getCols (L t) ->
     rankJ1 t' = rankJ1 t /\ WpW t' = WpW t /\
     mvmul (J1p t') (error t) = Some (e1 t')) /\
  (rankJ1 t <> getCols (L t) ->
     exists Jtmp imJ1 imJ1t WJ1p,
       pseudoInverse (J1 t') = Some (rankJ1 t', Jtmp, imJ1, imJ1t) /\
       mmul imJ1t (transpose imJ1t) = Some (WpW t') /\
       mmul (WpW t') (J1p t') = Some WJ1p /\
       mvmul WJ1p (error t) = Some (e1 t')).
Proof.
  intros Hinv H. unfold primary_task in H. destruct t. cbn in Hinv. subst.
  run_in H. repeat case_in H; try discriminate; injection H as <-; cbn.
  - split; [done|]. split; [done|]. intros Hne. apply Z.eqb_eq in E1. done.
  - split; [done|]. split; [intros Heq; apply Z.eqb_neq in E1; done|].
    intros _. eauto 10.
Qed.

(** When the rank the primary task leaves is not the column count of L, the
    rank and WpW it leaves come from the pseudo-inverse of the J1 it
    leaves. *)
Lemma primary_task_projector (cVa aJe : vpMatrix R) (t t' : servo) :
  primary_task cVa aJe t = (Ret tt, t') ->
  rankJ1 t' <> getCols (L t) ->
  exists Jx imJ1 imJ1t,
    pseudoInverse (J1 t') = Some (rankJ1 t', Jx, imJ1, imJ1t) /\
    mmul imJ1t (transpose imJ1t) = Some (WpW t').
Proof.
  intros H. unfold primary_task in H. destruct t.
  run_in H. repeat case_in H; try discriminate; injection H as <-; cbn;
    intros Hne;
    try (match goal with E : (_ =? _) = true |- _ => apply Z.eqb_eq in E; done end);
    eauto 10.
Qed.

(** When computeInteractionMatrix returns, L has 6 columns and is what is
    returned. *)
Lemma computeInteractionMatrix_ret (t t' : servo) (m : vpMatrix R) :
  computeInteractionMatrix t = (Ret m, t') -> getCols (L t') = 6 /\ m = L t'.
Proof.
  intros H. unfold computeInteractionMatrix in H.
  apply bind_ret in H as (ty & st0 & H0 & H). apply gets_ret in H0 as [-> ->].
  apply bind_ret in H as (u & t1 & Hm & Hd).
  assert (H6 : getCols (L t1) = 6).
  { destruct (interactionMatrixType t).
    - unfold assemble_L in Hm.
      destruct (computeInteractionMatrixFromList _ _ _) eqn:E; try discriminate.
      injection Hm as _ <-. cbn. by eapply computeInteractionMatrixFromList_cols.
    - unfold assemble_L in Hm.
      destruct (computeInteractionMatrixFromList _ _ _) eqn:E; try discriminate.
      injection Hm as _ <-. cbn. by eapply computeInteractionMatrixFromList_cols.
    - apply bind_ret in Hm as (L0 & st0 & H0 & Hm). apply gets_ret in H0 as [-> ->].
      apply bind_ret in Hm as (u1 & t2 & Ha & Hm).
      apply bind_ret in Hm as (fl & st0 & H0 & Hm). apply gets_ret in H0 as [-> ->].
      apply bind_ret in Hm as (sl & st0 & H0 & Hm). apply gets_ret in H0 as [-> ->].
      apply bind_ret in Hm as (Lstar & st0 & H0 & Hm). injection H0 as H0 <-.
      apply bind_ret in Hm as (L1 & st0 & H1 & Hm). apply gets_ret in H1 as [-> ->].
      apply bind_ret in Hm as (sum & st0 & H1 & Hm). apply lib_ret in H1 as [H1 ->].
      apply modify_ret in Hm as ->. cbn.
      unfold madd in H1. destruct (_ && _); [|done]. injection H1 as <-. cbn.
      unfold assemble_L in Ha.
      destruct (computeInteractionMatrixFromList _ _ _) eqn:E; try discriminate.
      injection Ha as _ <-. cbn. by eapply computeInteractionMatrixFromList_cols. }
  unfold interactionMatrixDone in Hd. run_in Hd. injection Hd as <- <-. done.
Qed.

Lemma first_cycle_test_cases (t : servo) :
  first_cycle_test t =
    match testInitialization t with
    | Ret true => (Ret tt, t)
    | Ret false => (Throw servoError, t)
    | Throw ex => (Throw ex, t)
    | Undefined => (Undefined, t)
    end.
Proof.
  unfold first_cycle_test, mbind, M_bind, lift.
  by destruct (testInitialization t) as [[|]| |].
Qed.

(** A cycle that returns: each of its steps returned. *)
Lemma cycle_ret (t t' : servo) u :
  cycle t = (Ret u, t') ->
  exists b cVa aJe t1 m t2 v t3,
    testUpdated t = Ret b /\
    select_cVa_aJe t = (Ret (cVa, aJe), t1) /\
    computeInteractionMatrix t1 = (Ret m, t2) /\
    computeError t2 = (Ret v, t3) /\
    primary_task cVa aJe t3 = (Ret tt, t').
Proof.
  intros H. unfold cycle in H.
  apply bind_ret in H as (b & st1 & H1 & H). unfold lift in H1. injection H1 as Hb <-.
  apply bind_ret in H as ([cVa aJe] & t1 & H2 & H).
  apply bind_ret in H as (m & t2 & H3 & H).
  apply bind_ret in H as (v & t3 & H4 & H).
  destruct u. by exists b, cVa, aJe, t1, m, t2, v, t3.
Qed.

(** A call of computeControlLaw that returns: the counter was incremented,
    the test of the first cycle passed if it was made, and the cycle
    returned. *)
Lemma computeControlLaw_ret (it it' : Z) (t t' : servo) (r : vpColVector R) :
  computeControlLaw it t = (Ret r, it', t') ->
  it' = it + 1 /\ r = e t' /\ cycle t = (Ret tt, t') /\
  (it = 0 -> testInitialization t = Ret true).
Proof.
  unfold computeControlLaw.
  destruct (computeControlLaw_try it t) as [[[]| |] t''] eqn:E; intros [= <- <- <-].
  unfold computeControlLaw_try in E.
  apply bind_ret in E as (u & st1 & H1 & H).
  destruct (it =? 0) eqn:Hit.
  - rewrite first_cycle_test_cases in H1.
    destruct (testInitialization t) as [[|]| |]; try discriminate.
    injection H1 as _ <-. done.
  - injection H1 as _ <-. repeat split; try done. intros ->. done.
Qed.

(** What the switch selects and which flags it clears. *)
Lemma select_cVa_aJe_ret (t t1 : servo) (cVa aJe : vpMatrix R) :
  select_cVa_aJe t = (Ret (cVa, aJe), t1) ->
  match servoType t with
  | NONE => False
  | EYEINHAND_CAMERA | EYEINHAND_L_cVe_eJe | EYETOHAND_L_cVe_eJe =>
      cVa = cVe t /\ aJe = eJe t /\ init_cVe t1 = false /\ init_eJe t1 = false
  | EYETOHAND_L_cVf_fVe_eJe =>
      cVa = twist_mul (cVf t) (fVe t) /\ aJe = eJe t /\
      init_fVe t1 = false /\ init_eJe t1 = false
  | EYETOHAND_L_cVf_fJe =>
      cVa = cVf t /\ aJe = fJe t /\ init_fJe t1 = false
  end.
Proof.
  unfold select_cVa_aJe. destruct t. cbn.
  destruct servoType0; cbn; intros [= <- <- <-]; done.
Qed.

(** The states a call of computeControlLaw that returns goes through, and
    what each step leaves as it was. *)
Lemma computeControlLaw_steps (it it' : Z) (t t' : servo) (r : vpColVector R) :
  computeControlLaw it t = (Ret r, it', t') ->
  exists cVa aJe t1 t2 t3,
    select_cVa_aJe t = (Ret (cVa, aJe), t1) /\
    primary_task cVa aJe t3 = (Ret tt, t') /\
    getCols (L t3) = 6 /\
    kept_by_select t1 = kept_by_select t /\
    kept_by_interaction t2 = kept_by_interaction t1 /\
    kept_by_error t3 = kept_by_error t2 /\
    kept_by_primary t' = kept_by_primary t3.
Proof.
  intros H. apply computeControlLaw_ret in H as (_ & _ & H & _).
  apply cycle_ret in H as (b & cVa & aJe & t1 & m & t2 & v & t3 & _ & Hs & Hm & He & Hp).
  exists cVa, aJe, t1, t2, t3.
  pose proof (select_cVa_aJe_keeps _ _ _ Hs) as K1.
  pose proof (computeInteractionMatrix_keeps _ _ _ Hm) as K2.
  pose proof (computeError_keeps _ _ _ He) as K3.
  pose proof (primary_task_keeps _ _ _ _ _ Hp) as K4.
  apply computeInteractionMatrix_ret in Hm as [H6 _].
  repeat split; try done.
  members K3. congruence.
Qed.

(** The assembly of the member L from one of the lists. *)
Lemma assemble_L_spec (list_of : servo -> list F) (t : servo) :
  list_of t <> [] -> (length (list_of t) <= length (featureSelectionList t))%nat ->
  interaction_rows6 (list_of t) (featureSelectionList t) ->
  Forall row6 (rowData (L t)) ->
  assemble_L list_of t =
    (Ret tt, t<|L := mkMatrix 6 (stacked_rows (list_of t) (featureSelectionList t))|>).
Proof.
  intros Hne Hsl Hrows HL. unfold assemble_L.
  by rewrite computeInteractionMatrixFromList_spec.
Qed.

Lemma newMatrix_rows6 (m : vpMatrix R) :
  L_ok m -> Forall row6 (rowData (newMatrix (getRows m) (getCols m))).
Proof.
  intros [Hwf H6]. unfold newMatrix, getRows, getCols. simpl.
  destruct (rowData m) as [|r rows] eqn:E; [constructor|].
  unfold wf_matrix in Hwf. rewrite E in Hwf.
  inversion Hwf as [|? ? Hr _]; inversion H6 as [|? ? Hr6 _]; subst.
  unfold row6 in *. rewrite <- Hr, Hr6.
  apply Forall_replicate. unfold len. by rewrite length_replicate.
Qed.

Lemma map_zip_with {A B C D} (f : C -> D) (g : A -> B -> C) (a : list A) (b : list B) :
  map f (zip_with g a b) = zip_with (fun x y => f (g x y)) a b.
Proof.
  revert b. induction a as [|x a IH]; intros [|y b]; simpl; try done.
  by rewrite IH.
Qed.

Lemma average_rows (ra rb : list (list R)) :
  map (map (fun v => rdiv v R2)) (zip_with (zip_with radd) ra rb)
    = zip_with (zip_with (fun x y => rdiv (radd x y) R2)) ra rb.
Proof.
  rewrite map_zip_with. revert rb.
  induction ra as [|x ra IH]; intros [|y rb]; simpl; try done.
  rewrite map_zip_with. f_equal. apply IH.
Qed.

(** (A + B) / 2 is the elementwise average. *)
Lemma mdiv_madd (a b : vpMatrix R) :
  getRows a = getRows b -> getCols a = getCols b ->
  madd a b = Some (mkMatrix (colNum a)
                     (zip_with (zip_with radd) (rowData a) (rowData b))) /\
  mdiv (mkMatrix (colNum a) (zip_with (zip_with radd) (rowData a) (rowData b))) R2
    = average a b.
Proof.
  intros Hr Hc. unfold madd, mdiv, average. rewrite Hr, Hc, !Z.eqb_refl. simpl.
  split; [done|]. f_equal. apply average_rows.
Qed.

(** computeInteractionMatrix in its three modes. *)
Lemma computeInteractionMatrix_spec (t : servo) :
  featureList t <> [] -> aligned t ->
  interaction_rows6 (featureList t) (featureSelectionList t) ->
  interaction_rows6 (desiredFeatureList t) (featureSelectionList t) ->
  L_ok (L t) ->
  len (stacked_rows (featureList t) (featureSelectionList t))
    = len (stacked_rows (desiredFeatureList t) (featureSelectionList t)) ->
  let Lc := mkMatrix 6 (stacked_rows (featureList t) (featureSelectionList t)) in
  let Ld := mkMatrix 6 (stacked_rows (desiredFeatureList t) (featureSelectionList t)) in
  let Lr := match interactionMatrixType t with
            | CURRENT => Lc
            | DESIRED => Ld
            | MEAN => average Lc Ld
            end in
  computeInteractionMatrix t =
    (Ret Lr, t<|L := Lr|><|dim_task := getRows Lr|><|interactionMatrixComputed := true|>).
Proof.
  intros Hne [Hlen Hsl] Hfl Hdl HL Heq Lc Ld Lr.
  assert (Hdne : desiredFeatureList t <> []).
  { destruct (featureList t); [done|]. by destruct (desiredFeatureList t). }
  assert (Hsl' : (length (desiredFeatureList t) <= length (featureSelectionList t))%nat)
    by (by rewrite <- Hlen).
  unfold computeInteractionMatrix.
  rewrite (bind_run _ _ t t (interactionMatrixType t)) by done.
  subst Lr. destruct (interactionMatrixType t).
  - erewrite bind_run by (apply (assemble_L_spec featureList); try done; apply HL).
    reflexivity.
  - erewrite bind_run by (apply (assemble_L_spec desiredFeatureList); try done; apply HL).
    reflexivity.
  - match goal with
    | |- (?m ≫= _) t = _ =>
        assert (Hmean : m t = (Ret tt, t<|L := average Lc Ld|>))
    end.
    { rewrite (bind_run _ _ t t (L t)) by done.
      erewrite bind_run by (apply (assemble_L_spec featureList); try done; apply HL).
      set (t1 := t<|L := _|>).
      rewrite (bind_run _ _ t1 t1 (desiredFeatureList t)) by done.
      rewrite (bind_run _ _ t1 t1 (featureSelectionList t)) by done.
      rewrite (bind_run _ _ t1 t1 Ld).
      2:{ unfold call. f_equal.
          apply computeInteractionMatrixFromList_spec; try done.
          by apply newMatrix_rows6. }
      rewrite (bind_run _ _ t1 t1 Lc) by done.
      destruct (mdiv_madd Lc Ld) as [Hadd Hdiv]; [exact Heq | done |].
      erewrite bind_run by (unfold lib; rewrite Hadd; reflexivity).
      unfold modify. rewrite Hdiv. reflexivity. }
    rewrite (bind_run _ _ _ _ _ Hmean). reflexivity.
Qed.

(** The value secondaryTask returns. *)
Lemma secondaryTask_value (de2dt : vpColVector R) (t : servo) :
  fst (secondaryTask de2dt t) =
    if rankJ1 t =? getCols (L t) then Throw noDofFree
    else of_lib (P ← msub (identity (getCols (J1 t))) (WpW t); mvmul P de2dt).
Proof.
  unfold secondaryTask. destruct t.
  cbv beta iota delta [mbind M_bind mret M_ret gets modify lift call lib throw]. cbn.
  destruct (_ =? _); [done|].
  destruct (msub _ _); cbn; [|done]. by destruct (mvmul _ _).
Qed.

Lemma secondaryTask2_value (e2 de2dt : vpColVector R) (t : servo) :
  fst (secondaryTask2 e2 de2dt t) =
    if rankJ1 t =? getCols (L t) then Throw noDofFree
    else of_lib (P ← msub (identity (getCols (J1 t))) (WpW t);
                 a ← mvmul (smmul (ropp (lambda t e2)) P) e2;
                 b ← mvmul P de2dt;
                 vadd a b).
Proof.
  unfold secondaryTask2. destruct t.
  cbv beta iota delta [mbind M_bind mret M_ret gets modify lift call lib throw]. cbn.
  destruct (_ =? _); [done|].
  destruct (msub _ _); cbn; [|done].
  destruct (mvmul _ e2); cbn; [|done].
  destruct (mvmul _ de2dt); cbn; [|done]. by destruct (vadd _ _).
Qed.

(** With no feature, a cycle of a configured task throws noFeatureError
    and leaves dim_task as it was. *)
Lemma cycle_no_feature (t : servo) :
  featureList t = [] -> desiredFeatureList t = [] ->
  exists t1, dim_task t1 = dim_task t /\
    cycle t = (Throw (match servoType t with
                      | NONE => servoError
                      | _ => noFeatureError
                      end), t1).
Proof.
  intros Hf Hd. unfold cycle.
  destruct (servoType t) eqn:Hst.
  { exists t. split; [done|].
    apply bind_throw. unfold lift, testUpdated. by rewrite Hst. }
  all: erewrite bind_run by (unfold lift, testUpdated; rewrite Hst; reflexivity).
  all: destruct (select_cVa_aJe t) as [[[cVa aJe]| |] t1] eqn:Hs;
    [|unfold select_cVa_aJe in Hs;
      rewrite (bind_run _ _ t t (servoType t)) in Hs by done; rewrite Hst in Hs;
      run_in Hs; discriminate ..].
  all: pose proof (select_cVa_aJe_keeps _ _ _ Hs) as K; members K.
  all: exists t1; split; [congruence|].
  all: erewrite bind_run by exact Hs.
  all: apply bind_throw; apply computeInteractionMatrix_empty; congruence.
Qed.

(** What with_buffers and with_mode change. *)
Lemma with_buffers_members (bS bSS bE : vpColVector R) (t : servo) :
  s (with_buffers bS bSS bE t) = bS /\
  sStar (with_buffers bS bSS bE t) = bSS /\
  error (with_buffers bS bSS bE t) = bE /\
  kept_by_error (with_buffers bS bSS bE t) = kept_by_error t.
Proof. by destruct t. Qed.

Lemma with_mode_members (ty : interactionMatrixEnum) (t : servo) :
  interactionMatrixType (with_mode ty t) = ty /\
  featureList (with_mode ty t) = featureList t /\
  desiredFeatureList (with_mode ty t) = desiredFeatureList t /\
  featureSelectionList (with_mode ty t) = featureSelectionList t /\
  L (with_mode ty t) = L t.
Proof. by destruct t. Qed.

(** ** The hypotheses of the statements hold along the life of a task

    The lists are aligned after init() and stay aligned through every method;
    L is an array of rows of 6 doubles, or empty, after every
    computeInteractionMatrix() that returns. *)

Lemma aligned_init (t : servo) : aligned (snd (init t)).
Proof. unfold aligned. simpl. lia. Qed.

Lemma aligned_addFeature (t : servo) (s_cur s_star : F) (select : Z) :
  aligned t -> aligned (snd (addFeature s_cur s_star select t)).
Proof. destruct t. unfold aligned. simpl. rewrite !length_app. simpl. lia. Qed.

Lemma aligned_addFeature1 (t : servo) (s_cur : F) (select : Z) :
  aligned t -> aligned (snd (addFeature1 s_cur select t)).
Proof. destruct t. unfold aligned. simpl. rewrite !length_app. simpl. lia. Qed.

Lemma aligned_kill (t : servo) : aligned t -> aligned (snd (kill t)).
Proof.
  destruct t. unfold aligned, kill. simpl. destruct taskWasKilled0; [done|].
  destruct (kill_loop _ _); simpl; try done. lia.
Qed.

Lemma aligned_registry (t t' : servo) :
  registry t' = registry t -> aligned t -> aligned t'.
Proof. unfold aligned. intros H. members H. by rewrite H, H0, H1. Qed.

Lemma registry_setServo (st : servoEnum) : preserves (unchanged (@registry R F)) (setServo st).
Proof. unfold setServo, set_cVe, set_eJe. keep. Qed.

Lemma registry_getDimension : preserves (unchanged (@registry R F)) getDimension.
Proof.
  intros st r st'. unfold getDimension.
  destruct (getDimension_loop _ _ _); by intros [= <- <-].
Qed.

Lemma registry_assemble_L (list_of : servo -> list F) :
  preserves (unchanged (@registry R F)) (assemble_L list_of).
Proof.
  intros st r st'. unfold assemble_L.
  destruct (computeInteractionMatrixFromList _ _ _); by intros [= <- <-].
Qed.

Lemma registry_computeInteractionMatrix :
  preserves (unchanged (@registry R F)) computeInteractionMatrix.
Proof.
  pose proof registry_assemble_L.
  unfold computeInteractionMatrix, interactionMatrixDone. keep.
Qed.

Lemma registry_computeError : preserves (unchanged (@registry R F)) computeError.
Proof.
  intros st r st'. unfold computeError.
  repeat case_match; by intros [= <- <-].
Qed.

Lemma registry_computeControlLaw (it it' : Z) (t t' : servo) r :
  computeControlLaw it t = (r, it', t') -> registry t' = registry t.
Proof.
  assert (H : preserves (unchanged (@registry R F)) (computeControlLaw_try it)).
  { pose proof registry_computeInteractionMatrix. pose proof registry_computeError.
    unfold computeControlLaw_try, first_cycle_test, cycle, select_cVa_aJe, primary_task.
    keep. }
  unfold computeControlLaw.
  destruct (computeControlLaw_try it t) as [[| |] t1] eqn:E; intros [= <- <- <-];
    exact (H _ _ _ E).
Qed.

Lemma registry_secondaryTask (de2dt : vpColVector R) :
  preserves (unchanged (@registry R F)) (secondaryTask de2dt).
Proof. unfold secondaryTask. keep. Qed.

Lemma registry_secondaryTask2 (e2 de2dt : vpColVector R) :
  preserves (unchanged (@registry R F)) (secondaryTask2 e2 de2dt).
Proof. unfold secondaryTask2. keep. Qed.

Lemma average_rows6 (ra rb : list (list R)) :
  Forall row6 ra -> Forall row6 rb -> length ra = length rb ->
  Forall row6 (zip_with (zip_with (fun x y => rdiv (radd x y) R2)) ra rb).
Proof.
  intros Ha. revert rb. induction Ha as [|a ra Ha _ IH]; intros rb Hb Hl; [constructor|].
  destruct Hb as [|b rb Hb Hrb]; [done|]. simpl. constructor.
  - unfold row6, len in *. rewrite length_zip_with. lia.
  - apply IH; [done|]. simpl in Hl. lia.
Qed.

Lemma stacked_rows6 (fl : list F) (sl : list Z) :
  interaction_rows6 fl sl -> Forall row6 (stacked_rows fl sl).
Proof.
  unfold interaction_rows6, stacked_rows. intros H.
  induction H as [|m ms Hm _ IH]; simpl; [constructor|].
  by apply Forall_app.
Qed.

Lemma matrix6_ok (rows : list (list R)) : Forall row6 rows -> L_ok (mkMatrix 6 rows).
Proof. intros H. split; exact H. Qed.

Lemma computeInteractionMatrix_L_ok (t : servo) :
  featureList t <> [] -> aligned t ->
  interaction_rows6 (featureList t) (featureSelectionList t) ->
  interaction_rows6 (desiredFeatureList t) (featureSelectionList t) ->
  L_ok (L t) ->
  len (stacked_rows (featureList t) (featureSelectionList t))
    = len (stacked_rows (desiredFeatureList t) (featureSelectionList t)) ->
  L_ok (L (snd (computeInteractionMatrix t))).
Proof.
  intros Hne Hal Hfl Hdl HL Heq.
  rewrite computeInteractionMatrix_spec by done. simpl.
  destruct (interactionMatrixType t).
  - by apply matrix6_ok, stacked_rows6.
  - by apply matrix6_ok, stacked_rows6.
  - apply matrix6_ok. simpl. apply average_rows6.
    + by apply stacked_rows6.
    + by apply stacked_rows6.
    + unfold len in Heq. lia.
Qed.
End MethodFacts.

(* ===================================================================== *)
(** * Part III: the properties of the specification                       *)
(* ===================================================================== *)

Section Claims.
Context {R : Type} {LA : LinearAlgebra R}.
Context {F : Type} {BF : vpBasicFeature.ops R F}.

Local Abbreviation servo := (vpServo R F).

(** C1, as the code has it.  In transpose mode computeControlLaw() takes the
    transpose for the pseudo-inverse (J1p = J1^t) and computes no rank before
    the rank test, which reads the rank an earlier computation left in
    rankJ1.  When that rank is 6, the primary task is e1 = J1p * error with no
    projector, and rankJ1 and WpW are left as they were.  When it is not, the
    cycle computes the pseudo-inverse of J1 for its rank and its image, leaves
    that rank in rankJ1, the projector imJ1t * imJ1t^t in WpW, and
    e1 = WpW * J1p * error. *)
Theorem transpose_mode_primary_task (it it' : Z) (t t' : servo) (r : vpColVector R) :
  inversionType t = TRANSPOSE ->
  computeControlLaw it t = (Ret r, it', t') ->
  J1p t' = transpose (J1 t') /\
  (rankJ1 t = 6 ->
     rankJ1 t' = 6 /\ WpW t' = WpW t /\
     mvmul (J1p t') (error t') = Some (e1 t')) /\
  (rankJ1 t <> 6 ->
     exists Jtmp imJ1 imJ1t WJ1p,
       pseudoInverse (J1 t') = Some (rankJ1 t', Jtmp, imJ1, imJ1t) /\
       mmul imJ1t (transpose imJ1t) = Some (WpW t') /\
       mmul (WpW t') (J1p t') = Some WJ1p /\
       mvmul WJ1p (error t') = Some (e1 t')).
Proof.
  intros Hinv H.
  destruct (computeControlLaw_steps _ _ _ _ _ H)
    as (cVa & aJe & t1 & t2 & t3 & Hs & Hp & H6 & K1 & K2 & K3 & K4).
  members K1. members K2. members K3. members K4.
  assert (Hinv3 : inversionType t3 = TRANSPOSE) by congruence.
  assert (Hrank : rankJ1 t3 = rankJ1 t) by congruence.
  assert (HW : WpW t3 = WpW t) by congruence.
  assert (Herr : error t' = error t3) by congruence.
  destruct (primary_task_transpose cVa aJe t3 t' Hinv3 Hp) as (A & B & C).
  rewrite Herr, <- Hrank, <- HW, <- H6.
  split; [exact A|]. split; [|exact C].
  intros Heq. destruct (B Heq) as (B1 & B2 & B3). by rewrite B1.
Qed.

(** C2, as the code has it.  A call of computeControlLaw() that returns has
    selected (cVa, aJe) for the configuration and has cleared the flags of
    cVe and eJe (the two eye-in-hand configurations and
    EYETOHAND_L_cVe_eJe), of fVe and eJe (EYETOHAND_L_cVf_fVe_eJe), of fJe
    (EYETOHAND_L_cVf_fJe).  The flag of cVf, which the last two
    configurations read, is not cleared: it is left as it was. *)
Theorem consumed_flags_cleared (it it' : Z) (t t' : servo) (r : vpColVector R) :
  computeControlLaw it t = (Ret r, it', t') ->
  init_cVf t' = init_cVf t /\
  exists cVa aJe t1,
    select_cVa_aJe t = (Ret (cVa, aJe), t1) /\
    match servoType t with
    | NONE => False
    | EYEINHAND_CAMERA | EYEINHAND_L_cVe_eJe | EYETOHAND_L_cVe_eJe =>
        cVa = cVe t /\ aJe = eJe t /\ init_cVe t' = false /\ init_eJe t' = false
    | EYETOHAND_L_cVf_fVe_eJe =>
        cVa = twist_mul (cVf t) (fVe t) /\ aJe = eJe t /\
        init_fVe t' = false /\ init_eJe t' = false
    | EYETOHAND_L_cVf_fJe =>
        cVa = cVf t /\ aJe = fJe t /\ init_fJe t' = false
    end.
Proof.
  intros H.
  destruct (computeControlLaw_steps _ _ _ _ _ H)
    as (cVa & aJe & t1 & t2 & t3 & Hs & Hp & H6 & K1 & K2 & K3 & K4).
  pose proof (select_cVa_aJe_ret _ _ _ _ Hs) as Hsel.
  members K1. members K2. members K3. members K4.
  split; [congruence|].
  exists cVa, aJe, t1. split; [done|].
  assert (init_cVe t' = init_cVe t1) by congruence.
  assert (init_fVe t' = init_fVe t1) by congruence.
  assert (init_eJe t' = init_eJe t1) by congruence.
  assert (init_fJe t' = init_fJe t1) by congruence.
  destruct (servoType t); try done; intuition congruence.
Qed.

(** C3, as the code has it.  The cycle counter is the static local
    [iteration] of computeControlLaw(), one for all the task instances of the
    process.  Once a call for any instance tA has returned, the counter is
    positive and a call for any instance tB runs the cycle without
    testInitialization().  While the counter is 0 the test is made: when it
    holds the cycle runs, when it fails the call throws the servo error and
    leaves the task and the counter as they were.  A call that throws never
    increments the counter. *)
Theorem shared_cycle_counter (it it1 : Z) (tA tA' tB : servo) (r : vpColVector R) :
  0 <= it ->
  computeControlLaw it tA = (Ret r, it1, tA') ->
  it1 = it + 1 /\
  computeControlLaw_try it1 tB = cycle tB /\
  (testInitialization tB = Ret true -> computeControlLaw_try 0 tB = cycle tB) /\
  (testInitialization tB = Ret false ->
     computeControlLaw 0 tB = (Throw servoError, 0, tB)) /\
  (forall it2 ex it3 tB',
     computeControlLaw it2 tB = (Throw ex, it3, tB') -> it3 = it2).
Proof.
  intros Hit H. apply computeControlLaw_ret in H as (-> & _ & _ & _).
  split; [done|]. split; [|split; [|split]].
  - unfold computeControlLaw_try.
    destruct (it + 1 =? 0) eqn:E; [lia|].
    by rewrite (bind_run _ _ tB tB tt).
  - intros Ht. unfold computeControlLaw_try. simpl.
    rewrite (bind_run _ _ tB tB tt); [done|].
    rewrite first_cycle_test_cases. by rewrite Ht.
  - intros Ht. unfold computeControlLaw, computeControlLaw_try. simpl.
    erewrite bind_throw; [reflexivity|].
    rewrite first_cycle_test_cases. by rewrite Ht.
  - intros it2 ex it3 tB'. unfold computeControlLaw.
    destruct (computeControlLaw_try it2 tB) as [[| |] ?]; by intros [= <- <-].
Qed.

(** C4, as the code has it.  With no feature registered,
    computeInteractionMatrix() and computeError() throw noFeatureError and
    leave the task as it is.  computeControlLaw() throws and leaves dim_task
    and the counter as they were; what it throws is noFeatureError when the
    configuration is chosen and the test of the first cycle, if made, holds,
    and the servo error of the tests that come first otherwise (no
    configuration chosen; counter 0 and testInitialization() false). *)
Theorem no_feature_throws (it : Z) (t : servo) :
  featureList t = [] ->
  desiredFeatureList t = [] ->
  computeInteractionMatrix t = (Throw noFeatureError, t) /\
  computeError t = (Throw noFeatureError, t) /\
  exists ex t',
    computeControlLaw it t = (Throw ex, it, t') /\
    dim_task t' = dim_task t /\
    ex = match testInitialization t with
         | Ret true => noFeatureError
         | Ret false => if it =? 0 then servoError else noFeatureError
         | _ => servoError
         end.
Proof.
  intros Hf Hd.
  split; [by apply computeInteractionMatrix_empty|].
  split; [by apply computeError_empty|].
  destruct (cycle_no_feature t Hf Hd) as (t1 & Hdim & Hc).
  unfold computeControlLaw, computeControlLaw_try.
  destruct (it =? 0) eqn:Hit.
  - pose proof (first_cycle_test_cases t) as Ht.
    destruct (testInitialization t) as [[|]| |] eqn:Hti.
    + erewrite bind_run by exact Ht. rewrite Hc.
      exists noFeatureError, t1. repeat split; try done.
      unfold testInitialization in Hti. by destruct (servoType t).
    + erewrite bind_throw by exact Ht. by exists servoError, t.
    + erewrite bind_throw by exact Ht. exists e0, t. repeat split; try done.
      unfold testInitialization in Hti.
      destruct (servoType t); try discriminate. by injection Hti.
    + unfold testInitialization in Hti. by destruct (servoType t).
  - erewrite bind_run by reflexivity. rewrite Hc.
    eexists _, t1. repeat split; try done.
    unfold testInitialization. by destruct (servoType t); try destruct (_ && _).
Qed.

(** C5.  After a call of computeControlLaw() that returned, L has 6 columns,
    and secondaryTask(de2dt) and secondaryTask(e2, de2dt) throw noDofFree
    exactly when the rank left in rankJ1 is 6.  Otherwise that rank and the
    projector WpW were computed in the call from the pseudo-inverse of its
    J1, and the two functions return (I - WpW) * de2dt and
    -lambda(e2) * (I - WpW) * e2 + (I - WpW) * de2dt, as the matrix library
    computes them. *)
Theorem secondaryTask_after_cycle (it it' : Z) (t t' : servo)
    (r e2 de2dt : vpColVector R) :
  computeControlLaw it t = (Ret r, it', t') ->
  getCols (L t') = 6 /\
  (fst (secondaryTask de2dt t') = Throw noDofFree <-> rankJ1 t' = 6) /\
  (fst (secondaryTask2 e2 de2dt t') = Throw noDofFree <-> rankJ1 t' = 6) /\
  (rankJ1 t' <> 6 ->
     (exists Jx imJ1 imJ1t,
        pseudoInverse (J1 t') = Some (rankJ1 t', Jx, imJ1, imJ1t) /\
        mmul imJ1t (transpose imJ1t) = Some (WpW t')) /\
     fst (secondaryTask de2dt t') =
       of_lib (P ← msub (identity (getCols (J1 t'))) (WpW t'); mvmul P de2dt) /\
     fst (secondaryTask2 e2 de2dt t') =
       of_lib (P ← msub (identity (getCols (J1 t'))) (WpW t');
               a ← mvmul (smmul (ropp (lambda t' e2)) P) e2;
               b ← mvmul P de2dt;
               vadd a b)).
Proof.
  intros H.
  destruct (computeControlLaw_steps _ _ _ _ _ H)
    as (cVa & aJe & t1 & t2 & t3 & Hs & Hp & H6 & K1 & K2 & K3 & K4).
  members K4.
  assert (HL : getCols (L t') = 6) by congruence.
  rewrite secondaryTask_value, secondaryTask2_value, HL.
  split; [done|].
  destruct (rankJ1 t' =? 6) eqn:E.
  - apply Z.eqb_eq in E. repeat split; try done.
  - apply Z.eqb_neq in E.
    split; [|split]; [split; [|done] .. |].
    + unfold of_lib. by case_match.
    + unfold of_lib. by case_match.
    + intros _. split; [|done].
      apply (primary_task_projector cVa aJe t3 t' Hp). congruence.
Qed.

(** C6.  For a task with at least one feature, aligned lists, interaction
    matrices with rows of 6 doubles and as many rows stacked from the current
    as from the desired features, computeInteractionMatrix() in MEAN mode
    returns, and leaves in L, the elementwise average of what it returns in
    CURRENT mode and of what it returns in DESIRED mode. *)
Theorem mean_mode_average (t : servo) :
  featureList t <> [] ->
  aligned t ->
  interaction_rows6 (featureList t) (featureSelectionList t) ->
  interaction_rows6 (desiredFeatureList t) (featureSelectionList t) ->
  L_ok (L t) ->
  len (stacked_rows (featureList t) (featureSelectionList t))
    = len (stacked_rows (desiredFeatureList t) (featureSelectionList t)) ->
  exists Lc Ld,
    fst (computeInteractionMatrix (with_mode CURRENT t)) = Ret Lc /\
    fst (computeInteractionMatrix (with_mode DESIRED t)) = Ret Ld /\
    fst (computeInteractionMatrix (with_mode MEAN t)) = Ret (average Lc Ld) /\
    L (snd (computeInteractionMatrix (with_mode MEAN t))) = average Lc Ld.
Proof.
  intros Hne Hal Hfl Hdl HL Heq.
  exists (mkMatrix 6 (stacked_rows (featureList t) (featureSelectionList t))),
         (mkMatrix 6 (stacked_rows (desiredFeatureList t) (featureSelectionList t))).
  pose proof (computeInteractionMatrix_spec (with_mode CURRENT t)) as Hc.
  pose proof (computeInteractionMatrix_spec (with_mode DESIRED t)) as Hd.
  pose proof (computeInteractionMatrix_spec (with_mode MEAN t)) as Hm.
  specialize (Hc Hne Hal Hfl Hdl HL Heq).
  specialize (Hd Hne Hal Hfl Hdl HL Heq).
  specialize (Hm Hne Hal Hfl Hdl HL Heq).
  cbv zeta in Hc, Hd, Hm.
  exact (conj (f_equal fst Hc) (conj (f_equal fst Hd)
           (conj (f_equal fst Hm) (f_equal (fun p => L (snd p)) Hm)))).
Qed.

(** C7.  For a task with at least one feature, whose lists are aligned and
    whose interaction matrices have rows of 6 doubles, the stacked assembly
    loop returns, for the interaction matrix of the current and of the
    desired features and for the vectors s, sStar and error, the
    contributions of the features one after the other in the order of
    registration: the row count is the sum of the row counts of the
    contributions, and the result is the same whatever the buffer held at
    the start (L0 or L0' for the matrix; bS, bSS, bE or the members of the
    task for the vectors), so whatever capacity the loop started from. *)
Theorem stacked_assembly (t : servo) (L0 L0' : vpMatrix R)
    (bS bSS bE : vpColVector R) :
  featureList t <> [] ->
  aligned t ->
  interaction_rows6 (featureList t) (featureSelectionList t) ->
  interaction_rows6 (desiredFeatureList t) (featureSelectionList t) ->
  Forall row6 (rowData L0) ->
  Forall row6 (rowData L0') ->
  let fl := featureList t in
  let dl := desiredFeatureList t in
  let sl := featureSelectionList t in
  (computeInteractionMatrixFromList fl sl L0 = Ret (mkMatrix 6 (stacked_rows fl sl)) /\
   computeInteractionMatrixFromList fl sl L0' = Ret (mkMatrix 6 (stacked_rows fl sl)) /\
   getRows (mkMatrix 6 (stacked_rows fl sl))
     = sum_len (map rowData (zip_with vpBasicFeature.interaction fl sl))) /\
  (computeInteractionMatrixFromList dl sl L0 = Ret (mkMatrix 6 (stacked_rows dl sl)) /\
   computeInteractionMatrixFromList dl sl L0' = Ret (mkMatrix 6 (stacked_rows dl sl)) /\
   getRows (mkMatrix 6 (stacked_rows dl sl))
     = sum_len (map rowData (zip_with vpBasicFeature.interaction dl sl))) /\
  (exists t',
     computeError t = (Ret (error t'), t') /\
     computeError (with_buffers bS bSS bE t) = (Ret (error t'), t') /\
     s t' = stacked_s fl /\
     sStar t' = stacked_s dl /\
     error t' = stacked_error fl dl sl /\
     len (s t') = sum_len (map vpBasicFeature.get_s fl) /\
     len (sStar t') = sum_len (map vpBasicFeature.get_s dl) /\
     len (error t') = sum_len (error_contributions fl dl sl)).
Proof.
  intros Hne Hal Hfl Hdl HL0 HL0' fl dl sl.
  assert (Hdne : dl <> []).
  { destruct Hal as [Hlen _]. subst fl dl.
    destruct (featureList t); [done|]. by destruct (desiredFeatureList t). }
  assert (Hsl : (length fl <= length sl)%nat) by apply Hal.
  assert (Hsl' : (length dl <= length sl)%nat).
  { destruct Hal as [Hlen ?]. subst fl dl sl. rewrite <- Hlen. done. }
  split; [|split].
  - rewrite !computeInteractionMatrixFromList_spec by done.
    repeat split. unfold getRows, stacked_rows. simpl. apply sum_len_concat.
  - rewrite !computeInteractionMatrixFromList_spec by done.
    repeat split. unfold getRows, stacked_rows. simpl. apply sum_len_concat.
  - exists (snd (computeError t)). rewrite (computeError_spec t Hne Hal).
    split; [done|]. split.
    + rewrite computeError_spec by done. reflexivity.
    + simpl. repeat split; try apply sum_len_concat.
Qed.

(** What getDimension() computes.  It walks featureList and
    featureSelectionList from their fronts together (lines 373-387): for a
    task whose selection list has an entry for every feature it returns the
    sum of the dimension of the i-th feature under the i-th selection, and
    leaves that sum in dim_task.  The i-th selection is the one the i-th
    feature was registered with as long as the two lists have grown
    together; init() and kill() empty featureList and leave
    featureSelectionList, and the property C8 of the specification is
    evaluated on such a task with the instances below. *)
Theorem getDimension_sum (t : servo) :
  (length (featureList t) <= length (featureSelectionList t))%nat ->
  getDimension t =
    (Ret (sum_dimension (featureList t) (featureSelectionList t)),
     t<|dim_task := sum_dimension (featureList t) (featureSelectionList t)|>).
Proof.
  intros Hsl. unfold getDimension.
  rewrite getDimension_loop_spec by done.
  by rewrite Z.add_0_l.
Qed.

(** C9.  A call of kill() that returns leaves the flag taskWasKilled set,
    and with that flag set a call of kill() deletes nothing, prints nothing
    and leaves the task as it is: so does every call after the first. *)
Theorem kill_idempotent (t t' : servo) (evs : list (event F)) :
  kill t = (Ret evs, t') ->
  taskWasKilled t' = true /\
  forall n : nat, Nat.iter n (fun st => snd (kill st)) t' = t' /\
                  kill (Nat.iter n (fun st => snd (kill st)) t') = (Ret [], t').
Proof.
  intros H.
  assert (Hk : taskWasKilled t' = true).
  { unfold kill in H. destruct (taskWasKilled t) eqn:Hk.
    - by injection H as _ <-.
    - destruct (kill_loop (featureList t) (desiredFeatureList t)); [|done|done].
      by injection H as _ <-. }
  assert (Hnoop : kill t' = (Ret [], t')) by (unfold kill; by rewrite Hk).
  split; [exact Hk|].
  induction n as [|n [IH1 IH2]]; simpl.
  - done.
  - by rewrite IH1, Hnoop.
Qed.

(** C10.  With no feature registered, getDimension() returns 0 without an
    error and writes 0 in dim_task, whatever dim_task held; the assembly
    operations throw noFeatureError and leave the task, dim_task
    included, as it is. *)
Theorem getDimension_no_feature (t : servo) :
  featureList t = [] ->
  desiredFeatureList t = [] ->
  getDimension t = (Ret 0, t<|dim_task := 0|>) /\
  computeInteractionMatrix t = (Throw noFeatureError, t) /\
  computeError t = (Throw noFeatureError, t).
Proof.
  intros Hf Hd. split; [|split].
  - unfold getDimension. by rewrite Hf.
  - by apply computeInteractionMatrix_empty.
  - by apply computeError_empty.
Qed.
End Claims.

(** ** Instances of the properties on the rational tasks *)

(** The rational pseudo-inverse on the task Jacobians of the examples: a unit
    row, and the two rows of fw, the second below the tolerance. *)
Example pseudoInverseQ_unit_row :
  Rat.pseudoInverseQ (mkMatrix 6 [[1; 0; 0; 0; 0; 0]]%Q)
  = Some (1, mkMatrix 1 [[1]; [0]; [0]; [0]; [0]; [0]]%Q,
          mkMatrix 1 [[1]]%Q,
          mkMatrix 1 [[1]; [0]; [0]; [0]; [0]; [0]]%Q).
Proof. vm_compute. reflexivity. Qed.

Example pseudoInverseQ_tolerance :
  Rat.pseudoInverseQ (mkMatrix 6 [[1; 0; 0; 0; 0; 0]; [0; Rat.tiny; 0; 0; 0; 0]]%Q)
  = Some (1, mkMatrix 2 [[1; 0]; [0; 0]; [0; 0]; [0; 0]; [0; 0]; [0; 0]]%Q,
          mkMatrix 1 [[1]; [0]]%Q,
          mkMatrix 1 [[1]; [0]; [0]; [0]; [0]; [0]]%Q).
Proof. vm_compute. reflexivity. Qed.

(** The scenario of the specification: one feature of value 1 and desired
    value 0, identity interaction row and kinematics, gain 1; the command is
    -1 along the first axis, in both inversion modes. *)
Example scalar_feature_command :
  fst (computeControlLaw 0 Rat.task_x) = (Ret [-1; 0; 0; 0; 0; 0]%Q, 1) /\
  fst (computeControlLaw 0 (Rat.after (setInteractionMatrixType DESIRED TRANSPOSE)
                                      Rat.task_x))
    = (Ret [-1; 0; 0; 0; 0; 0]%Q, 1).
Proof. split; vm_compute; reflexivity. Qed.

(** [transpose_mode_primary_task] on the second cycle of task_w, in transpose
    mode with the rank 1 of its first cycle in rankJ1. *)
Lemma transpose_mode_primary_task_witness :
  inversionType Rat.task_w_transpose = TRANSPOSE /\
  rankJ1 Rat.task_w_transpose <> 6 /\
  exists Jtmp imJ1 imJ1t WJ1p,
    pseudoInverse (J1 (Rat.after_cycle 1 Rat.task_w_transpose))
      = Some (rankJ1 (Rat.after_cycle 1 Rat.task_w_transpose), Jtmp, imJ1, imJ1t) /\
    mmul imJ1t (transpose imJ1t) = Some (WpW (Rat.after_cycle 1 Rat.task_w_transpose)) /\
    mmul (WpW (Rat.after_cycle 1 Rat.task_w_transpose))
         (J1p (Rat.after_cycle 1 Rat.task_w_transpose)) = Some WJ1p /\
    mvmul WJ1p (error (Rat.after_cycle 1 Rat.task_w_transpose))
      = Some (e1 (Rat.after_cycle 1 Rat.task_w_transpose)).
Proof.
  assert (Hinv : inversionType Rat.task_w_transpose = TRANSPOSE) by reflexivity.
  assert (Hrank : rankJ1 Rat.task_w_transpose <> 6) by (vm_compute; discriminate).
  split; [exact Hinv|]. split; [exact Hrank|].
  destruct (transpose_mode_primary_task 1 2 Rat.task_w_transpose
              (Rat.after_cycle 1 Rat.task_w_transpose) [-1; 0; 0; 0; 0; 0]%Q Hinv)
    as (_ & _ & H).
  - vm_compute. reflexivity.
  - exact (H Hrank).
Defined.

(** In transpose mode, with the rank 1 an earlier cycle left in rankJ1, the
    cycle computes the projector and applies it: e1 is not J1p * error. *)
Lemma transpose_mode_applies_projector :
  inversionType Rat.task_w_transpose = TRANSPOSE /\
  rankJ1 Rat.task_w_transpose = 1 /\
  fst (computeControlLaw 1 Rat.task_w_transpose) = (Ret [-1; 0; 0; 0; 0; 0]%Q, 2) /\
  J1p (Rat.after_cycle 1 Rat.task_w_transpose)
    = transpose (J1 (Rat.after_cycle 1 Rat.task_w_transpose)) /\
  mvmul (J1p (Rat.after_cycle 1 Rat.task_w_transpose))
        (error (Rat.after_cycle 1 Rat.task_w_transpose))
    = Some [1; Rat.tiny; 0; 0; 0; 0]%Q /\
  e1 (Rat.after_cycle 1 Rat.task_w_transpose) = [1; 0; 0; 0; 0; 0]%Q /\
  mvmul (J1p (Rat.after_cycle 1 Rat.task_w_transpose))
        (error (Rat.after_cycle 1 Rat.task_w_transpose))
    <> Some (e1 (Rat.after_cycle 1 Rat.task_w_transpose)).
Proof.
  repeat split; try (vm_compute; reflexivity).
  vm_compute. discriminate.
Qed.

(** [consumed_flags_cleared] on the first cycle of task_cVf. *)
Lemma consumed_flags_cleared_witness :
  init_cVf (Rat.after_cycle 0 Rat.task_cVf) = init_cVf Rat.task_cVf /\
  init_fJe (Rat.after_cycle 0 Rat.task_cVf) = false.
Proof.
  destruct (consumed_flags_cleared 0 1 Rat.task_cVf (Rat.after_cycle 0 Rat.task_cVf)
              [1; 0; 0; 0; 0; 0]%Q)
    as (H1 & cVa & aJe & t1 & _ & H2).
  - vm_compute. reflexivity.
  - split; [exact H1|]. exact (proj2 (proj2 H2)).
Defined.

(** In the configuration EYETOHAND_L_cVf_fJe the cycle reads cVf, and the
    flag of cVf is still set when the cycle has returned. *)
Lemma cVf_flag_not_cleared :
  servoType Rat.task_cVf = EYETOHAND_L_cVf_fJe /\
  init_cVf Rat.task_cVf = true /\
  fst (select_cVa_aJe Rat.task_cVf) = Ret (cVf Rat.task_cVf, fJe Rat.task_cVf) /\
  fst (computeControlLaw 0 Rat.task_cVf) = (Ret [1; 0; 0; 0; 0; 0]%Q, 1) /\
  init_cVf (Rat.after_cycle 0 Rat.task_cVf) = true.
Proof. repeat split; vm_compute; reflexivity. Qed.

(** [shared_cycle_counter] on task_x, whose first cycle returns, and on
    task_no_cVe, whose initialization test fails. *)
Lemma shared_cycle_counter_witness :
  testInitialization Rat.task_no_cVe = Ret false /\
  computeControlLaw_try 1 Rat.task_no_cVe = cycle Rat.task_no_cVe /\
  computeControlLaw 0 Rat.task_no_cVe = (Throw servoError, 0, Rat.task_no_cVe).
Proof.
  assert (Ht : testInitialization Rat.task_no_cVe = Ret false) by reflexivity.
  destruct (shared_cycle_counter 0 1 Rat.task_x (Rat.after_cycle 0 Rat.task_x)
              Rat.task_no_cVe [-1; 0; 0; 0; 0; 0]%Q)
    as (_ & H1 & _ & H2 & _).
  - lia.
  - vm_compute. reflexivity.
  - split; [exact Ht|]. split; [exact H1|]. exact (H2 Ht).
Defined.

(** Two tasks in one process: the first cycle of the second task, whose cVe
    was never supplied, is not tested and returns, because the first task
    has completed a cycle. *)
Lemma second_instance_not_tested :
  testInitialization Rat.task_no_cVe = Ret false /\
  fst (computeControlLaw 0 Rat.task_x) = (Ret [-1; 0; 0; 0; 0; 0]%Q, 1) /\
  fst (computeControlLaw 1 Rat.task_no_cVe) = (Ret [1; 0; 0; 0; 0; 0]%Q, 2).
Proof. repeat split; vm_compute; reflexivity. Qed.

(** [no_feature_throws] on task_killed, whose lists kill() has emptied and
    whose dim_task is 1, with the counter at 1. *)
Lemma no_feature_throws_witness :
  dim_task Rat.task_killed = 1 /\
  exists t',
    computeControlLaw 1 Rat.task_killed = (Throw noFeatureError, 1, t') /\
    dim_task t' = 1.
Proof.
  split; [reflexivity|].
  destruct (no_feature_throws 1 Rat.task_killed) as (_ & _ & ex & t' & H1 & H2 & H3).
  - reflexivity.
  - reflexivity.
  - exists t'. rewrite H1, H2, H3. split; reflexivity.
Defined.

(** With no feature, computeControlLaw() throws the servo error, not
    noFeatureError, when no configuration is chosen, and when the
    configuration is chosen but its inputs were never supplied. *)
Lemma no_feature_servo_error :
  featureList Rat.blank = [] /\
  desiredFeatureList Rat.blank = [] /\
  computeControlLaw 0 Rat.blank = (Throw servoError, 0, Rat.blank) /\
  featureList Rat.task_empty = [] /\
  desiredFeatureList Rat.task_empty = [] /\
  computeControlLaw 0 Rat.task_empty = (Throw servoError, 0, Rat.task_empty).
Proof. repeat split; vm_compute; reflexivity. Qed.

(** [secondaryTask_after_cycle] after the first cycle of task_x, of rank 1. *)
Lemma secondaryTask_after_cycle_witness :
  rankJ1 (Rat.after_cycle 0 Rat.task_x) <> 6 /\
  fst (secondaryTask [1; 2; 3; 4; 5; 6]%Q (Rat.after_cycle 0 Rat.task_x))
    = Ret [0; 2; 3; 4; 5; 6]%Q /\
  fst (secondaryTask2 [1; 1; 1; 1; 1; 1]%Q [1; 2; 3; 4; 5; 6]%Q
         (Rat.after_cycle 0 Rat.task_x))
    = Ret [0; 1; 2; 3; 4; 5]%Q.
Proof.
  assert (Hrank : rankJ1 (Rat.after_cycle 0 Rat.task_x) <> 6)
    by (vm_compute; discriminate).
  split; [exact Hrank|].
  destruct (secondaryTask_after_cycle 0 1 Rat.task_x (Rat.after_cycle 0 Rat.task_x)
              [-1; 0; 0; 0; 0; 0]%Q [1; 1; 1; 1; 1; 1]%Q [1; 2; 3; 4; 5; 6]%Q)
    as (_ & _ & _ & H).
  - vm_compute. reflexivity.
  - destruct (H Hrank) as (_ & H1 & H2). rewrite H1, H2.
    split; vm_compute; reflexivity.
Defined.

(** [mean_mode_average] on task_xyz. *)
Lemma mean_mode_average_witness :
  exists Lc Ld,
    fst (computeInteractionMatrix (with_mode CURRENT Rat.task_xyz)) = Ret Lc /\
    fst (computeInteractionMatrix (with_mode DESIRED Rat.task_xyz)) = Ret Ld /\
    fst (computeInteractionMatrix (with_mode MEAN Rat.task_xyz)) = Ret (average Lc Ld) /\
    L (snd (computeInteractionMatrix (with_mode MEAN Rat.task_xyz))) = average Lc Ld.
Proof.
  apply mean_mode_average.
  - vm_compute. discriminate.
  - split; vm_compute; [reflexivity | lia].
  - vm_compute. repeat constructor.
  - vm_compute. repeat constructor.
  - split; constructor.
  - reflexivity.
Defined.

(** [stacked_assembly] on task_xyz, from buffers of 1000 rows and of 1 row
    for L and from a vector of 1000 zeros for error. *)
Lemma stacked_assembly_witness :
  computeInteractionMatrixFromList (featureList Rat.task_xyz)
    (featureSelectionList Rat.task_xyz) (newMatrix 1000 6)
  = Ret (mkMatrix 6 [[1; 0; 0; 0; 0; 0]; [0; 1; 0; 0; 0; 0]; [0; 0; 1; 0; 0; 0]]%Q) /\
  computeInteractionMatrixFromList (featureList Rat.task_xyz)
    (featureSelectionList Rat.task_xyz) (newMatrix 1 6)
  = Ret (mkMatrix 6 [[1; 0; 0; 0; 0; 0]; [0; 1; 0; 0; 0; 0]; [0; 0; 1; 0; 0; 0]]%Q) /\
  fst (computeError (with_buffers [] [] (replicate 1000 0%Q) Rat.task_xyz))
  = Ret [1; 1; 3]%Q.
Proof.
  destruct (stacked_assembly Rat.task_xyz (newMatrix 1000 6) (newMatrix 1 6)
              [] [] (replicate 1000 0%Q))
    as ((H1 & H2 & _) & _ & (t' & _ & H3 & _ & _ & H4 & _)).
  - vm_compute. discriminate.
  - split; vm_compute; [reflexivity | lia].
  - vm_compute. repeat constructor.
  - vm_compute. repeat constructor.
  - apply Forall_replicate. reflexivity.
  - apply Forall_replicate. reflexivity.
  - split; [exact H1 | split; [exact H2 |]].
    exact (eq_trans (f_equal fst H3) (f_equal Ret H4)).
Defined.

(** [getDimension_sum] on task_xyz: dimensions 1 and 2. *)
Lemma getDimension_sum_witness :
  (length (featureList Rat.task_xyz) <= length (featureSelectionList Rat.task_xyz))%nat /\
  fst (getDimension Rat.task_xyz) = Ret 3 /\
  dim_task (snd (getDimension Rat.task_xyz)) = 3.
Proof.
  assert (H : (length (featureList Rat.task_xyz)
               <= length (featureSelectionList Rat.task_xyz))%nat)
    by (vm_compute; lia).
  split; [exact H|].
  rewrite (getDimension_sum Rat.task_xyz H). split; reflexivity.
Defined.

(** C8.  The specification has getDimension() return, and store in
    dim_task, the sum over the registered entries of the dimension of each
    feature under its selection mask.  The code at a task where it does not:
    task_xyz (x under the selection 1, yz under the selection 3) is set up
    again with init(), setServo() and addFeature(yz, yz*, 3).  One entry is
    registered, yz with the mask 3, of dimension 2.  getDimension() returns 1
    and stores 1: init() has emptied featureList and desiredFeatureList
    (lines 102-103) and not featureSelectionList, which now holds 1, 3, 3, and
    the walk reads yz under the 1 at its front.  The same after kill()
    (lines 163-165) in place of init(). *)
Theorem getDimension_stale_selection :
  featureList Rat.task_reset = [Rat.fyz] /\
  featureSelectionList Rat.task_reset = [1; 3; 3] /\
  vpBasicFeature.getDimension Rat.fyz 3 = 2 /\
  fst (getDimension Rat.task_reset) = Ret 1 /\
  dim_task (snd (getDimension Rat.task_reset)) = 1 /\
  featureList Rat.task_rekilled = [Rat.fyz] /\
  featureSelectionList Rat.task_rekilled = [1; 3; 3] /\
  fst (getDimension Rat.task_rekilled) = Ret 1 /\
  dim_task (snd (getDimension Rat.task_rekilled)) = 1.
Proof. repeat split; vm_compute; reflexivity. Qed.

(** [kill_idempotent] on task_owned: the first kill() prints and deletes the
    desired feature the task made, the second does nothing. *)
Lemma kill_idempotent_witness :
  fst (kill Rat.task_owned)
    = Ret [Print (Rat.mkFeature [0%Q] [[1; 0; 0; 0; 0; 0]%Q] dealloc_vpServo);
           Delete (Rat.mkFeature [0%Q] [[1; 0; 0; 0; 0; 0]%Q] dealloc_vpServo)] /\
  kill (snd (kill Rat.task_owned)) = (Ret [], snd (kill Rat.task_owned)).
Proof.
  split; [reflexivity|].
  refine (proj2 (proj2 (kill_idempotent Rat.task_owned (snd (kill Rat.task_owned))
           [Print (Rat.mkFeature [0%Q] [[1; 0; 0; 0; 0; 0]%Q] dealloc_vpServo);
            Delete (Rat.mkFeature [0%Q] [[1; 0; 0; 0; 0; 0]%Q] dealloc_vpServo)]
           _) 0%nat)).
  reflexivity.
Defined.

(** [getDimension_no_feature] on task_killed, whose dim_task is 1. *)
Lemma getDimension_no_feature_witness :
  dim_task Rat.task_killed = 1 /\
  getDimension Rat.task_killed = (Ret 0, Rat.task_killed<|dim_task := 0|>) /\
  fst (computeError Rat.task_killed) = Throw noFeatureError.
Proof.
  split; [reflexivity|].
  destruct (getDimension_no_feature Rat.task_killed) as (H1 & _ & H3).
  - reflexivity.
  - reflexivity.
  - split; [exact H1 | by rewrite H3].
Defined.

(* ===================================================================== *)
(** * Part IV: further properties of the code                             *)
(* ===================================================================== *)

(** ** Runs with a defined outcome *)

Section Safety.
Context {S : Type}.
Variable E : vpException -> Prop.
Variable Inv : S -> Prop.

Lemma safe_ret {A} (a : A) : safe E Inv (mret a : M S A).
Proof. by intros st H. Qed.

Lemma safe_throw {A} ex : E ex -> safe E Inv (throw ex : M S A).
Proof. by intros He st H. Qed.

Lemma safe_gets {A} (f : S -> A) : safe E Inv (gets f).
Proof. by intros st H. Qed.

Lemma safe_lib {A} (c : option A) : E matrixError -> safe E Inv (lib c : M S A).
Proof. intros He st H. by destruct c. Qed.

Lemma safe_modify (f : S -> S) : (forall st, Inv st -> Inv (f st)) -> safe E Inv (modify f).
Proof. intros Hf st H. split; [done|]. by apply Hf. Qed.

Lemma safe_lift {A} (c : S -> outcome A) :
  (forall st, Inv st -> match c st with
                      | Ret _ => True
                      | Throw ex => E ex
                      | Undefined => False
                      end) ->
  safe E Inv (lift c).
Proof. intros Hc st H. split; [by apply Hc|done]. Qed.

Lemma safe_bind {A B} (m : M S A) (f : A -> M S B) :
  safe E Inv m -> (forall a, safe E Inv (f a)) -> safe E Inv (m ≫= f).
Proof.
  intros Hm Hf st H. destruct (Hm st H) as [Hu Hi].
  unfold mbind, M_bind. destruct (m st) as [[a| |] st1]; simpl in *; [|done|done].
  by apply Hf.
Qed.
End Safety.

(** More exceptions allowed, fewer states kept. *)
Lemma safe_weaken {S A} (E E' : vpException -> Prop) (I I' : S -> Prop) (m : M S A) :
  (forall ex, E ex -> E' ex) -> (forall st, I' st -> I st) ->
  (forall st, I' st -> I (snd (m st)) -> I' (snd (m st))) ->
  safe E I m -> safe E' I' m.
Proof.
  intros HE HI HI' Hm st Hst. destruct (Hm st (HI _ Hst)) as [Ho Hs].
  split; [|by apply HI']. destruct (fst (m st)); auto.
Qed.

Ltac safe_step :=
  match goal with
  | H : safe ?E ?P ?m |- safe ?E ?P ?m => exact H
  | H : forall _, safe _ _ _ |- safe _ _ _ => apply H
  | H : forall _ _, safe _ _ _ |- safe _ _ _ => apply H
  | |- safe _ _ (_ ≫= _) => apply safe_bind; [|intros ?]
  | |- safe _ _ (mret _) => apply safe_ret
  | |- safe _ _ (throw _) => apply safe_throw
  | |- safe _ _ (gets _) => apply safe_gets
  | |- safe _ _ (lib _) => apply safe_lib
  | |- safe _ _ (match ?x with _ => _ end) => destruct x
  | |- safe _ _ (if ?x then _ else _) => destruct x
  end.

Ltac safe_steps := repeat safe_step.

(** ** The invariant of a task *)

Section TaskInvariant.
Context {R : Type} {LA : LinearAlgebra R}.
Context {F : Type} {BF : vpBasicFeature.ops R F}.

Local Abbreviation servo := (vpServo R F).

Lemma feature_ok_rows6 (fl : list F) (sl : list Z) :
  Forall feature_ok fl -> interaction_rows6 fl sl.
Proof.
  unfold interaction_rows6. intros H. revert sl.
  induction H as [|f fl Hf _ IH]; intros [|select sl]; simpl; try constructor.
  - apply Hf.
  - apply IH.
Qed.

Lemma task_inv_frame (t t' : servo) :
  registry t' = registry t -> L t' = L t -> task_inv t -> task_inv t'.
Proof.
  intros Hr HL (Hal & Hok & Hfl & Hdl). pose proof (aligned_registry _ _ Hr Hal).
  unfold registry in Hr. injection Hr as Hf Hd Hs.
  unfold task_inv. by rewrite HL, Hf, Hd.
Qed.

Lemma task_inv_L (t : servo) (m : vpMatrix R) :
  L_ok m -> task_inv t -> task_inv (t<|L := m|>).
Proof. intros Hm (Hal & Hok & Hfl & Hdl). by destruct t. Qed.

Lemma loaded_frame (t t' : servo) :
  registry t' = registry t -> L t' = L t -> loaded t -> loaded t'.
Proof.
  intros Hr HL [Hi Hne]. split; [by apply (task_inv_frame t)|].
  unfold registry in Hr. injection Hr as Hf Hd Hs. by rewrite Hf.
Qed.

Lemma loaded_L (t : servo) (m : vpMatrix R) :
  L_ok m -> loaded t -> loaded (t<|L := m|>).
Proof. intros Hm [Hi Hne]. split; [by apply task_inv_L|by destruct t]. Qed.

Lemma loaded_desired (t : servo) : loaded t -> desiredFeatureList t <> [].
Proof.
  intros [([Hlen _] & _) Hne]. destruct (featureList t); [done|].
  by destruct (desiredFeatureList t).
Qed.

Lemma task_inv_empty (t : servo) :
  task_inv t -> featureList t = [] -> desiredFeatureList t = [].
Proof.
  intros ([Hlen _] & _) He. rewrite He in Hlen.
  by destruct (desiredFeatureList t).
Qed.

(** A modification that leaves the lists and L alone keeps the invariant. *)
Lemma modify_frame_safe E (f : servo -> servo) :
  (forall t, registry (f t) = registry t /\ L (f t) = L t) ->
  safe E task_inv (modify f).
Proof.
  intros Hf. apply safe_modify. intros st Hst.
  destruct (Hf st). by apply (task_inv_frame st).
Qed.

Lemma modify_frame_loaded E (f : servo -> servo) :
  (forall t, registry (f t) = registry t /\ L (f t) = L t) ->
  safe E loaded (modify f).
Proof.
  intros Hf. apply safe_modify. intros st Hst.
  destruct (Hf st). by apply (loaded_frame st).
Qed.

(** From the tasks with a feature to all the tasks with the invariant. *)
Lemma safe_cases {A} (E E' : vpException -> Prop) (m : M servo A) :
  (forall ex, E ex -> E' ex) ->
  safe E loaded m ->
  (forall t, task_inv t -> featureList t = [] ->
     exists ex, E' ex /\ m t = (Throw ex, t)) ->
  safe E' task_inv m.
Proof.
  intros HE Hl He t Ht. destruct (decide (featureList t = [])) as [Hn|Hn].
  - destruct (He t Ht Hn) as (ex & Hex & ->). done.
  - destruct (Hl t (conj Ht Hn)) as [Ho [Hi _]]. split; [|done].
    destruct (fst (m t)); auto.
Qed.

Lemma assemble_L_loaded (list_of : servo -> list F) :
  (forall t, loaded t ->
     list_of t <> [] /\ Forall feature_ok (list_of t) /\
     (length (list_of t) <= length (featureSelectionList t))%nat) ->
  safe no_error loaded (assemble_L list_of).
Proof.
  intros Hl st Hst. destruct (Hl st Hst) as (Hne & Hok & Hlen).
  rewrite assemble_L_spec.
  - split; [done|]. apply loaded_L; [|done].
    by apply matrix6_ok, stacked_rows6, feature_ok_rows6.
  - done.
  - done.
  - by apply feature_ok_rows6.
  - apply Hst.
Qed.

Lemma assemble_L_current_loaded : safe no_error loaded (assemble_L featureList).
Proof.
  apply assemble_L_loaded. intros t [(Hal & _ & Hfl & _) Hne].
  split; [done|]. split; [done|]. apply Hal.
Qed.

Lemma assemble_L_desired_loaded : safe no_error loaded (assemble_L desiredFeatureList).
Proof.
  apply assemble_L_loaded. intros t Ht. pose proof (loaded_desired t Ht).
  destruct Ht as [([Hlen Hsl] & _ & _ & Hdl) Hne].
  split; [done|]. split; [done|]. by rewrite <- Hlen.
Qed.

Lemma interactionMatrixDone_loaded E : safe E loaded (@interactionMatrixDone R F).
Proof.
  unfold interactionMatrixDone.
  safe_steps; apply modify_frame_loaded; by intros [].
Qed.

(** The MEAN case of computeInteractionMatrix: the sum of two matrices of
    different heights is the size error of the library, with the matrix of
    the current features left in L. *)
Lemma mean_loaded :
  safe (eq matrixError) loaded
    (L0 ← gets L;
     let Lstar0 := newMatrix (getRows L0) (getCols L0) in
     assemble_L featureList;;
     fl ← gets desiredFeatureList;
     sl ← gets featureSelectionList;
     Lstar ← call (computeInteractionMatrixFromList fl sl Lstar0);
     L1 ← gets L;
     sum ← lib (madd L1 Lstar);
     modify (fun t : servo => t<|L := mdiv sum R2|>)).
Proof.
  intros t Ht. pose proof (loaded_desired t Ht) as Ed.
  pose proof Ht as [(Hal & HL & Hfl & Hdl) E].
  rewrite (bind_run _ _ t t (L t)) by done.
  pose proof (feature_ok_rows6 _ (featureSelectionList t) Hfl) as Hfr.
  pose proof (feature_ok_rows6 _ (featureSelectionList t) Hdl) as Hdr.
  destruct Hal as [Hlen Hsl].
  erewrite bind_run by (apply (assemble_L_spec featureList); try done; apply HL).
  set (Lc := mkMatrix 6 (stacked_rows (featureList t) (featureSelectionList t))).
  set (Ld := mkMatrix 6 (stacked_rows (desiredFeatureList t) (featureSelectionList t))).
  set (t1 := t<|L := Lc|>).
  assert (Ht1 : loaded t1).
  { apply loaded_L; [|done]. by apply matrix6_ok, stacked_rows6. }
  rewrite (bind_run _ _ t1 t1 (desiredFeatureList t)) by done.
  rewrite (bind_run _ _ t1 t1 (featureSelectionList t)) by done.
  rewrite (bind_run _ _ t1 t1 Ld).
  2:{ unfold call. f_equal.
      apply computeInteractionMatrixFromList_spec; try done.
      - by rewrite <- Hlen.
      - by apply newMatrix_rows6. }
  rewrite (bind_run _ _ t1 t1 Lc) by done.
  destruct (decide (getRows Lc = getRows Ld)) as [Heq|Hneq].
  - destruct (mdiv_madd Lc Ld) as [Hadd Hdiv]; [exact Heq | done |].
    erewrite bind_run by (unfold lib; rewrite Hadd; reflexivity).
    unfold modify. rewrite Hdiv. simpl. split; [done|].
    apply (loaded_L t1); [|done]. apply matrix6_ok. simpl. apply average_rows6.
    + by apply stacked_rows6.
    + by apply stacked_rows6.
    + unfold getRows, len in Heq. simpl in Heq. lia.
  - erewrite bind_throw; [done|].
    unfold lib, madd. apply Z.eqb_neq in Hneq. by rewrite Hneq.
Qed.

Lemma computeInteractionMatrix_loaded :
  safe (eq matrixError) loaded (@computeInteractionMatrix R LA F BF).
Proof.
  assert (H1 : safe (eq matrixError) loaded (assemble_L (R:=R) featureList)).
  { eapply safe_weaken; [| | |apply assemble_L_current_loaded]; by auto. }
  assert (H2 : safe (eq matrixError) loaded (assemble_L (R:=R) desiredFeatureList)).
  { eapply safe_weaken; [| | |apply assemble_L_desired_loaded]; by auto. }
  pose proof (interactionMatrixDone_loaded (eq matrixError)). pose proof mean_loaded.
  unfold computeInteractionMatrix. safe_steps.
Qed.

Lemma computeInteractionMatrix_safe :
  safe assembly_error task_inv (@computeInteractionMatrix R LA F BF).
Proof.
  apply (safe_cases (eq matrixError)).
  - intros ex <-. by right.
  - apply computeInteractionMatrix_loaded.
  - intros t Ht Hn. exists noFeatureError. split; [by left|].
    apply computeInteractionMatrix_empty; [done|by apply task_inv_empty].
Qed.

Lemma computeError_loaded : safe no_error loaded (@computeError R LA F BF).
Proof.
  intros t [Ht E]. rewrite computeError_spec; [|done|apply Ht]. split; [done|].
  simpl. apply (loaded_frame t); [by destruct t|by destruct t|done].
Qed.

Lemma computeError_safe :
  safe (eq noFeatureError) task_inv (@computeError R LA F BF).
Proof.
  apply (safe_cases no_error).
  - by intros ex [].
  - apply computeError_loaded.
  - intros t Ht Hn. exists noFeatureError. split; [done|].
    by apply computeError_empty.
Qed.

Lemma select_cVa_aJe_safe : safe (eq servoError) task_inv (@select_cVa_aJe R LA F).
Proof.
  unfold select_cVa_aJe. safe_steps; try done; apply modify_frame_safe; by intros [].
Qed.

Lemma primary_task_loaded (cVa aJe : vpMatrix R) :
  safe (eq matrixError) loaded (@primary_task R LA F cVa aJe).
Proof.
  unfold primary_task. safe_steps; try done; apply modify_frame_loaded; by intros [].
Qed.

Lemma primary_task_safe (cVa aJe : vpMatrix R) :
  safe (eq matrixError) task_inv (@primary_task R LA F cVa aJe).
Proof.
  unfold primary_task. safe_steps; try done; apply modify_frame_safe; by intros [].
Qed.

Lemma secondaryTask_safe (de2dt : vpColVector R) :
  safe (fun ex => ex = noDofFree \/ ex = matrixError) task_inv
       (@secondaryTask R LA F de2dt).
Proof.
  unfold secondaryTask. safe_steps; auto; apply modify_frame_safe; by intros [].
Qed.

Lemma secondaryTask2_safe (e2 de2dt : vpColVector R) :
  safe (fun ex => ex = noDofFree \/ ex = matrixError) task_inv
       (@secondaryTask2 R LA F e2 de2dt).
Proof.
  unfold secondaryTask2. safe_steps; auto; apply modify_frame_safe; by intros [].
Qed.

Lemma setServo_safe (st : servoEnum) : safe no_error task_inv (@setServo R LA F st).
Proof.
  unfold setServo, set_cVe, set_eJe.
  safe_steps; apply modify_frame_safe; intros []; simpl; by repeat case_match.
Qed.

(** kill() on lists of the same length: what it deletes and prints. *)
Lemma kill_loop_returns (fl : list F) : forall dl,
  length fl = length dl ->
  kill_loop fl dl = Ret (concat (zip_with (fun s_ptr d_ptr =>
    match vpBasicFeature.getDeallocate s_ptr with
    | dealloc_vpServo => [Delete s_ptr]
    | dealloc_user => []
    end ++ released d_ptr) fl dl)).
Proof.
  induction fl as [|s_ptr fl IH]; intros [|d_ptr dl] Hlen; try done.
  simpl. rewrite IH by (simpl in Hlen; lia). simpl.
  unfold released. by rewrite <- !app_assoc.
Qed.

Lemma kill_safe : safe no_error task_inv (@kill R F BF).
Proof.
  intros t Ht. unfold kill. destruct (taskWasKilled t); [done|].
  pose proof Ht as ([Hlen Hsl] & HL & _). rewrite kill_loop_returns by done.
  split; [done|]. destruct HL as [Hw Hr]. destruct t. simpl in *.
  repeat split; simpl; try done. lia.
Qed.

Lemma getDimension_safe : safe no_error task_inv (@getDimension R F BF).
Proof.
  intros t Ht. unfold getDimension. rewrite getDimension_loop_spec by apply Ht.
  split; [done|]. apply (task_inv_frame t); by destruct t.
Qed.

Lemma init_safe : safe no_error task_inv (@init R F).
Proof.
  intros t (Hal & [Hw Hr] & _). split; [done|]. destruct t. simpl in *.
  repeat split; simpl; try done. lia.
Qed.

Lemma addFeature_safe (s_cur s_star : F) (select : Z) :
  feature_ok s_cur -> feature_ok s_star ->
  safe no_error task_inv (@addFeature R F s_cur s_star select).
Proof.
  intros Hs Hd t Ht. split; [done|].
  pose proof (aligned_addFeature t s_cur s_star select) as Hal.
  destruct Ht as (Hal0 & HL & Hfl & Hdl). specialize (Hal Hal0).
  split; [done|]. simpl. split; [done|].
  split; apply Forall_app; split; try done; by constructor.
Qed.

Lemma print_features_returns (fl : list F) : forall sl,
  (length fl <= length sl)%nat ->
  @print_features R F fl sl =
    Ret (concat (zip_with (fun f select => [Text String.EmptyString; PrintFeature f select])
                   fl sl)).
Proof.
  induction fl as [|f fl IH]; intros [|select sl] Hlen; try done.
  - simpl in Hlen. lia.
  - simpl. rewrite IH by (simpl in Hlen; lia). done.
Qed.

Lemma print_returns (displayLevel : printEnum) (t : servo) :
  aligned t -> exists out, print displayLevel t = Ret out.
Proof.
  intros [Hlen Hsl]. destruct displayLevel; [|by eexists]. unfold print.
  rewrite !print_features_returns by (rewrite <- ?Hlen; done). by eexists.
Qed.

Lemma testUpdated_cases (t : servo) :
  match testUpdated t with
  | Ret _ => servoType t <> NONE
  | Throw ex => ex = servoError /\ servoType t = NONE
  | Undefined => False
  end.
Proof. unfold testUpdated. by destruct (servoType t). Qed.

Lemma testInitialization_cases (t : servo) :
  match testInitialization t with
  | Ret _ => servoType t <> NONE
  | Throw ex => ex = servoError /\ servoType t = NONE
  | Undefined => False
  end.
Proof. unfold testInitialization. by destruct (servoType t). Qed.

Lemma computeControlLaw_try_safe (it : Z) :
  safe cycle_error task_inv (@computeControlLaw_try R LA F BF it).
Proof.
  assert (H1 : safe cycle_error task_inv (@computeInteractionMatrix R LA F BF)).
  { eapply safe_weaken; [| | |apply computeInteractionMatrix_safe]; try by auto.
    intros ex [->| ->]; unfold cycle_error; auto. }
  assert (H2 : safe cycle_error task_inv (@computeError R LA F BF)).
  { eapply safe_weaken; [| | |apply computeError_safe]; try by auto.
    intros ex <-; unfold cycle_error; auto. }
  assert (H3 : safe cycle_error task_inv (@select_cVa_aJe R LA F)).
  { eapply safe_weaken; [| | |apply select_cVa_aJe_safe]; try by auto.
    intros ex <-; unfold cycle_error; auto. }
  assert (H4 : forall cVa aJe, safe cycle_error task_inv (@primary_task R LA F cVa aJe)).
  { intros. eapply safe_weaken; [| | |apply primary_task_safe]; try by auto.
    intros ex <-; unfold cycle_error; auto. }
  unfold computeControlLaw_try, first_cycle_test, cycle.
  safe_steps; try (by left);
    apply safe_lift; intros st _;
    [pose proof (testInitialization_cases st) as Hc; destruct (testInitialization st)
    |pose proof (testUpdated_cases st) as Hc; destruct (testUpdated st)..];
    try done; left; apply Hc.
Qed.

(** One call keeps the invariant and has a defined outcome. *)
Lemma exec_safe (c : method R F) (it : Z) (t : servo) :
  method_ok c -> task_inv t ->
  fst (exec c (it, t)) <> Undefined /\ task_inv (snd (snd (exec c (it, t)))).
Proof.
  assert (Hd : forall A E (m : M servo A) x,
             task_inv x -> safe E task_inv m ->
             void (fst (m x)) <> Undefined /\ task_inv (snd (m x))).
  { intros A E m x Hx Hm. destruct (Hm x Hx) as [Hu Hi]. split; [|done].
    by destruct (fst (m x)). }
  intros Hc Ht.
  destruct c; unfold exec, dropped; cbn [fst snd]; try (eapply Hd; [done|]).
  - apply init_safe.
  - apply kill_safe.
  - apply setServo_safe.
  - apply (modify_frame_safe no_error). by intros [].
  - apply (modify_frame_safe no_error). by intros [].
  - apply (modify_frame_safe no_error). by intros [].
  - apply (modify_frame_safe no_error). by intros [].
  - apply (modify_frame_safe no_error). by intros [].
  - destruct Hc. by apply addFeature_safe.
  - destruct Hc. by apply (addFeature_safe s_cur).
  - apply getDimension_safe.
  - apply (modify_frame_safe no_error). by intros [].
  - apply computeInteractionMatrix_safe.
  - apply computeError_safe.
  - unfold computeControlLaw.
    destruct (computeControlLaw_try_safe it t Ht) as [Hu Hi].
    by destruct (computeControlLaw_try it t) as [[| |] t'].
  - apply secondaryTask_safe.
  - apply secondaryTask2_safe.
  - split; [|done]. destruct (print_returns displayLevel t (proj1 Ht)) as [out ->].
    done.
Qed.

Lemma run_safe (calls : list (method R F)) : forall (it : Z) (t : servo),
  Forall method_ok calls -> task_inv t ->
  Forall (fun r => r <> Undefined) (fst (run calls (it, t))) /\
  task_inv (snd (snd (run calls (it, t)))).
Proof.
  induction calls as [|c calls IH]; intros it t Hc Ht; [by split|].
  inversion Hc as [|? ? Hc1 Hc2]; subst.
  destruct (exec_safe c it t Hc1 Ht) as [Hu Hi].
  cbn [run]. destruct (exec c (it, t)) as [r [it1 t1]]. cbn [fst snd] in *.
  destruct (IH it1 t1 Hc2 Hi) as [Hrs Hts]. split; [by constructor|done].
Qed.
End TaskInvariant.

(** ** What the calls leave alone *)

Section Steady.
Context {R : Type} {LA : LinearAlgebra R}.
Context {F : Type} {BF : vpBasicFeature.ops R F}.

Local Abbreviation servo := (vpServo R F).

Lemma steady_getDimension : preserves (unchanged (@steady R F)) getDimension.
Proof.
  intros st r st'. unfold getDimension.
  destruct (getDimension_loop _ _ _); by intros [= <- <-].
Qed.

Lemma steady_assemble_L (list_of : servo -> list F) :
  preserves (unchanged (@steady R F)) (assemble_L list_of).
Proof.
  intros st r st'. unfold assemble_L.
  destruct (computeInteractionMatrixFromList _ _ _); by intros [= <- <-].
Qed.

Lemma steady_computeInteractionMatrix :
  preserves (unchanged (@steady R F)) computeInteractionMatrix.
Proof.
  pose proof steady_assemble_L.
  unfold computeInteractionMatrix, interactionMatrixDone. keep.
Qed.

Lemma steady_computeError : preserves (unchanged (@steady R F)) computeError.
Proof.
  intros st r st'. unfold computeError.
  repeat case_match; by intros [= <- <-].
Qed.

Lemma steady_computeControlLaw (it : Z) (t : servo) :
  steady (snd (computeControlLaw it t)) = steady t.
Proof.
  assert (H : preserves (unchanged (@steady R F)) (computeControlLaw_try it)).
  { pose proof steady_computeInteractionMatrix. pose proof steady_computeError.
    unfold computeControlLaw_try, first_cycle_test, cycle, select_cVa_aJe, primary_task.
    keep. }
  unfold computeControlLaw.
  destruct (computeControlLaw_try it t) as [[| |] t1] eqn:E; exact (H _ _ _ E).
Qed.

(** A call other than init(), kill(), setServo() and addFeature() leaves
    the lists, the flag of kill(), the configuration and the sign. *)
Lemma exec_steady (c : method R F) (it : Z) (t : servo) :
  match c with
  | call_init | call_kill | call_setServo _
  | call_addFeature _ _ _ | call_addFeature1 _ _ => True
  | _ => steady (snd (snd (exec c (it, t)))) = steady t
  end.
Proof.
  assert (Hk : forall A (m : M servo A),
             preserves (unchanged (@steady R F)) m -> steady (snd (m t)) = steady t).
  { intros A m Hm. destruct (m t) as [r t'] eqn:E. exact (Hm _ _ _ E). }
  destruct c; try done; unfold exec, dropped; cbn [fst snd]; try apply Hk.
  - apply steady_getDimension.
  - apply steady_computeInteractionMatrix.
  - apply steady_computeError.
  - apply steady_computeControlLaw.
  - unfold secondaryTask. keep.
  - unfold secondaryTask2. keep.
Qed.

Lemma steady_members (t t' : servo) :
  steady t' = steady t ->
  registry t' = registry t /\ taskWasKilled t' = taskWasKilled t /\
  servoType t' = servoType t /\ signInteractionMatrix t' = signInteractionMatrix t.
Proof.
  unfold steady, registry. intros [= Hf Hd Hs Hk Hty Hsg].
  by rewrite Hf, Hd, Hs.
Qed.

Lemma exec_lifecycle (c : method R F) (it : Z) (t : servo) :
  aligned t ->
  aligned (snd (snd (exec c (it, t)))) /\
  taskWasKilled (snd (snd (exec c (it, t)))) = killed_last [c] (taskWasKilled t).
Proof.
  intros Hal. pose proof (exec_steady c it t) as Hs.
  destruct c;
    try (apply steady_members in Hs; destruct Hs as (Hr & Hk & _);
         split; [by apply (aligned_registry t)|done]).
  - split; [apply aligned_init|done].
  - split; [by apply aligned_kill|].
    unfold exec, dropped, kill. cbn [fst snd].
    destruct (taskWasKilled t) eqn:Ek; [done|].
    destruct Hal as [Hlen _]. by rewrite kill_loop_returns.
  - unfold exec, dropped. cbn [fst snd].
    destruct (setServo _servoType t) as [r t'] eqn:E.
    pose proof (registry_setServo _servoType t _ _ E) as Hr. cbn [snd].
    split; [by apply (aligned_registry t)|].
    assert (Hp : preserves (unchanged (@taskWasKilled R F)) (setServo _servoType)).
    { unfold setServo, set_cVe, set_eJe. keep. }
    exact (Hp _ _ _ E).
  - split; [by apply aligned_addFeature|done].
  - split; [by apply aligned_addFeature1|done].
Qed.

Lemma run_lifecycle (calls : list (method R F)) : forall (it : Z) (t : servo),
  aligned t ->
  aligned (snd (snd (run calls (it, t)))) /\
  taskWasKilled (snd (snd (run calls (it, t)))) = killed_last calls (taskWasKilled t).
Proof.
  induction calls as [|c calls IH]; intros it t Hal; [done|].
  destruct (exec_lifecycle c it t Hal) as [Hal1 Hk1].
  cbn [run]. destruct (exec c (it, t)) as [r [it1 t1]]. cbn [fst snd] in *.
  destruct (IH it1 t1 Hal1) as [Hal2 Hk2]. split; [done|].
  rewrite Hk2, Hk1. by destruct c.
Qed.

Lemma exec_sign_inv (c : method R F) (it : Z) (t : servo) :
  sign_inv t -> sign_inv (snd (snd (exec c (it, t)))).
Proof.
  intros Hi. pose proof (exec_steady c it t) as Hs.
  destruct c;
    try (apply steady_members in Hs; destruct Hs as (_ & _ & Hty & Hsg);
         unfold sign_inv; by rewrite Hty, Hsg).
  - by left.
  - unfold exec, dropped, kill. cbn [fst snd].
    destruct (taskWasKilled t); [done|]. by destruct (kill_loop _ _).
  - right. unfold exec, dropped. cbn [fst snd]. by destruct _servoType.
  - done.
  - done.
Qed.

Lemma run_sign_inv (calls : list (method R F)) : forall (it : Z) (t : servo),
  sign_inv t -> sign_inv (snd (snd (run calls (it, t)))).
Proof.
  induction calls as [|c calls IH]; intros it t Hi; [done|].
  pose proof (exec_sign_inv c it t Hi) as H1.
  cbn [run]. destruct (exec c (it, t)) as [r [it1 t1]]. cbn [fst snd] in *.
  by apply IH.
Qed.
End Steady.

(** ** The exceptions of a cycle *)

Section CycleFacts.
Context {R : Type} {LA : LinearAlgebra R}.
Context {F : Type} {BF : vpBasicFeature.ops R F}.

Local Abbreviation servo := (vpServo R F).

(** The switch returns for every configuration but NONE, and writes flags
    only. *)
Lemma select_cVa_aJe_returns (t : servo) :
  servoType t <> NONE ->
  exists cVa aJe t1,
    select_cVa_aJe t = (Ret (cVa, aJe), t1) /\
    registry t1 = registry t /\ L t1 = L t /\ servoType t1 = servoType t.
Proof.
  intros Hn. unfold select_cVa_aJe.
  rewrite (bind_run _ _ t t (servoType t)) by done.
  destruct t as [[] ?]; try done; by eexists _, _, _.
Qed.

Lemma cycle_rest_loaded (cVa aJe : vpMatrix R) :
  safe (eq matrixError) loaded (cycle_rest cVa aJe).
Proof.
  pose proof computeInteractionMatrix_loaded as H1.
  assert (H2 : safe (eq matrixError) loaded (@computeError R LA F BF)).
  { eapply safe_weaken; [| | |apply computeError_loaded]; by auto. }
  pose proof primary_task_loaded as H3.
  unfold cycle_rest. safe_steps.
Qed.

Lemma cycle_unfold (t : servo) :
  servoType t <> NONE ->
  exists cVa aJe t1,
    registry t1 = registry t /\ L t1 = L t /\
    cycle t = cycle_rest cVa aJe t1.
Proof.
  intros Hn. destruct (select_cVa_aJe_returns t Hn) as (cVa & aJe & t1 & Hs & Hr & HL & _).
  exists cVa, aJe, t1. split; [done|]. split; [done|].
  unfold cycle. pose proof (testUpdated_cases t) as Hu.
  destruct (testUpdated t) as [b| |] eqn:Eu; [|by destruct Hu|done].
  rewrite (bind_run _ _ t t b) by (unfold lift; by rewrite Eu).
  by rewrite (bind_run _ _ _ _ _ Hs).
Qed.

Lemma cycle_NONE (t : servo) :
  servoType t = NONE -> cycle t = (Throw servoError, t).
Proof.
  intros Hn. unfold cycle. erewrite bind_throw; [done|].
  unfold lift, testUpdated. by rewrite Hn.
Qed.

(** The try block is the cycle, unless the test of the first cycle fails. *)
Lemma computeControlLaw_try_cases (it : Z) (t : servo) :
  computeControlLaw_try it t =
    if it =? 0 then
      match testInitialization t with
      | Ret true => cycle t
      | Ret false => (Throw servoError, t)
      | Throw ex => (Throw ex, t)
      | Undefined => (Undefined, t)
      end
    else cycle t.
Proof.
  unfold computeControlLaw_try. destruct (it =? 0).
  - pose proof (first_cycle_test_cases t) as Hc.
    destruct (testInitialization t) as [[|]| |].
    + by rewrite (bind_run _ _ _ _ _ Hc).
    + by rewrite (bind_throw _ _ _ _ _ Hc).
    + by rewrite (bind_throw _ _ _ _ _ Hc).
    + unfold mbind, M_bind. by rewrite Hc.
  - by rewrite (bind_run _ _ t t tt).
Qed.

Lemma cycle_outcome (t : servo) :
  task_inv t -> servoType t <> NONE ->
  (featureList t = [] /\ fst (cycle t) = Throw noFeatureError) \/
  (featureList t <> [] /\
   (fst (cycle t) = Ret tt \/ fst (cycle t) = Throw matrixError)).
Proof.
  intros Ht Hn. destruct (decide (featureList t = [])) as [He|He].
  - left. split; [done|].
    destruct (cycle_no_feature t He (task_inv_empty t Ht He)) as (t1 & _ & ->).
    by destruct (servoType t).
  - right. split; [done|].
    destruct (cycle_unfold t Hn) as (cVa & aJe & t1 & Hr & HL & ->).
    assert (Hl : loaded t1) by (apply (loaded_frame t); done).
    destruct (cycle_rest_loaded cVa aJe t1 Hl) as [Ho _].
    destruct (fst (cycle_rest cVa aJe t1)) as [[]|ex|]; [by left| |done].
    right. by rewrite Ho.
Qed.

Lemma computeControlLaw_outcome (it : Z) (t : servo) :
  fst (fst (computeControlLaw it t)) =
    match fst (computeControlLaw_try it t) with
    | Ret _ => Ret (e (snd (computeControlLaw_try it t)))
    | Throw ex => Throw ex
    | Undefined => Undefined
    end.
Proof.
  unfold computeControlLaw. by destruct (computeControlLaw_try it t) as [[| |] t1].
Qed.
End CycleFacts.

(** ** Registration *)

Section RegistryFacts.
Context {R : Type} {LA : LinearAlgebra R}.
Context {F : Type} {BF : vpBasicFeature.ops R F}.

Local Abbreviation servo := (vpServo R F).

Lemma error_contributions_app (fl : list F) : forall dl sl (f d : F) (select : Z),
  length fl = length dl -> length sl = length fl ->
  error_contributions (fl ++ [f]) (dl ++ [d]) (sl ++ [select])
    = error_contributions fl dl sl ++ [vpBasicFeature.error f d select].
Proof.
  induction fl as [|f0 fl IH]; intros [|d0 dl] [|s0 sl] f d select Hd Hs; try done.
  simpl in *. f_equal. apply IH; lia.
Qed.

Lemma sum_dimension_app (fl : list F) : forall sl (f : F) (select : Z),
  length sl = length fl ->
  sum_dimension (fl ++ [f]) (sl ++ [select])
    = sum_dimension fl sl + vpBasicFeature.getDimension f select.
Proof.
  unfold sum_dimension.
  induction fl as [|f0 fl IH]; intros [|s0 sl] f select Hs; try done.
  - simpl. lia.
  - simpl in *. rewrite IH by lia. lia.
Qed.

Lemma stacked_rows_app (fl : list F) : forall sl (f : F) (select : Z),
  length sl = length fl ->
  stacked_rows (fl ++ [f]) (sl ++ [select])
    = stacked_rows fl sl ++ rowData (vpBasicFeature.interaction f select).
Proof.
  unfold stacked_rows.
  induction fl as [|f0 fl IH]; intros [|s0 sl] f select Hs; try done.
  - simpl. by rewrite app_nil_r.
  - simpl in *. rewrite IH by lia. by rewrite app_assoc.
Qed.

(** kill() on current features of the user: the desired features the task
    owns, each printed and deleted. *)
Lemma kill_loop_user (fl : list F) : forall dl,
  length fl = length dl ->
  Forall (fun f => vpBasicFeature.getDeallocate f = dealloc_user) fl ->
  kill_loop fl dl = Ret (concat (map released dl)).
Proof.
  induction fl as [|s_ptr fl IH]; intros [|d_ptr dl] Hlen Hu; try done.
  inversion Hu as [|? ? Hs Hfl]; subst.
  simpl. rewrite Hs, IH by (simpl in Hlen; done || lia). done.
Qed.
End RegistryFacts.

(** ** Who owns the features *)

Section Ownership.
Context {R : Type} {LA : LinearAlgebra R}.
Context {F : Type} {BF : vpBasicFeature.ops R F}.

Local Abbreviation servo := (vpServo R F).





End Ownership.

(** ** What a run does not read *)

Section Blind.
Context {S : Type}.
Variable g : S -> S.

Lemma blind_ret {A} (a : A) : blind_to g (mret a : M S A).
Proof. by intros st. Qed.

Lemma blind_throw {A} ex : blind_to g (throw ex : M S A).
Proof. by intros st. Qed.

Lemma blind_lib {A} (c : option A) : blind_to g (lib c : M S A).
Proof. by intros st. Qed.

Lemma blind_call {A} (c : outcome A) : blind_to g (call c : M S A).
Proof. by intros st. Qed.

Lemma blind_gets {A} (f : S -> A) : (forall st, f (g st) = f st) -> blind_to g (gets f).
Proof. intros Hf st. unfold gets. by rewrite Hf. Qed.

Lemma blind_modify (h : S -> S) :
  (forall st, h (g st) = g (h st)) -> blind_to g (modify h).
Proof. intros Hh st. unfold modify. by rewrite Hh. Qed.

Lemma blind_bind {A B} (m : M S A) (f : A -> M S B) :
  blind_to g m -> (forall a, blind_to g (f a)) -> blind_to g (m ≫= f).
Proof.
  intros Hm Hf st. unfold mbind, M_bind. rewrite Hm.
  destruct (m st) as [[a| |] st1]; simpl; [|done|done].
  rewrite Hf. by destruct (f a st1).
Qed.
End Blind.

Ltac blind_step :=
  match goal with
  | H : blind_to ?g ?m |- blind_to ?g ?m => exact H
  | H : forall _, blind_to _ _ |- blind_to _ _ => apply H
  | H : forall _ _, blind_to _ _ |- blind_to _ _ => apply H
  | |- blind_to _ (_ ≫= _) => apply blind_bind; [|intros ?]
  | |- blind_to _ (mret _) => apply blind_ret
  | |- blind_to _ (throw _) => apply blind_throw
  | |- blind_to _ (lib _) => apply blind_lib
  | |- blind_to _ (call _) => apply blind_call
  | |- blind_to _ (gets _) => apply blind_gets; by intros []
  | |- blind_to _ (modify _) => apply blind_modify; by intros []
  | |- blind_to _ (match ?x with _ => _ end) => destruct x
  | |- blind_to _ (if ?x then _ else _) => destruct x
  end.

Ltac blind := repeat blind_step.

Section BlindToFlags.
Context {R : Type} {LA : LinearAlgebra R}.
Context {F : Type} {BF : vpBasicFeature.ops R F}.

Local Abbreviation servo := (vpServo R F).

Variables b_cVe b_cVf b_fVe b_eJe b_fJe : bool.

Local Abbreviation g := (@with_flags R F b_cVe b_cVf b_fVe b_eJe b_fJe).

Lemma assemble_L_blind (list_of : servo -> list F) :
  (forall t, list_of (g t) = list_of t) ->
  blind_to g (assemble_L list_of).
Proof.
  intros Hl t. unfold assemble_L. rewrite Hl.
  replace (featureSelectionList (g t)) with (featureSelectionList t) by (by destruct t).
  replace (L (g t)) with (L t) by (by destruct t).
  destruct (computeInteractionMatrixFromList _ _ _); by destruct t.
Qed.

Lemma computeInteractionMatrix_blind : blind_to g (@computeInteractionMatrix R LA F BF).
Proof.
  assert (H1 : blind_to g (assemble_L (R:=R) featureList))
    by (apply assemble_L_blind; by intros []).
  assert (H2 : blind_to g (assemble_L (R:=R) desiredFeatureList))
    by (apply assemble_L_blind; by intros []).
  unfold computeInteractionMatrix, interactionMatrixDone. blind.
Qed.

Lemma computeError_blind : blind_to g (@computeError R LA F BF).
Proof.
  intros t. unfold computeError.
  replace (featureList (g t)) with (featureList t) by (by destruct t).
  replace (desiredFeatureList (g t)) with (desiredFeatureList t) by (by destruct t).
  replace (featureSelectionList (g t)) with (featureSelectionList t) by (by destruct t).
  replace (s (g t)) with (s t) by (by destruct t).
  replace (sStar (g t)) with (sStar t) by (by destruct t).
  replace (error (g t)) with (error t) by (by destruct t).
  repeat case_match; by destruct t.
Qed.

Lemma primary_task_blind (cVa aJe : vpMatrix R) :
  blind_to g (@primary_task R LA F cVa aJe).
Proof. unfold primary_task. blind. Qed.

Lemma cycle_rest_blind (cVa aJe : vpMatrix R) :
  blind_to g (@cycle_rest R LA F BF cVa aJe).
Proof.
  pose proof computeInteractionMatrix_blind. pose proof computeError_blind.
  pose proof primary_task_blind. unfold cycle_rest. blind.
Qed.
End BlindToFlags.

(** ** The cycle, step by step *)

Section MoreFacts.
Context {R : Type} {LA : LinearAlgebra R}.
Context {F : Type} {BF : vpBasicFeature.ops R F}.

Local Abbreviation servo := (vpServo R F).

Lemma select_cVa_aJe_flags (t : servo) (b_cVe b_cVf b_fVe b_eJe b_fJe : bool) :
  servoType t <> NONE ->
  exists cVa aJe t1 b1 b2 b3 b4 b5,
    select_cVa_aJe t = (Ret (cVa, aJe), t1) /\
    select_cVa_aJe (with_flags b_cVe b_cVf b_fVe b_eJe b_fJe t)
      = (Ret (cVa, aJe), with_flags b1 b2 b3 b4 b5 t1).
Proof.
  intros Hn. unfold select_cVa_aJe.
  rewrite (bind_run _ _ t t (servoType t)) by done.
  rewrite (bind_run _ _ _ _ (servoType t)) by (by destruct t).
  destruct t as [[] ?]; try done.
  - eexists _, _, _, false, b_cVf, b_fVe, false, b_fJe; split; reflexivity.
  - eexists _, _, _, false, b_cVf, b_fVe, false, b_fJe; split; reflexivity.
  - eexists _, _, _, false, b_cVf, b_fVe, false, b_fJe; split; reflexivity.
  - eexists _, _, _, b_cVe, b_cVf, false, false, b_fJe; split; reflexivity.
  - eexists _, _, _, b_cVe, b_cVf, b_fVe, b_eJe, false; split; reflexivity.
Qed.

Lemma cycle_flags (t : servo) (b_cVe b_cVf b_fVe b_eJe b_fJe : bool) :
  exists b1 b2 b3 b4 b5,
    cycle (with_flags b_cVe b_cVf b_fVe b_eJe b_fJe t)
      = (fst (cycle t), with_flags b1 b2 b3 b4 b5 (snd (cycle t))).
Proof.
  assert (Hcfg : servoType t = NONE \/ servoType t <> NONE)
    by (destruct (servoType t); auto).
  destruct Hcfg as [Hn|Hn].
  - rewrite (cycle_NONE t Hn), cycle_NONE by (by destruct t).
    by exists b_cVe, b_cVf, b_fVe, b_eJe, b_fJe.
  - destruct (select_cVa_aJe_flags t b_cVe b_cVf b_fVe b_eJe b_fJe Hn)
      as (cVa & aJe & t1 & b1 & b2 & b3 & b4 & b5 & Hs & Hsg).
    exists b1, b2, b3, b4, b5.
    set (tg := with_flags b_cVe b_cVf b_fVe b_eJe b_fJe t) in *.
    assert (Hng : servoType tg <> NONE) by (by destruct t).
    unfold cycle.
    pose proof (testUpdated_cases t) as Hu.
    destruct (testUpdated t) as [b| |] eqn:Eu; [|by destruct Hu|done].
    pose proof (testUpdated_cases tg) as Hug.
    destruct (testUpdated tg) as [bg| |] eqn:Eug; [|by destruct Hug|done].
    rewrite (bind_run _ _ t t b) by (unfold lift; by rewrite Eu).
    rewrite (bind_run _ _ tg tg bg) by (unfold lift; by rewrite Eug).
    rewrite (bind_run _ _ _ _ _ Hs), (bind_run _ _ _ _ _ Hsg).
    apply (cycle_rest_blind b1 b2 b3 b4 b5 cVa aJe t1).
Qed.

Lemma primary_task_value (cVa aJe : vpMatrix R) (t t' : servo) :
  primary_task cVa aJe t = (Ret tt, t') ->
  exists LcVa J,
    mmul (L t) cVa = Some LcVa /\ mmul LcVa aJe = Some J /\
    J1 t' = mscale J (signInteractionMatrix t) /\
    e t' = svmul (ropp (lambda t (e1 t'))) (e1 t').
Proof.
  intros H. unfold primary_task in H. destruct t.
  run_in H. repeat case_in H; try discriminate; injection H as <-; cbn; eauto 10.
Qed.

Lemma primary_task_pseudo_inverse (cVa aJe : vpMatrix R) (t t' : servo) :
  inversionType t = PSEUDO_INVERSE ->
  primary_task cVa aJe t = (Ret tt, t') ->
  exists imJ1 imJ1t,
    pseudoInverse (J1 t') = Some (rankJ1 t', J1p t', imJ1, imJ1t) /\
    (rankJ1 t' = getCols (L t) ->
       WpW t' = WpW t /\ mvmul (J1p t') (error t) = Some (e1 t')) /\
    (rankJ1 t' <> getCols (L t) ->
       mmul imJ1t (transpose imJ1t) = Some (WpW t') /\
       exists WJ1p,
         mmul (WpW t') (J1p t') = Some WJ1p /\
         mvmul WJ1p (error t) = Some (e1 t')).
Proof.
  intros Hinv H. unfold primary_task in H. destruct t. simpl in Hinv. subst.
  run_in H. repeat case_in H; try discriminate; injection H as <-; cbn in *;
    eexists _, _; (split; [eassumption|]);
    match goal with
    | Heq : (_ =? _) = true |- _ => apply Z.eqb_eq in Heq
    | Heq : (_ =? _) = false |- _ => apply Z.eqb_neq in Heq
    end; split; intros; try done; eauto.
Qed.

Lemma computeError_ret (t t' : servo) (v : vpColVector R) :
  computeError t = (Ret v, t') ->
  errorComputed t' = true /\ dim_task t' = len (error t') /\ v = error t'.
Proof.
  unfold computeError. repeat case_match; try done. by intros [= <- <-].
Qed.

Lemma computeInteractionMatrix_done (t t' : servo) (m : vpMatrix R) :
  computeInteractionMatrix t = (Ret m, t') ->
  interactionMatrixComputed t' = true /\ dim_task t' = getRows (L t').
Proof.
  intros H. unfold computeInteractionMatrix in H.
  apply bind_ret in H as (ty & st0 & H0 & H). apply gets_ret in H0 as [-> ->].
  apply bind_ret in H as (u & t1 & Hm & Hd).
  unfold interactionMatrixDone in Hd. run_in Hd. by injection Hd as <- <-.
Qed.

(** The steps of a cycle that returned, and what each left alone. *)
Lemma cycle_steps (t t' : servo) :
  cycle t = (Ret tt, t') ->
  exists cVa aJe t1 m t2 v t3,
    select_cVa_aJe t = (Ret (cVa, aJe), t1) /\
    computeInteractionMatrix t1 = (Ret m, t2) /\
    computeError t2 = (Ret v, t3) /\
    primary_task cVa aJe t3 = (Ret tt, t') /\
    kept_by_select t1 = kept_by_select t /\
    kept_by_interaction t2 = kept_by_interaction t1 /\
    kept_by_error t3 = kept_by_error t2 /\
    kept_by_primary t' = kept_by_primary t3.
Proof.
  intros H.
  apply cycle_ret in H as (b & cVa & aJe & t1 & m & t2 & v & t3 & _ & Hs & Hm & He & Hp).
  exists cVa, aJe, t1, m, t2, v, t3.
  pose proof (select_cVa_aJe_keeps _ _ _ Hs) as K1.
  pose proof (computeInteractionMatrix_keeps _ _ _ Hm) as K2.
  pose proof (computeError_keeps _ _ _ He) as K3.
  pose proof (primary_task_keeps _ _ _ _ _ Hp) as K4.
  done.
Qed.

(** A cycle that returned has set the two flags of computation and left
    the length of the error vector in dim_task. *)
Lemma computeControlLaw_computed (it it' : Z) (t t' : servo) (r : vpColVector R) :
  computeControlLaw it t = (Ret r, it', t') ->
  interactionMatrixComputed t' = true /\ errorComputed t' = true /\
  dim_task t' = len (error t').
Proof.
  intros H. apply computeControlLaw_ret in H as (Hit & Hr & H & _).
  apply cycle_steps in H
    as (cVa & aJe & t1 & m & t2 & v & t3 & Hs & Hm & He & Hp & K1 & K2 & K3 & K4).
  apply computeInteractionMatrix_done in Hm as [Hf _].
  apply computeError_ret in He as (Hg & Hd & _).
  unfold kept_by_error in K3. unfold kept_by_primary in K4.
  members K3. members K4.
  repeat split; congruence.
Qed.

Lemma sum_len_map {X} (l : list (list X)) : sum_len l = foldr Z.add 0 (map len l).
Proof. induction l as [|c l IH]; [done|]. simpl. by rewrite IH. Qed.

Lemma stacked_rows_len (fl : list F) (sl : list Z) :
  len (stacked_rows fl sl)
    = foldr Z.add 0 (map getRows (zip_with vpBasicFeature.interaction fl sl)).
Proof.
  unfold stacked_rows. rewrite sum_len_concat, sum_len_map, map_map. done.
Qed.

Lemma printed_features_app (a b : list (output R F)) :
  printed_features (a ++ b) = printed_features a ++ printed_features b.
Proof. unfold printed_features. by rewrite flat_map_app. Qed.

Lemma printed_features_walk (fl : list F) (sl : list Z) :
  printed_features
    (concat (zip_with (fun f select =>
                         [Text String.EmptyString; @PrintFeature R F f select])
               fl sl))
  = zip fl sl.
Proof.
  revert sl. induction fl as [|f fl IH]; intros [|select sl]; try done.
  simpl. by rewrite <- IH.
Qed.

Lemma concat_nils {X} (l : list (list X)) : Forall (fun c => c = []) l -> concat l = [].
Proof. induction 1 as [|c l -> _ IH]; [done|]. by simpl. Qed.
End MoreFacts.

Lemma foldl_pointwise {A B} (f g : A -> B -> A) (l : list B) : forall a,
  (forall b x, f b x = g b x) -> foldl f a l = foldl g a l.
Proof.
  induction l as [|x l IH]; intros a H; [done|]. simpl. rewrite H. by apply IH.
Qed.

(** ** The further properties *)

Section Further.
Context {R : Type} {LA : LinearAlgebra R}.
Context {F : Type} {BF : vpBasicFeature.ops R F}.

Local Abbreviation servo := (vpServo R F).


(** X2.  The calls keep the invariant, whether they return or throw: after
    any sequence the lists are aligned, L is an array of rows of 6 doubles,
    and the interaction matrices of the features registered have rows of 6
    doubles under the selections they are read with. *)
Theorem calls_keep_invariant (calls : list (method R F)) (it : Z) (t : servo) :
  task_inv t -> Forall method_ok calls ->
  let t' := snd (snd (run calls (it, t))) in
  aligned t' /\ L_ok (L t') /\
  interaction_rows6 (featureList t') (featureSelectionList t') /\
  interaction_rows6 (desiredFeatureList t') (featureSelectionList t').
Proof.
  intros Ht Hc t'. destruct (run_safe calls it t Hc Ht) as [_ (Hal & HL & Hfl & Hdl)].
  repeat split; try done; try apply HL; try apply Hal; by apply feature_ok_rows6.
Qed.

(** X3.  After any sequence of calls on a task with aligned lists, the
    destructor returns when kill() is the last of the calls of init() and
    kill() in the sequence (when there is none, when the task was killed
    before), and throws notKilledProperly otherwise: no other method writes
    the flag, and init() after kill() clears it. *)
Theorem destructor_after_calls (calls : list (method R F)) (it : Z) (t : servo) :
  aligned t ->
  vpServo_destructor (snd (snd (run calls (it, t)))) =
    if killed_last calls (taskWasKilled t) then Ret tt else Throw notKilledProperly.
Proof.
  intros Hal. destruct (run_lifecycle calls it t Hal) as [_ Hk].
  unfold vpServo_destructor. by rewrite Hk.
Qed.

(** X4.  A task made by the constructor vpServo(servoEnum), or reset by
    init(), has after any sequence of calls the sign of its configuration
    when it has one: 1 for the two eye-in-hand configurations, -1 for the
    three eye-to-hand ones. *)
Theorem sign_follows_configuration (ty : servoEnum) (raw : servo)
    (calls : list (method R F)) (it : Z) :
  sign_inv (snd (snd (run calls (it, snd (vpServo_constructor ty raw))))) /\
  sign_inv (snd (snd (run calls (it, snd (init raw))))).
Proof.
  split; apply run_sign_inv.
  - right. unfold vpServo_constructor. by destruct ty.
  - by left.
Qed.

(** X5.  The exceptions of computeControlLaw() on a task with the
    invariant, in the order the code tests.  It throws servoError exactly
    when no configuration is chosen, or when the static counter is 0 and
    testInitialization() is false.  Otherwise it throws noFeatureError
    exactly when no feature is registered.  Otherwise it returns, or throws
    the size error of the matrix library: it throws nothing else and has a
    defined outcome. *)
Theorem computeControlLaw_errors (it : Z) (t : servo) :
  task_inv t ->
  let r := fst (fst (computeControlLaw it t)) in
  let refused :=
    servoType t = NONE \/ (it = 0 /\ testInitialization t = Ret false) in
  (r = Throw servoError <-> refused) /\
  (r = Throw noFeatureError <-> ~ refused /\ featureList t = []) /\
  (~ refused -> featureList t <> [] ->
     (exists v, r = Ret v) \/ r = Throw matrixError).
Proof.
  intros Ht r refused. subst r.
  rewrite computeControlLaw_outcome, computeControlLaw_try_cases.
  assert (Hcfg : servoType t = NONE \/ servoType t <> NONE)
    by (destruct (servoType t); auto).
  destruct Hcfg as [Hn|Hn].
  { assert (Hr : refused) by (by left). clearbody refused.
    rewrite (cycle_NONE t Hn). unfold testInitialization. rewrite Hn.
    destruct (it =? 0); simpl; intuition congruence. }
  pose proof (testInitialization_cases t) as Hti.
  destruct (testInitialization t) as [b| |] eqn:Eti; [|by destruct Hti|done].
  destruct (it =? 0) eqn:Eit; [destruct b|].
  - apply Z.eqb_eq in Eit.
    assert (Hr : ~ refused) by (by intros [|[_ [=]]]). clearbody refused.
    destruct (cycle_outcome t Ht Hn) as [[He ->]|[He [-> | ->]]];
      intuition (try congruence; eauto).
  - apply Z.eqb_eq in Eit.
    assert (Hr : refused) by (by right). clearbody refused.
    simpl; intuition congruence.
  - apply Z.eqb_neq in Eit.
    assert (Hr : ~ refused) by (by intros [|[? _]]). clearbody refused.
    destruct (cycle_outcome t Ht Hn) as [[He ->]|[He [-> | ->]]];
      intuition (try congruence; eauto).
Qed.

(** X6.  Once the static counter is not 0, computeControlLaw() does not
    depend on the freshness flags: with any other values of the five flags
    it has the same outcome, returns the same command, leaves the same
    counter and the same task but for the flags.  Inputs that were not
    supplied again are used as they are; testUpdated() only traces. *)
Theorem stale_inputs_accepted (it : Z) (t : servo)
    (b_cVe b_cVf b_fVe b_eJe b_fJe : bool) :
  it <> 0 ->
  exists b1 b2 b3 b4 b5,
    computeControlLaw it (with_flags b_cVe b_cVf b_fVe b_eJe b_fJe t) =
      (fst (fst (computeControlLaw it t)), snd (fst (computeControlLaw it t)),
       with_flags b1 b2 b3 b4 b5 (snd (computeControlLaw it t))).
Proof.
  intros Hit. apply Z.eqb_neq in Hit.
  destruct (cycle_flags t b_cVe b_cVf b_fVe b_eJe b_fJe)
    as (b1 & b2 & b3 & b4 & b5 & Hc).
  exists b1, b2, b3, b4, b5.
  unfold computeControlLaw. rewrite !computeControlLaw_try_cases, Hit, Hc.
  by destruct (cycle t) as [[| |] t1].
Qed.

(** X7.  A cycle that fails after the switch has consumed the inputs.  On
    a task with no feature, a configuration other than EYEINHAND_CAMERA and
    its inputs supplied, the first call of computeControlLaw() throws
    noFeatureError and leaves the counter at 0, but has cleared the flags of
    the inputs: testInitialization() is then false, and the next call throws
    servoError although a feature has been registered. *)
Theorem failed_cycle_consumes_inputs (t : servo) (f d : F) (select : Z) :
  featureList t = [] ->
  desiredFeatureList t = [] ->
  servoType t <> EYEINHAND_CAMERA ->
  testInitialization t = Ret true ->
  let t' := snd (computeControlLaw 0 t) in
  computeControlLaw 0 t = (Throw noFeatureError, 0, t') /\
  testInitialization t' = Ret false /\
  computeControlLaw 0 (snd (addFeature f d select t')) =
    (Throw servoError, 0, snd (addFeature f d select t')).
Proof.
  intros Hf Hd Hcam Hti t'.
  assert (Hn : servoType t <> NONE).
  { intros Hn. unfold testInitialization in Hti. by rewrite Hn in Hti. }
  destruct (select_cVa_aJe_returns t Hn) as (cVa & aJe & t1 & Hs & Hr & HL & Hty).
  assert (Hc : cycle t = (Throw noFeatureError, t1)).
  { unfold cycle. pose proof (testUpdated_cases t) as Hu.
    destruct (testUpdated t) as [b| |] eqn:Eu; [|by destruct Hu|done].
    rewrite (bind_run _ _ t t b) by (unfold lift; by rewrite Eu).
    rewrite (bind_run _ _ _ _ _ Hs).
    unfold registry in Hr. injection Hr as Hf1 Hd1 _.
    erewrite bind_throw; [done|].
    apply computeInteractionMatrix_empty; congruence. }
  assert (Ht' : computeControlLaw 0 t = (Throw noFeatureError, 0, t1)).
  { unfold computeControlLaw. rewrite computeControlLaw_try_cases.
    simpl. by rewrite Hti, Hc. }
  subst t'. rewrite Ht'. cbn [snd]. split; [done|].
  assert (Hfalse : testInitialization t1 = Ret false).
  { pose proof (select_cVa_aJe_ret _ _ _ _ Hs) as Hflags.
    unfold testInitialization in *. rewrite Hty.
    destruct (servoType t); try done.
    - destruct Hflags as (_ & _ & -> & _). done.
    - destruct Hflags as (_ & _ & -> & _). done.
    - destruct Hflags as (_ & _ & -> & _). by rewrite andb_false_r.
    - destruct Hflags as (_ & _ & ->). by rewrite andb_false_r. }
  split; [done|].
  unfold computeControlLaw. rewrite computeControlLaw_try_cases. simpl.
  replace (testInitialization _) with (testInitialization t1); [by rewrite Hfalse|].
  by destruct t1.
Qed.

(** X8.  After a call of computeControlLaw() that returned, testUpdated()
    and testInitialization() are false in every configuration but
    EYEINHAND_CAMERA, where they are true.  The configuration is as it
    was. *)
Theorem inputs_stale_after_cycle (it it' : Z) (t t' : servo) (r : vpColVector R) :
  computeControlLaw it t = (Ret r, it', t') ->
  let fresh := match servoType t with
               | EYEINHAND_CAMERA => true
               | _ => false
               end in
  servoType t' = servoType t /\
  testUpdated t' = Ret fresh /\
  testInitialization t' = Ret fresh.
Proof.
  intros H fresh.
  destruct (computeControlLaw_steps _ _ _ _ _ H)
    as (cVa & aJe & t1 & t2 & t3 & Hs & _ & _ & K1 & K2 & K3 & K4).
  pose proof (select_cVa_aJe_ret _ _ _ _ Hs) as Hflags.
  destruct (select_cVa_aJe_returns t) as (? & ? & ? & Hs' & _ & _ & Hty).
  { intros Hn. by rewrite Hn in Hflags. }
  rewrite Hs in Hs'. injection Hs' as <- <- <-.
  unfold kept_by_interaction in K2. unfold kept_by_error in K3.
  unfold kept_by_primary in K4.
  members K2. members K3. members K4.
  assert (Hty' : servoType t' = servoType t) by congruence.
  assert (E1 : init_cVe t' = init_cVe t1) by congruence.
  assert (E2 : init_fVe t' = init_fVe t1) by congruence.
  assert (E3 : init_eJe t' = init_eJe t1) by congruence.
  assert (E4 : init_fJe t' = init_fJe t1) by congruence.
  split; [done|]. unfold testUpdated, testInitialization.
  rewrite Hty', E1, E2, E3, E4. subst fresh.
  destruct (servoType t); try done.
  - destruct Hflags as (_ & _ & -> & ->). done.
  - destruct Hflags as (_ & _ & -> & ->). done.
  - destruct Hflags as (_ & _ & -> & ->). by rewrite !andb_false_r.
  - destruct Hflags as (_ & _ & ->). by rewrite !andb_false_r.
Qed.

(** X9.  testUpdated() asks no more than testInitialization(): when the
    second returns true so does the first, and they throw servoError in the
    same case, when no configuration is chosen. *)
Theorem initialized_is_updated (t : servo) :
  (testInitialization t = Ret true -> testUpdated t = Ret true) /\
  (forall ex, testInitialization t = Throw ex <-> testUpdated t = Throw ex) /\
  (forall ex, testUpdated t = Throw ex -> ex = servoError /\ servoType t = NONE).
Proof.
  unfold testInitialization, testUpdated. split; [|split].
  - destruct (servoType t); try done; intros [= H]; f_equal;
      destruct (init_cVe t), (init_eJe t), (init_cVf t), (init_fVe t), (init_fJe t);
      done.
  - intros ex. by destruct (servoType t).
  - intros ex. destruct (servoType t); try done. by intros [= <-].
Qed.

(** X10.  What the two tests trace against what they return.
    testUpdated() returns false exactly when it traces a message, and so
    does testInitialization() in every configuration but
    EYETOHAND_L_cVf_fVe_eJe.  There the message about fVe is traced on the
    flag of fJe: it appears exactly when fJe is not supplied, so that the
    function returns false without a message when fVe alone is missing and
    fJe is supplied, and traces the message while returning true when all
    its inputs are supplied and fJe is not. *)
Theorem traces_against_results (t : servo) :
  (servoType t <> NONE ->
     (testUpdated t = Ret false <-> testUpdated_traces t <> [])) /\
  (servoType t <> NONE -> servoType t <> EYETOHAND_L_cVf_fVe_eJe ->
     (testInitialization t = Ret false <-> testInitialization_traces t <> [])) /\
  (servoType t = EYETOHAND_L_cVf_fVe_eJe ->
     (In "fVe not initialized"%string (testInitialization_traces t)
        <-> init_fJe t = false) /\
     (init_cVf t = true -> init_eJe t = true -> init_fJe t = true ->
        init_fVe t = false ->
        testInitialization t = Ret false /\ testInitialization_traces t = []) /\
     (init_cVf t = true -> init_eJe t = true -> init_fVe t = true ->
        init_fJe t = false ->
        testInitialization t = Ret true /\
        testInitialization_traces t = ["fVe not initialized"%string])).
Proof.
  unfold testInitialization, testInitialization_traces, testUpdated,
    testUpdated_traces, trace_unless.
  split; [|split].
  - intros Hn.
    destruct (servoType t); try done;
      destruct (init_cVe t), (init_eJe t), (init_fVe t), (init_fJe t);
      simpl; split; try done.
  - intros Hn Hm.
    destruct (servoType t); try done;
      destruct (init_cVe t), (init_eJe t), (init_cVf t), (init_fJe t);
      simpl; split; try done.
  - intros ->. split; [|split].
    + destruct (init_cVf t), (init_fJe t), (init_eJe t); simpl; split;
        intros H; try done; auto;
        repeat (destruct H as [H|H]; try done).
    + by intros -> -> -> ->.
    + by intros -> -> -> ->.
Qed.

(** X11.  setServo() clears no flag.  After setServo(EYEINHAND_CAMERA),
    which supplies the identity for cVe and eJe, a change of the
    configuration to EYEINHAND_L_cVe_eJe or EYETOHAND_L_cVe_eJe leaves them
    supplied: the test of the first cycle holds with the two identities,
    though the user supplied neither. *)
Theorem setServo_keeps_inputs (t : servo) (ty : servoEnum) :
  ty = EYEINHAND_L_cVe_eJe \/ ty = EYETOHAND_L_cVe_eJe ->
  let t' := snd (setServo ty (snd (setServo EYEINHAND_CAMERA t))) in
  cVe t' = identity 6 /\ eJe t' = identity 6 /\
  testInitialization t' = Ret true /\ testUpdated t' = Ret true.
Proof. intros [-> | ->]; by destruct t. Qed.

(** X12.  The command of a cycle that returned, in either inversion mode.
    The task Jacobian is J1 = L * cVa * aJe for the pair the switch
    selected, multiplied by the sign of the configuration; the command is
    e = -lambda(e1) * e1 and is what the call returns.  The call leaves the
    two flags of computation set and dim_task at the length of the error
    vector, and has incremented the static counter. *)
Theorem control_law_value (it it' : Z) (t t' : servo) (r : vpColVector R) :
  computeControlLaw it t = (Ret r, it', t') ->
  exists cVa aJe t1 LcVa J,
    select_cVa_aJe t = (Ret (cVa, aJe), t1) /\
    mmul (L t') cVa = Some LcVa /\
    mmul LcVa aJe = Some J /\
    J1 t' = mscale J (signInteractionMatrix t) /\
    e t' = svmul (ropp (lambda t (e1 t'))) (e1 t') /\
    r = e t' /\
    it' = it + 1 /\
    interactionMatrixComputed t' = true /\
    errorComputed t' = true /\
    dim_task t' = len (error t').
Proof.
  intros H. apply computeControlLaw_ret in H as (Hit & Hr & H & _).
  apply cycle_steps in H
    as (cVa & aJe & t1 & m & t2 & v & t3 & Hs & Hm & He & Hp & K1 & K2 & K3 & K4).
  apply primary_task_value in Hp as (LcVa & J & H1 & H2 & H3 & H4).
  apply computeInteractionMatrix_done in Hm as [Hf _].
  apply computeError_ret in He as (Hg & Hd & _).
  unfold kept_by_select in K1. unfold kept_by_interaction in K2.
  unfold kept_by_error in K3. unfold kept_by_primary in K4.
  members K1. members K2. members K3. members K4.
  exists cVa, aJe, t1, LcVa, J.
  repeat split; try done; try congruence.
Qed.

(** X13.  The primary task of a cycle that returned in pseudo-inverse mode.
    The rank and the pseudo-inverse the call leaves are those of the J1 it
    leaves.  When the rank is 6 the primary task is e1 = J1p * error and WpW
    is left as it was; otherwise WpW = imJ1t * imJ1t^t for the image the
    pseudo-inverse returned, and e1 = WpW * J1p * error. *)
Theorem pseudo_inverse_primary_task (it it' : Z) (t t' : servo) (r : vpColVector R) :
  inversionType t = PSEUDO_INVERSE ->
  computeControlLaw it t = (Ret r, it', t') ->
  exists imJ1 imJ1t,
    pseudoInverse (J1 t') = Some (rankJ1 t', J1p t', imJ1, imJ1t) /\
    (rankJ1 t' = 6 ->
       WpW t' = WpW t /\ mvmul (J1p t') (error t') = Some (e1 t')) /\
    (rankJ1 t' <> 6 ->
       mmul imJ1t (transpose imJ1t) = Some (WpW t') /\
       exists WJ1p,
         mmul (WpW t') (J1p t') = Some WJ1p /\
         mvmul WJ1p (error t') = Some (e1 t')).
Proof.
  intros Hinv H. apply computeControlLaw_ret in H as (Hit & Hr & H & _).
  apply cycle_steps in H
    as (cVa & aJe & t1 & m & t2 & v & t3 & Hs & Hm & He & Hp & K1 & K2 & K3 & K4).
  apply computeInteractionMatrix_ret in Hm as [H6 _].
  unfold kept_by_select in K1. unfold kept_by_interaction in K2.
  unfold kept_by_error in K3. unfold kept_by_primary in K4.
  members K1. members K2. members K3. members K4.
  assert (Hinv3 : inversionType t3 = PSEUDO_INVERSE) by congruence.
  assert (HL : getCols (L t3) = 6) by congruence.
  destruct (primary_task_pseudo_inverse _ _ _ _ Hinv3 Hp) as (imJ1 & imJ1t & P1 & P2 & P3).
  rewrite HL in P2, P3.
  replace (error t3) with (error t') in P2, P3 by congruence.
  replace (WpW t3) with (WpW t) in P2 by congruence.
  by exists imJ1, imJ1t.
Qed.

(** X14.  secondaryTask(de2dt) writes I_WpW and nothing else, and leaves the
    task as it was when it throws noDofFree.  Neither overload reads I_WpW:
    a call of one after the other returns what it returns without it, so
    the two can be called, and called again, in any order within a
    cycle. *)
Theorem secondaryTask_repeatable (d0 d1 e2 : vpColVector R) (t : servo) :
  snd (secondaryTask d0 t) = t<|I_WpW := I_WpW (snd (secondaryTask d0 t))|> /\
  (fst (secondaryTask d0 t) = Throw noDofFree -> snd (secondaryTask d0 t) = t) /\
  fst (secondaryTask d1 (snd (secondaryTask d0 t))) = fst (secondaryTask d1 t) /\
  fst (secondaryTask2 e2 d1 (snd (secondaryTask d0 t))) = fst (secondaryTask2 e2 d1 t).
Proof.
  assert (H : snd (secondaryTask d0 t) = t<|I_WpW := I_WpW (snd (secondaryTask d0 t))|>
              /\ (fst (secondaryTask d0 t) = Throw noDofFree -> snd (secondaryTask d0 t) = t)).
  { unfold secondaryTask. destruct t.
    cbv beta iota delta [mbind M_bind mret M_ret gets modify lift call lib of_lib throw].
    cbn. destruct (_ =? _); [done|].
    destruct (msub _ _); cbn; [|done]. by destruct (mvmul _ _). }
  destruct H as [H1 H2]. split; [done|]. split; [done|].
  rewrite !secondaryTask_value, !secondaryTask2_value, H1. by destruct t.
Qed.

(** X15.  The test of noDofFree compares the rank with the 6 columns of L,
    not with the number of joints.  After a cycle that returned on a robot
    of fewer than 6 joints (J1 has fewer than 6 columns, and a rank within
    them), neither overload of secondaryTask throws noDofFree, whatever
    the rank: also when the rank is the number of joints. *)
Theorem secondaryTask_fewer_joints (it it' : Z) (t t' : servo)
    (r e2 de2dt : vpColVector R) :
  computeControlLaw it t = (Ret r, it', t') ->
  getCols (J1 t') < 6 ->
  rankJ1 t' <= getCols (J1 t') ->
  fst (secondaryTask de2dt t') <> Throw noDofFree /\
  fst (secondaryTask2 e2 de2dt t') <> Throw noDofFree.
Proof.
  intros H Hcols Hrank.
  destruct (computeControlLaw_steps _ _ _ _ _ H)
    as (cVa & aJe & t1 & t2 & t3 & _ & _ & H6 & _ & _ & _ & K4).
  unfold kept_by_primary in K4. members K4.
  assert (HL : getCols (L t') = 6) by congruence.
  rewrite secondaryTask_value, secondaryTask2_value, HL.
  assert (Hne : (rankJ1 t' =? 6) = false) by (apply Z.eqb_neq; lia).
  rewrite Hne. unfold of_lib. split; by case_match.
Qed.

(** X16.  Ownership at kill().  On a task not yet killed whose current
    features are the user's, addFeature(s, select) followed by kill()
    prints and deletes the desired features the task owns, in the order of
    registration, the duplicate that addFeature made last; it deletes no
    current feature and no desired feature of the user, empties the two
    lists and sets the flag. *)
Theorem kill_releases_synthesized (t : servo) (s_cur : F) (select : Z) :
  vpBasicFeature.getDeallocate (synthesized s_cur) = dealloc_vpServo ->
  taskWasKilled t = false ->
  aligned t ->
  Forall (fun f => vpBasicFeature.getDeallocate f = dealloc_user)
         (featureList t ++ [s_cur]) ->
  exists t',
    kill (snd (addFeature1 s_cur select t)) =
      (Ret (concat (map released (desiredFeatureList t))
            ++ [Print (synthesized s_cur); Delete (synthesized s_cur)]), t') /\
    featureList t' = [] /\ desiredFeatureList t' = [] /\
    taskWasKilled t' = true.
Proof.
  intros Hown Hk [Hlen _] Hu. unfold kill, addFeature1, modify.
  cbn [snd]. fold (synthesized s_cur). destruct t. simpl in *. rewrite Hk.
  rewrite kill_loop_user; [|rewrite !length_app; simpl; lia|done].
  rewrite map_app, concat_app. simpl. unfold released at 2.
  rewrite Hown. simpl. by eexists.
Qed.

(** X17.  What is registered after kill() is not released.  After a call of
    kill() that returned, addFeature(s, select) registers s and the
    duplicate it makes, and a further kill() deletes nothing and leaves the
    two in the lists; the destructor returns.  The duplicate is then never
    deleted by the task. *)
Theorem registered_after_kill_not_released (t t1 : servo) (evs : list (event F))
    (s_cur : F) (select : Z) :
  kill t = (Ret evs, t1) ->
  desiredFeatureList (snd (addFeature1 s_cur select t1))
    = desiredFeatureList t1 ++ [synthesized s_cur] /\
  kill (snd (addFeature1 s_cur select t1))
    = (Ret [], snd (addFeature1 s_cur select t1)) /\
  vpServo_destructor (snd (kill (snd (addFeature1 s_cur select t1)))) = Ret tt.
Proof.
  intros Hk.
  assert (Hf : taskWasKilled t1 = true).
  { unfold kill in Hk. destruct (taskWasKilled t) eqn:E.
    - by injection Hk as _ <-.
    - destruct (kill_loop _ _); try done. by injection Hk as _ <-. }
  assert (Hf' : taskWasKilled (snd (addFeature1 s_cur select t1)) = true)
    by (by destruct t1).
  split; [by destruct t1|].
  unfold kill, vpServo_destructor. rewrite Hf'. cbn [snd]. by rewrite Hf'.
Qed.

(** X18.  kill() and init() empty the two lists of features and leave the
    list of selections.  A feature registered next is therefore read, by
    getDimension() and by computeError(), under the first selection the
    task was ever given, not under the selection of its own
    registration. *)
Theorem selections_survive_reset (t : servo) (f d : F) (select old : Z)
    (rest : list Z) :
  taskWasKilled t = false ->
  aligned t ->
  featureSelectionList t = old :: rest ->
  let after_kill := snd (addFeature f d select (snd (kill t))) in
  let after_init := snd (addFeature f d select (snd (init t))) in
  featureList after_kill = [f] /\
  featureSelectionList after_kill = old :: rest ++ [select] /\
  fst (getDimension after_kill) = Ret (vpBasicFeature.getDimension f old) /\
  fst (computeError after_kill) = Ret (vpBasicFeature.error f d old) /\
  featureList after_init = [f] /\
  featureSelectionList after_init = old :: rest ++ [select] /\
  fst (getDimension after_init) = Ret (vpBasicFeature.getDimension f old) /\
  fst (computeError after_init) = Ret (vpBasicFeature.error f d old).
Proof.
  intros Hk [Hlen Hsl] Hs after_kill after_init.
  assert (Hreg : forall t1 : servo,
            featureList t1 = [f] -> desiredFeatureList t1 = [d] ->
            featureSelectionList t1 = old :: rest ++ [select] ->
            fst (getDimension t1) = Ret (vpBasicFeature.getDimension f old) /\
            fst (computeError t1) = Ret (vpBasicFeature.error f d old)).
  { intros t1 H1 H2 H3. split.
    - unfold getDimension. rewrite H1, H3. done.
    - rewrite computeError_spec.
      + simpl. rewrite H1, H2, H3. unfold stacked_error. simpl. by rewrite app_nil_r.
      + by rewrite H1.
      + split; rewrite H1, ?H2, ?H3; simpl; lia. }
  assert (Hak : featureList after_kill = [f] /\ desiredFeatureList after_kill = [d] /\
                featureSelectionList after_kill = old :: rest ++ [select]).
  { subst after_kill. unfold kill. rewrite Hk, kill_loop_returns by done.
    destruct t. simpl in *. by rewrite Hs. }
  assert (Hai : featureList after_init = [f] /\ desiredFeatureList after_init = [d] /\
                featureSelectionList after_init = old :: rest ++ [select]).
  { subst after_init. destruct t. simpl in *. by rewrite Hs. }
  destruct Hak as (K1 & K2 & K3), Hai as (I1 & I2 & I3).
  destruct (Hreg after_kill K1 K2 K3), (Hreg after_init I1 I2 I3). done.
Qed.

(** X19.  On a task whose three lists have the same length,
    addFeature(s, s_star, select) extends what the task computes and leaves
    the part of the features registered before: the dimension grows by the
    dimension of the feature under its selection, the vectors s, sStar and
    error get the contribution of the feature at their end, and the
    interaction matrix of the current features gets its rows at the end. *)
Theorem addFeature_extends (t : servo) (f d : F) (select : Z) (L0 : vpMatrix R) :
  length (featureList t) = length (desiredFeatureList t) ->
  length (featureSelectionList t) = length (featureList t) ->
  interaction_rows6 (featureList t ++ [f]) (featureSelectionList t ++ [select]) ->
  Forall row6 (rowData L0) ->
  let fl := featureList t in
  let dl := desiredFeatureList t in
  let sl := featureSelectionList t in
  let t1 := snd (addFeature f d select t) in
  fst (getDimension t1)
    = Ret (sum_dimension fl sl + vpBasicFeature.getDimension f select) /\
  fst (computeError t1)
    = Ret (stacked_error fl dl sl ++ vpBasicFeature.error f d select) /\
  s (snd (computeError t1)) = stacked_s fl ++ vpBasicFeature.get_s f /\
  sStar (snd (computeError t1)) = stacked_s dl ++ vpBasicFeature.get_s d /\
  computeInteractionMatrixFromList (featureList t1) (featureSelectionList t1) L0
    = Ret (mkMatrix 6 (stacked_rows fl sl
                       ++ rowData (vpBasicFeature.interaction f select))).
Proof.
  intros Hd Hs Hrows HL0 fl dl sl t1.
  assert (H1 : featureList t1 = fl ++ [f]) by (by destruct t).
  assert (H2 : desiredFeatureList t1 = dl ++ [d]) by (by destruct t).
  assert (H3 : featureSelectionList t1 = sl ++ [select]) by (by destruct t).
  assert (Hne : featureList t1 <> []) by (rewrite H1; by destruct fl).
  assert (Hal : aligned t1).
  { split; rewrite H1, ?H2, ?H3, !length_app; simpl; subst fl dl sl; lia. }
  split; [|split; [|split; [|split]]].
  - unfold getDimension. rewrite getDimension_loop_spec by apply Hal.
    cbn [fst]. rewrite H1, H3. by rewrite sum_dimension_app.
  - rewrite computeError_spec by done. cbn [fst]. rewrite H1, H2, H3.
    unfold stacked_error. rewrite error_contributions_app by done.
    rewrite concat_app. simpl. by rewrite app_nil_r.
  - rewrite computeError_spec by done. cbn [snd].
    replace (s _) with (stacked_s (featureList t1)) by (by destruct t1).
    rewrite H1. unfold stacked_s. rewrite map_app, concat_app. simpl. by rewrite app_nil_r.
  - rewrite computeError_spec by done. cbn [snd].
    replace (sStar _) with (stacked_s (desiredFeatureList t1)) by (by destruct t1).
    rewrite H2. unfold stacked_s. rewrite map_app, concat_app. simpl. by rewrite app_nil_r.
  - rewrite H1, H3. rewrite computeInteractionMatrixFromList_spec.
    + by rewrite stacked_rows_app.
    + by destruct fl.
    + rewrite !length_app. simpl. subst fl sl. lia.
    + done.
    + done.
Qed.

(** X20.  The three writers of dim_task agree on features that keep to
    their dimension.  On a task with a feature, whose features give, under
    their selections, an error vector and interaction matrices (current and
    desired) of as many rows as getDimension(select) says, getDimension(),
    computeError() and computeInteractionMatrix() in any mode leave the
    same value in dim_task: the sum of the dimensions, which is the length
    of the error vector and the row count of L. *)
Theorem dim_task_writers_agree (t : servo) :
  featureList t <> [] ->
  aligned t ->
  L_ok (L t) ->
  interaction_rows6 (featureList t) (featureSelectionList t) ->
  interaction_rows6 (desiredFeatureList t) (featureSelectionList t) ->
  map len (error_contributions (featureList t) (desiredFeatureList t)
             (featureSelectionList t))
    = zip_with vpBasicFeature.getDimension (featureList t) (featureSelectionList t) ->
  map getRows (zip_with vpBasicFeature.interaction (featureList t)
                 (featureSelectionList t))
    = zip_with vpBasicFeature.getDimension (featureList t) (featureSelectionList t) ->
  map getRows (zip_with vpBasicFeature.interaction (desiredFeatureList t)
                 (featureSelectionList t))
    = zip_with vpBasicFeature.getDimension (featureList t) (featureSelectionList t) ->
  exists n,
    fst (getDimension t) = Ret n /\
    dim_task (snd (getDimension t)) = n /\
    dim_task (snd (computeError t)) = n /\
    len (error (snd (computeError t))) = n /\
    dim_task (snd (computeInteractionMatrix t)) = n /\
    getRows (L (snd (computeInteractionMatrix t))) = n.
Proof.
  intros Hne Hal HL Hfl Hdl He Hc Hd.
  exists (sum_dimension (featureList t) (featureSelectionList t)).
  assert (Hg : getDimension t =
            (Ret (sum_dimension (featureList t) (featureSelectionList t)),
             t<|dim_task := sum_dimension (featureList t) (featureSelectionList t)|>)).
  { unfold getDimension. by rewrite getDimension_loop_spec by apply Hal. }
  assert (Hlc : len (stacked_rows (featureList t) (featureSelectionList t))
                = sum_dimension (featureList t) (featureSelectionList t)).
  { rewrite stacked_rows_len, Hc. done. }
  assert (Hld : len (stacked_rows (desiredFeatureList t) (featureSelectionList t))
                = sum_dimension (featureList t) (featureSelectionList t)).
  { rewrite stacked_rows_len, Hd. done. }
  assert (Hle : len (stacked_error (featureList t) (desiredFeatureList t)
                       (featureSelectionList t))
                = sum_dimension (featureList t) (featureSelectionList t)).
  { unfold stacked_error. rewrite sum_len_concat, sum_len_map, He. done. }
  rewrite Hg, computeError_spec, computeInteractionMatrix_spec by (done || congruence).
  cbn [fst snd].
  assert (Hrows : getRows
            match interactionMatrixType t with
            | CURRENT => mkMatrix 6 (stacked_rows (featureList t) (featureSelectionList t))
            | DESIRED =>
                mkMatrix 6 (stacked_rows (desiredFeatureList t) (featureSelectionList t))
            | MEAN =>
                average
                  (mkMatrix 6 (stacked_rows (featureList t) (featureSelectionList t)))
                  (mkMatrix 6 (stacked_rows (desiredFeatureList t)
                                 (featureSelectionList t)))
            end = sum_dimension (featureList t) (featureSelectionList t)).
  { destruct (interactionMatrixType t); unfold getRows; simpl; try done.
    unfold len in *. rewrite length_zip_with. lia. }
  repeat split; try done.
Qed.

(** X21.  Features that contribute nothing are assembled without an error.
    On a task with a feature whose features all give, under their
    selections, interaction matrices of no row and error vectors of no
    entry, computeInteractionMatrix() returns a matrix of no row and 6
    columns in any mode, computeError() returns the vector of no entry, and
    both leave 0 in dim_task: noFeatureError is for an empty list only. *)
Theorem empty_contributions_assemble (t : servo) :
  featureList t <> [] ->
  aligned t ->
  L_ok (L t) ->
  Forall (fun m : vpMatrix R => rowData m = [])
         (zip_with vpBasicFeature.interaction (featureList t) (featureSelectionList t)) ->
  Forall (fun m : vpMatrix R => rowData m = [])
         (zip_with vpBasicFeature.interaction (desiredFeatureList t)
            (featureSelectionList t)) ->
  Forall (fun v : vpColVector R => v = [])
         (error_contributions (featureList t) (desiredFeatureList t)
            (featureSelectionList t)) ->
  fst (computeInteractionMatrix t) = Ret (mkMatrix 6 []) /\
  dim_task (snd (computeInteractionMatrix t)) = 0 /\
  fst (computeError t) = Ret [] /\
  dim_task (snd (computeError t)) = 0.
Proof.
  intros Hne Hal HL Hc Hd He.
  assert (Hrc : stacked_rows (featureList t) (featureSelectionList t) = []).
  { unfold stacked_rows. apply concat_nils, Forall_map.
    eapply Forall_impl; [exact Hc|]. done. }
  assert (Hrd : stacked_rows (desiredFeatureList t) (featureSelectionList t) = []).
  { unfold stacked_rows. apply concat_nils, Forall_map.
    eapply Forall_impl; [exact Hd|]. done. }
  assert (Hre : stacked_error (featureList t) (desiredFeatureList t)
                  (featureSelectionList t) = []).
  { unfold stacked_error. by apply concat_nils. }
  rewrite computeInteractionMatrix_spec, computeError_spec; try done.
  - cbn [fst snd]. rewrite Hrc, Hrd, Hre.
    destruct (interactionMatrixType t); by destruct t.
  - unfold interaction_rows6. eapply Forall_impl; [exact Hc|].
    intros m ->. constructor.
  - unfold interaction_rows6. eapply Forall_impl; [exact Hd|].
    intros m ->. constructor.
  - by rewrite Hrc, Hrd.
Qed.

(** X22.  What print() shows of the error follows the flag of
    computeError(), not the vector.  After a cycle that returned,
    print(MINIMUM) writes the error vector of the cycle; after init() it
    writes that the error is not yet computed, though init() has left the
    vector of the cycle in the task. *)
Theorem print_after_cycle (it it' : Z) (t t' : servo) (r : vpColVector R) :
  computeControlLaw it t = (Ret r, it', t') ->
  print MINIMUM t' = Ret [Text "Err (s-s*):  "; PrintRowVector (error t')] /\
  print MINIMUM (snd (init t'))
    = Ret [Text "Err (s-s*):  "; Text "not yet computed "; Endl] /\
  error (snd (init t')) = error t'.
Proof.
  intros H. destruct (computeControlLaw_computed _ _ _ _ _ H) as (_ & He & _).
  unfold print, print_error. rewrite He. by destruct t'.
Qed.

(** X23.  On a task with aligned lists print(ALL) returns, and prints the
    current features in the order of registration, then the desired
    features in the same order, each under the selection of its rank in
    the selection list. *)
Theorem print_lists_features (t : servo) :
  aligned t ->
  exists out,
    print ALL t = Ret out /\
    printed_features out
      = zip (featureList t) (featureSelectionList t)
        ++ zip (desiredFeatureList t) (featureSelectionList t).
Proof.
  intros [Hlen Hsl]. unfold print.
  rewrite !print_features_returns by (rewrite <- ?Hlen; done).
  eexists. split; [reflexivity|].
  rewrite !printed_features_app, !printed_features_walk. unfold print_error.
  destruct (servoType t), (interactionMatrixComputed t), (errorComputed t);
    simpl; by rewrite !app_nil_r.
Qed.
End Further.

(** ** The reallocation loop *)

Section Doubling.
Context {T : Type}.
Variable resizeTo : Z -> T -> T.

(** X24.  The while loop of the stacked assembly doubles the size of the
    buffer until the contribution fits.  From a size of at least 1 it ends
    after k doublings and k calls of resize, for the least k that makes the
    size reach what is needed: the size it leaves is the first size
    doubled k times, and when it has grown it is less than twice what is
    needed.  ([stack] gives the loop the fuel the statement asks for.) *)
Theorem grow_doubles (fuel : nat) (need dim : Z) (buf : T) :
  1 <= dim ->
  (Z.to_nat (need - dim) <= fuel)%nat ->
  exists k : nat,
    grow resizeTo fuel need dim buf
      = Ret (dim * 2 ^ Z.of_nat k,
             foldl (fun b i => resizeTo (dim * 2 ^ Z.of_nat (S i)) b) buf (seq 0 k)) /\
    need <= dim * 2 ^ Z.of_nat k /\
    (forall j : nat, (j < k)%nat -> dim * 2 ^ Z.of_nat j < need) /\
    (k <> 0%nat -> dim * 2 ^ Z.of_nat k < 2 * need).
Proof.
  revert need dim buf. induction fuel as [|fuel IH]; intros need dim buf Hdim Hfuel.
  - exists 0%nat. simpl. destruct (need >? dim) eqn:E; [lia|].
    rewrite Z.mul_1_r. repeat split; try done; lia.
  - simpl. destruct (need >? dim) eqn:E.
    + destruct (IH need (dim * 2) (resizeTo (dim * 2) buf)) as (k & Hg & Hle & Hlt & Hb);
        [lia|lia|].
      exists (S k).
      assert (Hpow : forall j : nat, dim * 2 * 2 ^ Z.of_nat j = dim * 2 ^ Z.of_nat (S j)).
      { intros j. rewrite Nat2Z.inj_succ, Z.pow_succ_r by lia. lia. }
      rewrite Hg, Hpow. split; [|split; [|split]].
      * f_equal. f_equal. cbn [seq foldl]. rewrite <- (Hpow 0%nat).
        change (2 ^ Z.of_nat 0) with 1. rewrite Z.mul_1_r.
        rewrite <- (fmap_S_seq 0 k), foldl_fmap.
        apply foldl_pointwise. intros b i. by rewrite <- Hpow.
      * by rewrite <- Hpow.
      * intros [|j] Hj; [simpl; lia|]. rewrite <- Hpow. apply Hlt. lia.
      * intros _. destruct k as [|k'].
        -- simpl. lia.
        -- rewrite <- Hpow. apply Hb. done.
    + exists 0%nat. simpl. rewrite Z.mul_1_r. repeat split; try done; lia.
Qed.
End Doubling.

(** ** Instances of the further properties on the rational tasks *)

(** A rational feature whose matrix has rows of 6 doubles is within the
    interface, under every selection. *)
Lemma feature_rows6 (f : Rat.feature) : Forall row6 (Rat.matrix f) -> feature_ok f.
Proof.
  intros H select. simpl. unfold Rat.selected.
  apply Forall_forall. intros r Hr.
  apply list_elem_of_In, in_map_iff in Hr as ([i r'] & <- & Hin).
  apply list_elem_of_In, list_elem_of_filter in Hin as [_ Hin].
  apply elem_of_zip_r in Hin. simpl.
  eapply Forall_forall in H; [exact H|]. done.
Qed.

Lemma blank_task_inv : task_inv Rat.blank.
Proof.
  split; [split; simpl; lia|]. split; [split; constructor|]. split; constructor.
Qed.

Lemma script_ok : Forall method_ok Rat.script.
Proof.
  unfold Rat.script.
  repeat (constructor; try exact I); simpl; try split;
    apply feature_rows6; repeat constructor.
Qed.

Lemma task_supplied_inv : task_inv Rat.task_supplied.
Proof.
  split; [split; simpl; lia|]. split; [split; constructor|]. split; constructor.
Qed.




(** [calls_keep_invariant] on the script, from the blank task. *)
Lemma calls_keep_invariant_witness :
  aligned (snd (snd (run Rat.script (0, Rat.blank)))) /\
  L_ok (L (snd (snd (run Rat.script (0, Rat.blank))))).
Proof.
  destruct (calls_keep_invariant Rat.script 0 Rat.blank blank_task_inv script_ok)
    as (H1 & H2 & _).
  split; [exact H1 | exact H2].
Defined.

(** [destructor_after_calls] on the script: after its first 7 calls, which
    end with kill(), the destructor returns; after the whole script, where
    init() follows, it throws. *)
Lemma destructor_after_calls_witness :
  vpServo_destructor (snd (snd (run (take 7 Rat.script) (0, Rat.blank)))) = Ret tt /\
  vpServo_destructor (snd (snd (run Rat.script (0, Rat.blank))))
    = Throw notKilledProperly.
Proof.
  assert (Hal : aligned Rat.blank) by (split; simpl; lia).
  split.
  - exact (destructor_after_calls (take 7 Rat.script) 0 Rat.blank Hal).
  - exact (destructor_after_calls Rat.script 0 Rat.blank Hal).
Defined.

(** [computeControlLaw_errors] on task_supplied, which has a configuration
    and its inputs and no feature. *)
Lemma computeControlLaw_errors_witness :
  fst (fst (computeControlLaw 0 Rat.task_supplied)) = Throw noFeatureError.
Proof.
  destruct (computeControlLaw_errors 0 Rat.task_supplied task_supplied_inv)
    as (_ & H & _).
  apply H. split; [|reflexivity].
  intros [Hn|[_ Hi]]; [discriminate Hn | discriminate Hi].
Defined.

(** [kill_releases_synthesized] on task_x and the feature fyz: kill() prints
    and deletes the duplicate of fyz, nothing else. *)
Lemma kill_releases_synthesized_witness :
  exists t',
    kill (snd (addFeature1 Rat.fyz 3 Rat.task_x))
      = (Ret [Print (synthesized Rat.fyz); Delete (synthesized Rat.fyz)], t') /\
    featureList t' = [] /\ desiredFeatureList t' = [] /\ taskWasKilled t' = true.
Proof.
  refine (kill_releases_synthesized Rat.task_x Rat.fyz 3 _ _ _ _).
  - reflexivity.
  - reflexivity.
  - split; simpl; lia.
  - repeat constructor.
Defined.

(** [selections_survive_reset] on task_xyz, registered under the selections
    1 and 3: fyz registered again after kill() under 3 is read under 1, with
    one component in place of two. *)
Lemma selections_survive_reset_witness :
  fst (getDimension (snd (addFeature Rat.fyz Rat.fyz_star 3 (snd (kill Rat.task_xyz)))))
    = Ret 1 /\
  fst (computeError (snd (addFeature Rat.fyz Rat.fyz_star 3 (snd (kill Rat.task_xyz)))))
    = Ret [1%Q].
Proof.
  destruct (selections_survive_reset Rat.task_xyz Rat.fyz Rat.fyz_star 3 1 [3])
    as (_ & _ & H1 & H2 & _).
  - reflexivity.
  - split; simpl; lia.
  - reflexivity.
  - split; [exact H1 | exact H2].
Defined.

(** [addFeature_extends] on task_x and the feature fyz. *)
Lemma addFeature_extends_witness :
  fst (getDimension (snd (addFeature Rat.fyz Rat.fyz_star 3 Rat.task_x))) = Ret 3 /\
  fst (computeError (snd (addFeature Rat.fyz Rat.fyz_star 3 Rat.task_x)))
    = Ret [1; 1; 3]%Q.
Proof.
  destruct (addFeature_extends Rat.task_x Rat.fyz Rat.fyz_star 3 (newMatrix 1 6))
    as (H1 & H2 & _).
  - reflexivity.
  - reflexivity.
  - vm_compute. repeat constructor.
  - apply Forall_replicate. reflexivity.
  - split; [exact H1 | exact H2].
Defined.

(** [stale_inputs_accepted] on task_no_cVe, whose cVe was never supplied,
    with the counter at 1. *)
Lemma stale_inputs_accepted_witness :
  exists b1 b2 b3 b4 b5,
    computeControlLaw 1 (with_flags true true true true true Rat.task_no_cVe) =
      (fst (fst (computeControlLaw 1 Rat.task_no_cVe)),
       snd (fst (computeControlLaw 1 Rat.task_no_cVe)),
       with_flags b1 b2 b3 b4 b5 (snd (computeControlLaw 1 Rat.task_no_cVe))).
Proof. apply stale_inputs_accepted. lia. Defined.

(** [failed_cycle_consumes_inputs] on task_supplied. *)
Lemma failed_cycle_consumes_inputs_witness :
  fst (computeControlLaw 0 Rat.task_supplied) = (Throw noFeatureError, 0) /\
  testInitialization (snd (computeControlLaw 0 Rat.task_supplied)) = Ret false /\
  fst (computeControlLaw 0 (snd (addFeature Rat.fx Rat.fx_star 1
                                   (snd (computeControlLaw 0 Rat.task_supplied)))))
    = (Throw servoError, 0).
Proof.
  destruct (failed_cycle_consumes_inputs Rat.task_supplied Rat.fx Rat.fx_star 1)
    as (H1 & H2 & H3).
  - reflexivity.
  - reflexivity.
  - discriminate.
  - reflexivity.
  - split; [exact (f_equal fst H1)|]. split; [exact H2 | exact (f_equal fst H3)].
Defined.

(** [inputs_stale_after_cycle] on the first cycle of task_cVf. *)
Lemma inputs_stale_after_cycle_witness :
  testUpdated Rat.task_cVf = Ret true /\
  testUpdated (Rat.after_cycle 0 Rat.task_cVf) = Ret false.
Proof.
  split; [reflexivity|].
  destruct (inputs_stale_after_cycle 0 1 Rat.task_cVf (Rat.after_cycle 0 Rat.task_cVf)
              [1; 0; 0; 0; 0; 0]%Q) as (_ & H & _).
  - vm_compute. reflexivity.
  - exact H.
Defined.

(** [setServo_keeps_inputs] on the blank task. *)
Lemma setServo_keeps_inputs_witness :
  testInitialization
    (snd (setServo EYETOHAND_L_cVe_eJe (snd (setServo EYEINHAND_CAMERA Rat.blank))))
  = Ret true.
Proof.
  destruct (setServo_keeps_inputs Rat.blank EYETOHAND_L_cVe_eJe) as (_ & _ & H & _).
  - right. reflexivity.
  - exact H.
Defined.

(** [control_law_value] on the first cycle of task_x. *)
Lemma control_law_value_witness :
  exists cVa aJe t1 LcVa J,
    select_cVa_aJe Rat.task_x = (Ret (cVa, aJe), t1) /\
    mmul (L (Rat.after_cycle 0 Rat.task_x)) cVa = Some LcVa /\
    mmul LcVa aJe = Some J /\
    J1 (Rat.after_cycle 0 Rat.task_x) = mscale J (signInteractionMatrix Rat.task_x) /\
    e (Rat.after_cycle 0 Rat.task_x)
      = svmul (ropp (lambda Rat.task_x (e1 (Rat.after_cycle 0 Rat.task_x))))
              (e1 (Rat.after_cycle 0 Rat.task_x)) /\
    [-1; 0; 0; 0; 0; 0]%Q = e (Rat.after_cycle 0 Rat.task_x) /\
    1 = 0 + 1 /\
    interactionMatrixComputed (Rat.after_cycle 0 Rat.task_x) = true /\
    errorComputed (Rat.after_cycle 0 Rat.task_x) = true /\
    dim_task (Rat.after_cycle 0 Rat.task_x) = len (error (Rat.after_cycle 0 Rat.task_x)).
Proof.
  apply (control_law_value 0 1 Rat.task_x (Rat.after_cycle 0 Rat.task_x)
           [-1; 0; 0; 0; 0; 0]%Q).
  vm_compute. reflexivity.
Defined.

(** [pseudo_inverse_primary_task] on the first cycle of task_xyz, of
    rank 3. *)
Lemma pseudo_inverse_primary_task_witness :
  rankJ1 (Rat.after_cycle 0 Rat.task_xyz) = 3 /\
  exists imJ1 imJ1t WJ1p,
    pseudoInverse (J1 (Rat.after_cycle 0 Rat.task_xyz))
      = Some (3, J1p (Rat.after_cycle 0 Rat.task_xyz), imJ1, imJ1t) /\
    mmul imJ1t (transpose imJ1t) = Some (WpW (Rat.after_cycle 0 Rat.task_xyz)) /\
    mmul (WpW (Rat.after_cycle 0 Rat.task_xyz)) (J1p (Rat.after_cycle 0 Rat.task_xyz))
      = Some WJ1p /\
    mvmul WJ1p (error (Rat.after_cycle 0 Rat.task_xyz))
      = Some (e1 (Rat.after_cycle 0 Rat.task_xyz)).
Proof.
  split; [vm_compute; reflexivity|].
  destruct (pseudo_inverse_primary_task 0 1 Rat.task_xyz (Rat.after_cycle 0 Rat.task_xyz)
              [-1; -1; 3; 0; 0; 0]%Q) as (imJ1 & imJ1t & H1 & _ & H3).
  - reflexivity.
  - vm_compute. reflexivity.
  - destruct H3 as (H3 & WJ1p & H4 & H5); [vm_compute; discriminate|].
    exists imJ1, imJ1t, WJ1p. split; [exact H1|]. split; [exact H3|].
    split; [exact H4 | exact H5].
Defined.

(** [dim_task_writers_agree] on task_xyz: the three leave 3. *)
Lemma dim_task_writers_agree_witness :
  exists n,
    fst (getDimension Rat.task_xyz) = Ret n /\
    dim_task (snd (getDimension Rat.task_xyz)) = n /\
    dim_task (snd (computeError Rat.task_xyz)) = n /\
    len (error (snd (computeError Rat.task_xyz))) = n /\
    dim_task (snd (computeInteractionMatrix Rat.task_xyz)) = n /\
    getRows (L (snd (computeInteractionMatrix Rat.task_xyz))) = n.
Proof.
  apply dim_task_writers_agree.
  - vm_compute. discriminate.
  - split; vm_compute; [reflexivity | lia].
  - split; constructor.
  - vm_compute. repeat constructor.
  - vm_compute. repeat constructor.
  - reflexivity.
  - reflexivity.
  - reflexivity.
Defined.

(** [secondaryTask_fewer_joints] on the first cycle of task_4: J1 has the 4
    columns of the robot and rank 1. *)
Lemma secondaryTask_fewer_joints_witness :
  getCols (J1 (Rat.after_cycle 0 Rat.task_4)) = 4 /\
  fst (secondaryTask [1; 2; 3; 4]%Q (Rat.after_cycle 0 Rat.task_4)) <> Throw noDofFree /\
  fst (secondaryTask2 [1; 1; 1; 1]%Q [1; 2; 3; 4]%Q (Rat.after_cycle 0 Rat.task_4))
    <> Throw noDofFree.
Proof.
  split; [reflexivity|].
  apply (secondaryTask_fewer_joints 0 1 Rat.task_4 (Rat.after_cycle 0 Rat.task_4)
           [-1; 0; 0; 0]%Q).
  - vm_compute. reflexivity.
  - vm_compute. reflexivity.
  - vm_compute. discriminate.
Defined.

(** [print_after_cycle] on the first cycle of task_xyz. *)
Lemma print_after_cycle_witness :
  print MINIMUM (Rat.after_cycle 0 Rat.task_xyz)
    = Ret [Text "Err (s-s*):  "; PrintRowVector [1; 1; 3]%Q] /\
  print MINIMUM (snd (init (Rat.after_cycle 0 Rat.task_xyz)))
    = Ret [Text "Err (s-s*):  "; Text "not yet computed "; Endl].
Proof.
  destruct (print_after_cycle 0 1 Rat.task_xyz (Rat.after_cycle 0 Rat.task_xyz)
              [-1; -1; 3; 0; 0; 0]%Q) as (H1 & H2 & _).
  - vm_compute. reflexivity.
  - split; [exact H1 | exact H2].
Defined.

(** [print_lists_features] on task_owned. *)
Lemma print_lists_features_witness :
  exists out,
    print ALL Rat.task_owned = Ret out /\
    printed_features out = [(Rat.fx, 1); (synthesized Rat.fx, 1)].
Proof.
  apply (print_lists_features Rat.task_owned). split; simpl; lia.
Defined.

(** [grow_doubles] on a vector of 1 double that must hold 5: three
    doublings, to 8. *)
Lemma grow_doubles_witness :
  exists k : nat,
    grow (fun n (v : vpColVector Q) => resizeV n false v) 5 5 1 [0%Q]
      = Ret (1 * 2 ^ Z.of_nat k,
             foldl (fun b i => resizeV (1 * 2 ^ Z.of_nat (S i)) false b) [0%Q] (seq 0 k)) /\
    5 <= 1 * 2 ^ Z.of_nat k /\
    (forall j : nat, (j < k)%nat -> 1 * 2 ^ Z.of_nat j < 5) /\
    (k <> 0%nat -> 1 * 2 ^ Z.of_nat k < 2 * 5).
Proof. apply grow_doubles; lia. Defined.

(** [empty_contributions_assemble] on task_unselected, whose feature is
    registered under the selection 0. *)
Lemma empty_contributions_assemble_witness :
  fst (computeInteractionMatrix Rat.task_unselected) = Ret (mkMatrix 6 []) /\
  dim_task (snd (computeInteractionMatrix Rat.task_unselected)) = 0 /\
  fst (computeError Rat.task_unselected) = Ret [] /\
  dim_task (snd (computeError Rat.task_unselected)) = 0.
Proof.
  apply empty_contributions_assemble.
  - vm_compute. discriminate.
  - split; vm_compute; [reflexivity | lia].
  - split; constructor.
  - repeat constructor.
  - repeat constructor.
  - repeat constructor.
Defined.

(** [registered_after_kill_not_released] on task_x and the feature fx. *)
Lemma registered_after_kill_not_released_witness :
  kill (snd (addFeature1 Rat.fx 1 (snd (kill Rat.task_x))))
    = (Ret [], snd (addFeature1 Rat.fx 1 (snd (kill Rat.task_x)))) /\
  desiredFeatureList (snd (addFeature1 Rat.fx 1 (snd (kill Rat.task_x))))
    = [synthesized Rat.fx].
Proof.
  destruct (registered_after_kill_not_released Rat.task_x (snd (kill Rat.task_x)) []
              Rat.fx 1) as (H1 & H2 & _).
  - reflexivity.
  - split; [exact H2 | exact H1].
Defined.
